(** * handler.py: the ComfyUI job handler, embedded and verified

    A shallow embedding of [src/handler.py]: the serverless handler that
    saves the caller's input images, waits for the ComfyUI server, opens
    the websocket, queues the workflow, waits for the completion event,
    reads the history record and downloads every referenced image.

    Layout:
    - [Py]       decoded JSON values and the Python operations the handler
                 applies to them (subscript, [in], [len], iteration, [==]);
    - [Base64]   [base64.b64encode] and [base64.b64decode];
    - [Path]     [os.path.join] and where a path leads;
    - [Comfy]    the world the handler talks to, the state-and-exception
                 monad, and the handler itself, function by function;
    - [Decoder]  a JSON decoder that runs, for the examples;
    - [Spec]     the notions the specification speaks of;
    - [Demo]     one invocation against a scripted server;
    - [Effects]  notions for the properties of whole runs;
    - [Cases]    further invocations, for the examples;
    - the lemmas and the theorems, one theorem per property: C1 to C10,
      the properties of the specification, and X1 to X15, further
      properties of the code. *)

From Stdlib Require Import ZArith NArith List String Ascii Floats Lia Bool.
From Stdlib.Strings Require Import Byte.
From stdpp Require Import gmap strings.

Open Scope Z_scope.

(* ================================================================== *)
(** * Python values                                                    *)
(* ================================================================== *)

Module Py.

(** What [json.loads] produces: [None], [bool], [int], [float], [str],
    [list] and [dict].  A [str] is kept as a Rocq [string]; a character
    beyond ASCII is held as its UTF-8 bytes, and the operations that
    count or index the characters of a [str] ([len], iteration, [s[i]])
    go by code point, see [code_points].  A [dict] keeps its items in
    insertion order, as CPython does; [json.loads] never yields two items
    with one key. *)
#[warnings="-register-all"] Inductive json : Type :=
| JNull
| JBool (b : bool)
| JInt (n : Z)
| JFloat (f : float)
| JStr (s : string)
| JArr (items : list json)
| JObj (fields : list (string * json)).

(** The exceptions that can leave the handler. *)
Inductive exn : Type :=
| KeyError (key : json)
| TypeError
| AttributeError
| IndexError
| JSONDecodeError          (* json.loads on a malformed document; a ValueError *)
| ValueError               (* non-ASCII text handed to b64decode, NUL in a path *)
| BinasciiError            (* binascii.Error: bad base64 *)
| OSError                  (* open() failed *)
| URLError                 (* urllib: transport failure or HTTP error status *)
| WebSocketException       (* connect or recv failed, channel closed *)
| RuntimeError (msg : string).

Inductive result (A : Type) : Type :=
| Ok (a : A)
| Raise (e : exn).
Arguments Ok {A} a.
Arguments Raise {A} e.

Definition is_ok {A} (r : result A) : bool :=
  match r with Ok _ => true | Raise _ => false end.

(** Sequencing of computations that may raise. *)
Notation "x <~ e ; k" :=
  (match e with Ok x => k | Raise err => Raise err end)
  (at level 200, e at level 100, k at level 200, right associativity,
   only parsing).

(** ** dict access *)

Fixpoint dict_get (k : string) (d : list (string * json)) : option json :=
  match d with
  | [] => None
  | (k', v) :: d' => if String.eqb k k' then Some v else dict_get k d'
  end.

Definition dict_has (k : string) (d : list (string * json)) : bool :=
  match dict_get k d with Some _ => true | None => false end.

(** [d[k] = v] on a dict: replaces in place, or appends a new item. *)
Fixpoint dict_set (k : string) (v : json) (d : list (string * json))
  : list (string * json) :=
  match d with
  | [] => [(k, v)]
  | (k', v') :: d' =>
      if String.eqb k k' then (k', v) :: d' else (k', v') :: dict_set k v d'
  end.

(** [x[k]] for a string literal [k]. *)
Definition getitem (x : json) (k : string) : result json :=
  match x with
  | JObj d => match dict_get k d with
              | Some v => Ok v
              | None => Raise (KeyError (JStr k))
              end
  | _ => Raise TypeError
  end.

(** [x.get(k, default)]: only a dict has the method. *)
Definition dict_get_default (x : json) (k : string) (default : json)
  : result json :=
  match x with
  | JObj d => match dict_get k d with
              | Some v => Ok v
              | None => Ok default
              end
  | _ => Raise AttributeError
  end.

(** [x.values()] *)
Definition values (x : json) : result (list json) :=
  match x with
  | JObj d => Ok (map snd d)
  | _ => Raise AttributeError
  end.

(** ** The characters of a str *)

(** A byte [10xxxxxx] continues the UTF-8 sequence of a code point; every
    other byte starts one. *)
Definition is_continuation (c : ascii) : bool :=
  let n := N_of_ascii c in ((128 <=? n) && (n <? 192))%N.

(** [s] starts in the middle of a code point. *)
Definition continues (s : string) : bool :=
  match s with
  | String c _ => is_continuation c
  | EmptyString => false
  end.

(** The code points of [s], each as the str of its bytes: a byte is put
    in front of the group that follows it when that group starts with a
    continuation byte, and starts a group of its own otherwise. *)
Fixpoint code_points (s : string) : list string :=
  match s with
  | EmptyString => []
  | String c rest =>
      match code_points rest with
      | g :: gs =>
          if continues rest then String c g :: gs
          else String c EmptyString :: g :: gs
      | [] => [String c EmptyString]
      end
  end.

(** [len(x)]: of a str, the number of its code points. *)
Definition len (x : json) : result nat :=
  match x with
  | JStr s => Ok (List.length (code_points s))
  | JArr l => Ok (List.length l)
  | JObj d => Ok (List.length d)
  | _ => Raise TypeError
  end.

Definition chars (s : string) : list json := map JStr (code_points s).

(** [for x in v]: the items the loop visits. *)
Definition iter (v : json) : result (list json) :=
  match v with
  | JArr l => Ok l
  | JObj d => Ok (map (fun kv => JStr (fst kv)) d)
  | JStr s => Ok (chars s)
  | _ => Raise TypeError
  end.

(** ** Equality, [==] *)

(** [int == float] compares the exact values. *)
Definition int_float_eqb (z : Z) (f : float) : bool :=
  match Prim2SF f with
  | S754_zero _ => z =? 0
  | S754_finite s m e =>
      let v := if s then Z.neg m else Z.pos m in
      if 0 <=? e then z =? v * 2 ^ e else z * 2 ^ (- e) =? v
  | _ => false
  end.

Definition is_nan (x : json) : bool :=
  match x with JFloat f => PrimFloat.is_nan f | _ => false end.

(** [a == b].  [bool] is an [int]; the items of two lists or two dicts are
    compared with [x is y or x == y], and the only values for which the
    identity test adds anything are the NaNs, all of which are the one
    [json.decoder.NaN] object. *)
Fixpoint py_eq (a b : json) {struct a} : bool :=
  match a, b with
  | JNull, JNull => true
  | JBool x, JBool y => Bool.eqb x y
  | JBool x, JInt y => Z.b2z x =? y
  | JBool x, JFloat y => int_float_eqb (Z.b2z x) y
  | JInt x, JBool y => x =? Z.b2z y
  | JInt x, JInt y => x =? y
  | JInt x, JFloat y => int_float_eqb x y
  | JFloat x, JBool y => int_float_eqb (Z.b2z y) x
  | JFloat x, JInt y => int_float_eqb y x
  | JFloat x, JFloat y => PrimFloat.eqb x y
  | JStr s, JStr t => String.eqb s t
  | JArr xs, JArr ys =>
      (fix items (xs ys : list json) {struct xs} : bool :=
         match xs, ys with
         | [], [] => true
         | x :: xs', y :: ys' =>
             ((is_nan x && is_nan y) || py_eq x y) && items xs' ys'
         | _, _ => false
         end) xs ys
  | JObj d, JObj d' =>
      (List.length d =? List.length d')%nat &&
      (fix fields (d : list (string * json)) {struct d} : bool :=
         match d with
         | [] => true
         | (k, v) :: rest =>
             match dict_get k d' with
             | Some v' => ((is_nan v && is_nan v') || py_eq v v') && fields rest
             | None => false
             end
         end) d
  | _, _ => false
  end.

(** [x is None] *)
Definition is_none (x : json) : bool :=
  match x with JNull => true | _ => false end.

(** [k in x] for a string literal [k]: key of a dict, item of a list,
    substring of a str. *)
Definition contains (x : json) (k : string) : result bool :=
  match x with
  | JObj d => Ok (dict_has k d)
  | JArr l => Ok (existsb (fun y => py_eq y (JStr k)) l)
  | JStr s => Ok (match String.index 0 k s with Some _ => true | None => false end)
  | _ => Raise TypeError
  end.

(** [x[k]] for an arbitrary [k]: a dict wants a hashable key (and holds
    only str keys), a list or str wants an integer, counted from the end
    when negative; a str is indexed by code point. *)
Definition index_of (k : json) : option Z :=
  match k with
  | JInt n => Some n
  | JBool b => Some (Z.b2z b)
  | _ => None
  end.

Definition subscript (x k : json) : result json :=
  match x with
  | JObj d =>
      match k with
      | JStr s => getitem x s
      | JArr _ | JObj _ => Raise TypeError
      | _ => Raise (KeyError k)
      end
  | JArr l =>
      match index_of k with
      | Some n =>
          let i := if n <? 0 then n + Z.of_nat (List.length l) else n in
          if i <? 0 then Raise IndexError
          else match nth_error l (Z.to_nat i) with
               | Some v => Ok v
               | None => Raise IndexError
               end
      | None => Raise TypeError
      end
  | JStr s =>
      match index_of k with
      | Some n =>
          let cs := code_points s in
          let i := if n <? 0 then n + Z.of_nat (List.length cs) else n in
          if i <? 0 then Raise IndexError
          else match nth_error cs (Z.to_nat i) with
               | Some c => Ok (JStr c)
               | None => Raise IndexError
               end
      | None => Raise TypeError
      end
  | _ => Raise TypeError
  end.

End Py.

(* ================================================================== *)
(** * base64 and paths                                                 *)
(* ================================================================== *)

Module Base64.

Import Py.
Local Open Scope N_scope.

(** The 64 characters of the standard alphabet, [table_b2a_base64]. *)
Definition alphabet : string :=
  "ABCDEFGHIJKLMNOPQRSTUVWXYZabcdefghijklmnopqrstuvwxyz0123456789+/".

Definition PAD : ascii := "="%char.

Definition b2a (n : N) : ascii :=
  match String.get (N.to_nat n) alphabet with
  | Some c => c
  | None => PAD
  end.

(** [table_a2b_base64]: the value of a character of the alphabet, [None]
    for every other character (the table's entries of 64 and above). *)
Definition a2b (c : ascii) : option N :=
  let n := N_of_ascii c in
  if (65 <=? n) && (n <=? 90) then Some (n - 65)
  else if (97 <=? n) && (n <=? 122) then Some (n - 97 + 26)
  else if (48 <=? n) && (n <=? 57) then Some (n - 48 + 52)
  else if n =? 43 then Some 62
  else if n =? 47 then Some 63
  else None.

(** Storing into an [unsigned char]. *)
Definition to_byte (n : N) : byte :=
  match Byte.of_N (n mod 256) with
  | Some b => b
  | None => x00
  end.

(** The four sextets of three bytes [n1 n2 n3]. *)
Definition sextet1 (n1 : N) : N := N.shiftr n1 2.
Definition sextet2 (n1 n2 : N) : N :=
  N.lor (N.shiftl (N.land n1 3) 4) (N.shiftr n2 4).
Definition sextet3 (n2 n3 : N) : N :=
  N.lor (N.shiftl (N.land n2 15) 2) (N.shiftr n3 6).
Definition sextet4 (n3 : N) : N := N.land n3 63.

(** [binascii.b2a_base64(data, newline=False)]: three bytes make four
    characters; one or two left-over bytes are padded with [=]. *)
Fixpoint b2a_base64 (data : list byte) : string :=
  match data with
  | [] => EmptyString
  | [b1] =>
      let n1 := Byte.to_N b1 in
      String (b2a (sextet1 n1))
        (String (b2a (N.shiftl (N.land n1 3) 4))
           (String PAD (String PAD EmptyString)))
  | [b1; b2] =>
      let n1 := Byte.to_N b1 in
      let n2 := Byte.to_N b2 in
      String (b2a (sextet1 n1))
        (String (b2a (sextet2 n1 n2))
           (String (b2a (N.shiftl (N.land n2 15) 2))
              (String PAD EmptyString)))
  | b1 :: b2 :: b3 :: rest =>
      let n1 := Byte.to_N b1 in
      let n2 := Byte.to_N b2 in
      let n3 := Byte.to_N b3 in
      String (b2a (sextet1 n1))
        (String (b2a (sextet2 n1 n2))
           (String (b2a (sextet3 n2 n3))
              (String (b2a (sextet4 n3)) (b2a_base64 rest))))
  end.

(** [binascii.a2b_base64(data)] with [strict_mode] off, the loop of the
    CPython implementation (3.11): [quad_pos] counts the characters of the
    current group, [leftchar] holds the bits not yet written, [pads] the
    padding characters seen since the last data character.  A character
    outside the alphabet is skipped; padding that completes a group ends
    the decoding (whatever follows is not read); input that ends inside a
    group is an error. *)
Fixpoint a2b_loop (s : string) (quad_pos leftchar pads : N) (out : list byte)
  : option (list byte) :=
  match s with
  | EmptyString => if quad_pos =? 0 then Some out else None
  | String c rest =>
      if Ascii.eqb c PAD then
        if 2 <=? quad_pos then
          if 4 <=? quad_pos + (pads + 1) then Some out
          else a2b_loop rest quad_pos leftchar (pads + 1) out
        else a2b_loop rest quad_pos leftchar pads out
      else
        match a2b c with
        | None => a2b_loop rest quad_pos leftchar pads out
        | Some this_ch =>
            match quad_pos with
            | 0 => a2b_loop rest 1 this_ch 0 out
            | 1 =>
                a2b_loop rest 2 (N.land this_ch 15) 0
                  (out ++ [to_byte (N.lor (N.shiftl leftchar 2) (N.shiftr this_ch 4))])
            | 2 =>
                a2b_loop rest 3 (N.land this_ch 3) 0
                  (out ++ [to_byte (N.lor (N.shiftl leftchar 4) (N.shiftr this_ch 2))])
            | _ =>
                a2b_loop rest 0 0 0
                  (out ++ [to_byte (N.lor (N.shiftl leftchar 6) this_ch)])
            end
        end
  end.

Definition a2b_base64 (s : string) : option (list byte) :=
  a2b_loop s 0 0 0 [].

Fixpoint is_ascii (s : string) : bool :=
  match s with
  | EmptyString => true
  | String c rest => (N_of_ascii c <? 128) && is_ascii rest
  end.

(** [base64.b64encode(raw).decode("utf-8")] *)
Definition b64encode (raw : list byte) : string := b2a_base64 raw.

(** [base64.b64decode(x)]: a str must be ASCII and is then decoded with
    [a2b_base64]; any other decoded JSON value is not bytes-like. *)
Definition b64decode (x : json) : result (list byte) :=
  match x with
  | JStr s =>
      if is_ascii s then
        match a2b_base64 s with
        | Some raw => Ok raw
        | None => Raise BinasciiError
        end
      else Raise ValueError
  | _ => Raise TypeError
  end.

End Base64.

Module Path.

Import Py.

Definition starts_with_sep (s : string) : bool :=
  match s with
  | String c _ => Ascii.eqb c "/"%char
  | EmptyString => false
  end.

Fixpoint ends_with_sep (s : string) : bool :=
  match s with
  | EmptyString => false
  | String c EmptyString => Ascii.eqb c "/"%char
  | String _ rest => ends_with_sep rest
  end.

(** [posixpath.join(a, b)] on two str arguments: an absolute [b] replaces
    [a]; otherwise [b] is appended, after a separator unless [a] is empty
    or already ends with one. *)
Definition join_str (a b : string) : string :=
  if starts_with_sep b then b
  else if (String.eqb a "" || ends_with_sep a)%bool then (a ++ b)%string
  else (a ++ "/" ++ b)%string.

(** [os.path.join(a, x)] where [x] is a decoded JSON value: only a str is
    path-like. *)
Definition join (a : string) (x : json) : result string :=
  match x with
  | JStr b => Ok (join_str a b)
  | _ => Raise TypeError
  end.

(** Where a path leads, read lexically as [os.path.normpath] does for an
    absolute path: empty and [.] components vanish and [..] steps back
    (never above the root). *)
Fixpoint split_sep (s : string) (cur : string) : list string :=
  match s with
  | EmptyString => [cur]
  | String c rest =>
      if Ascii.eqb c "/"%char then cur :: split_sep rest ""
      else split_sep rest (cur ++ String c EmptyString)%string
  end.

Fixpoint resolve_components (comps : list string) (stack : list string)
  : list string :=
  match comps with
  | [] => rev stack
  | c :: comps' =>
      if (String.eqb c "" || String.eqb c ".")%bool
      then resolve_components comps' stack
      else if String.eqb c ".."
           then resolve_components comps' (tl stack)
           else resolve_components comps' (c :: stack)
  end.

Definition components (path : string) : list string :=
  resolve_components (split_sep path "") [].

(** Is [path] a location below the directory with components [dir]? *)
Fixpoint below (dir comps : list string) : bool :=
  match dir, comps with
  | [], _ :: _ => true
  | d :: dir', c :: comps' => String.eqb d c && below dir' comps'
  | _, _ => false
  end.

End Path.

(* ================================================================== *)
(** * The handler and its collaborators                                *)
(* ================================================================== *)

Module Comfy.

Import Py.
Export Py.

(** What [ws.recv()] returns: a str for a text frame, bytes otherwise. *)
Inductive frame : Type :=
| Text (s : string)
| Binary (b : list byte).

(** The effects of one invocation, as they reach the outside.  A request
    is named by the values that go into its URL or body, and keeps the
    reply it got ([None]: the call raised).  The server address is part
    of every URL and of none of the events.  Logging is left out: of a
    [logger.info] call only the evaluation of its arguments can change
    the course of the handler, and that is kept ([len]). *)
Inductive event : Type :=
| EvWrite (path : string) (data : list byte)   (* open(path, "wb"), f.write(data) *)
| EvOpenFailed (path : string)
| EvProbe (up : bool)                          (* GET http://SERVER:8188, timeout 2 *)
| EvSleep (seconds : Z)
| EvConnect (client_id : string) (ok : bool)   (* ws://SERVER:8188/ws?clientId=... *)
| EvSubmit (prompt : json) (client_id : string) (reply : option string)
                                               (* POST /prompt *)
| EvRecv (msg : option frame)
| EvClose
| EvHistory (prompt_id : json) (reply : option string)      (* GET /history/<id> *)
| EvView (filename subfolder folder_type : json) (reply : option (list byte)).
                                               (* GET /view?filename=..&subfolder=..&type=.. *)

(** The collaborators.  [json_loads] is the decoder; [CLIENT_ID] the
    module-level [str(uuid.uuid4())]; the others say how the file system
    and the ComfyUI server answer, given everything that happened so far
    in the invocation. *)
Record service : Type := {
  json_loads : string -> option json;
  CLIENT_ID : string;
  can_open : list event -> string -> bool;
  accepts : list event -> string -> bool;
  prompt_reply : list event -> json -> string -> option string;
  history_reply : list event -> json -> option string;
  view_reply : list event -> json -> json -> json -> option (list byte)
}.

(** The state an invocation runs in.  [files] holds, under each path as it
    was spelled, what was last written under that path.  [open()] resolves
    the path it is given, so two spellings of one location are one file
    on disk: what a location holds after a run is read off the writes in
    the trace ([Spec.last_written]). *)
Record world : Type := {
  files : gmap string (list byte);   (* the files, by the path they are opened under *)
  probes : list bool;     (* how the coming liveness requests end; none left: down *)
  inbox : list frame;     (* what the websocket delivers before it closes *)
  trace : list event      (* the effects so far, oldest first *)
}.

Definition INPUT_DIR : string := "/input".

(** ** The monad: state, and exceptions that keep the state *)

Definition M (A : Type) : Type := world -> result A * world.

Definition ret {A} (a : A) : M A := fun w => (Ok a, w).

Definition raise {A} (e : exn) : M A := fun w => (Raise e, w).

Definition bind {A B} (m : M A) (k : A -> M B) : M B :=
  fun w =>
    match m w with
    | (Ok a, w') => k a w'
    | (Raise e, w') => (Raise e, w')
    end.

Definition lift {A} (r : result A) : M A := fun w => (r, w).

(** [try: m  except Exception: ...] hands the outcome to the caller. *)
Definition attempt {A} (m : M A) : M (result A) :=
  fun w => let (r, w') := m w in (Ok r, w').

Declare Scope comfy_scope.
Delimit Scope comfy_scope with comfy.
Notation "x <- m ;; k" := (bind m (fun x => k))
  (at level 100, m at next level, right associativity) : comfy_scope.
Notation "m ;; k" := (bind m (fun _ => k))
  (at level 100, right associativity) : comfy_scope.
Local Open Scope comfy_scope.

Definition emit (e : event) : M unit :=
  fun w => (Ok tt, {| files := files w; probes := probes w;
                      inbox := inbox w; trace := trace w ++ [e] |}).

(** [for x in l: acc = body(x, acc)] *)
Fixpoint for_in {A S} (l : list A) (body : A -> S -> M S) (acc : S) : M S :=
  match l with
  | [] => ret acc
  | x :: l' => acc' <- body x acc ;; for_in l' body acc'
  end.

Section Handler.

Variable svc : service.

Definition loads (s : string) : result json :=
  match json_loads svc s with
  | Some v => Ok v
  | None => Raise JSONDecodeError
  end.

(** ** The primitive effects *)

(** [with open(path, "wb") as f: f.write(data)] *)
Definition write_file (path : string) (data : list byte) : M unit :=
  fun w =>
    if can_open svc (trace w) path then
      (Ok tt, {| files := <[path := data]> (files w); probes := probes w;
                 inbox := inbox w; trace := trace w ++ [EvWrite path data] |})
    else
      (Raise OSError, {| files := files w; probes := probes w;
                         inbox := inbox w; trace := trace w ++ [EvOpenFailed path] |}).

(** [urllib.request.urlopen(f"http://{SERVER_ADDRESS}:8188", timeout=2)] *)
Definition urlopen_base : M unit :=
  fun w =>
    let up := hd false (probes w) in
    (if up then Ok tt else Raise URLError,
     {| files := files w; probes := tl (probes w);
        inbox := inbox w; trace := trace w ++ [EvProbe up] |}).

(** [time.sleep(seconds)] *)
Definition sleep (seconds : Z) : M unit := emit (EvSleep seconds).

(** [ws = websocket.WebSocket(); ws.connect(ws_url)] *)
Definition ws_connect : M unit :=
  fun w =>
    let ok := accepts svc (trace w) (CLIENT_ID svc) in
    (if ok then Ok tt else Raise WebSocketException,
     {| files := files w; probes := probes w;
        inbox := inbox w; trace := trace w ++ [EvConnect (CLIENT_ID svc) ok] |}).

(** [ws.close()] *)
Definition ws_close : M unit := emit EvClose.

(** [urllib.request.urlopen(req).read()] for the POST to [/prompt] *)
Definition post_prompt (prompt : json) : M string :=
  fun w =>
    let reply := prompt_reply svc (trace w) prompt (CLIENT_ID svc) in
    (match reply with Some body => Ok body | None => Raise URLError end,
     {| files := files w; probes := probes w; inbox := inbox w;
        trace := trace w ++ [EvSubmit prompt (CLIENT_ID svc) reply] |}).

(** [urlopen(url).read()] for [/history/<prompt_id>] *)
Definition fetch_history (prompt_id : json) : M string :=
  fun w =>
    let reply := history_reply svc (trace w) prompt_id in
    (match reply with Some body => Ok body | None => Raise URLError end,
     {| files := files w; probes := probes w; inbox := inbox w;
        trace := trace w ++ [EvHistory prompt_id reply] |}).

(** ** COMFY HELPERS *)

(** [queue_prompt], lines 35-44 *)
Definition queue_prompt (prompt : json) : M json :=
  body <- post_prompt prompt ;;
  res <- lift (loads body) ;;
  lift (getitem res "prompt_id").

(** One turn of the loop of [wait_for_execution], lines 50-54, on the
    message just received: [Ok true] is the [return]. *)
Definition execution_done (prompt_id : json) (msg : frame) : result bool :=
  match msg with
  | Binary _ => Ok false
  | Text s =>
      data <~ loads s ;
      ty <~ getitem data "type" ;
      if py_eq ty (JStr "executing") then
        d <~ getitem data "data" ;
        node <~ getitem d "node" ;
        if is_none node then
          d' <~ getitem data "data" ;
          p <~ getitem d' "prompt_id" ;
          Ok (py_eq p prompt_id)
        else Ok false
      else Ok false
  end.

(** [wait_for_execution], lines 47-54: [while True: msg = ws.recv() ...].
    The loop runs over the frames the channel still delivers; when the
    channel closes, [recv] raises.  (A channel that stays open and says
    nothing more is not such a list: there the listener waits for ever.) *)
Fixpoint wait_loop (prompt_id : json) (msgs : list frame) (w : world)
  : result unit * world :=
  match msgs with
  | [] =>
      (Raise WebSocketException,
       {| files := files w; probes := probes w; inbox := [];
          trace := trace w ++ [EvRecv None] |})
  | msg :: rest =>
      let w1 := {| files := files w; probes := probes w; inbox := rest;
                   trace := trace w ++ [EvRecv (Some msg)] |} in
      match execution_done prompt_id msg with
      | Raise e => (Raise e, w1)
      | Ok true => (Ok tt, w1)
      | Ok false => wait_loop prompt_id rest w1
      end
  end.

Definition wait_for_execution (prompt_id : json) : M unit :=
  fun w => wait_loop prompt_id (inbox w) w.

(** [get_history], lines 57-60 *)
Definition get_history (prompt_id : json) : M json :=
  body <- fetch_history prompt_id ;;
  doc <- lift (loads body) ;;
  lift (subscript doc prompt_id).

(** [get_image], lines 63-71 *)
Definition get_image (filename subfolder folder_type : json) : M (list byte) :=
  fun w =>
    let reply := view_reply svc (trace w) filename subfolder folder_type in
    (match reply with Some raw => Ok raw | None => Raise URLError end,
     {| files := files w; probes := probes w; inbox := inbox w;
        trace := trace w ++ [EvView filename subfolder folder_type reply] |}).

(** ** HANDLER *)

(** The body of [for img in images], lines 87-92. *)
Definition save_input_image (img : json) : M unit :=
  name <- lift (getitem img "name") ;;
  image <- lift (getitem img "image") ;;
  data <- lift (Base64.b64decode image) ;;
  path <- lift (Path.join INPUT_DIR name) ;;
  write_file path data.

(** The [for ... else] of lines 95-102, with [attempts] turns left. *)
Fixpoint ensure_up (attempts : nat) : M unit :=
  match attempts with
  | O => raise (RuntimeError "ComfyUI not responding")
  | S n =>
      r <- attempt urlopen_base ;;
      match r with
      | Ok _ => ret tt
      | Raise _ => sleep 1 ;; ensure_up n
      end
  end.

(** The body of [for img in node["images"]], lines 125-133. *)
Definition collect_image (img : json) (output_images : list json)
  : M (list json) :=
  filename <- lift (getitem img "filename") ;;
  subfolder <- lift (getitem img "subfolder") ;;
  folder_type <- lift (getitem img "type") ;;
  raw <- get_image filename subfolder folder_type ;;
  name <- lift (getitem img "filename") ;;
  ret (output_images ++
       [JObj [("name", name); ("data", JStr (Base64.b64encode raw))]]).

(** The body of [for node in history["outputs"].values()], lines 122-133. *)
Definition collect_node (node : json) (output_images : list json)
  : M (list json) :=
  has <- lift (contains node "images") ;;
  if negb has then ret output_images
  else
    imgs <- lift (getitem node "images") ;;
    imgs <- lift (iter imgs) ;;
    for_in imgs collect_image output_images.

Definition NO_IMAGES : json := JObj [("error", JStr "No images generated")].

(** [handler], lines 76-116: from the job to the history record. *)
Definition run_prompt (job : json) : M json :=
  job_input <- lift (getitem job "input") ;;
  workflow <- lift (getitem job_input "workflow") ;;
  images <- lift (dict_get_default job_input "images" (JArr [])) ;;
  _ <- lift (len workflow) ;;
  _ <- lift (len images) ;;
  (* ---- save input images ---- *)
  imgs <- lift (iter images) ;;
  for_in imgs (fun img _ => save_input_image img) tt ;;
  (* ---- ensure ComfyUI is up ---- *)
  ensure_up 120 ;;
  (* ---- websocket ---- *)
  ws_connect ;;
  (* ---- queue ---- *)
  prompt_id <- queue_prompt workflow ;;
  wait_for_execution prompt_id ;;
  ws_close ;;
  get_history prompt_id.

(** [handler], lines 118-140: from the history record to the result. *)
Definition collect_outputs (history : json) : M json :=
  (* ---- collect images ---- *)
  outputs <- lift (getitem history "outputs") ;;
  nodes <- lift (values outputs) ;;
  output_images <- for_in nodes collect_node [] ;;
  match output_images with
  | [] => ret NO_IMAGES
  | _ => ret (JObj [("images", JArr output_images)])
  end.

(** [handler], lines 75-140 *)
Definition handler (job : json) : M json :=
  history <- run_prompt job ;;
  collect_outputs history.

End Handler.

End Comfy.

(* ================================================================== *)
(** * A decoder for the examples                                       *)
(* ================================================================== *)

(** The theorems hold for every decoder [json_loads].  The examples need
    one that runs: this is [json.loads] on the documents made of objects,
    arrays, strings without escapes, integers, [true], [false] and
    [null].  On a document it accepts it yields what [json.loads] yields;
    fractions, exponents and escapes are left out (it answers [None]), so
    the examples stay clear of them. *)
Module Decoder.

Import Py.

Definition quote : ascii := "034"%char.

(** ["..."] as it stands in a JSON document. *)
Definition q (s : string) : string :=
  String quote (s ++ String quote EmptyString).

Definition is_ws (c : ascii) : bool :=
  let n := N_of_ascii c in
  ((n =? 32) || (n =? 9) || (n =? 10) || (n =? 13))%N.

Definition is_digit (c : ascii) : bool :=
  let n := N_of_ascii c in ((48 <=? n) && (n <=? 57))%N.

Fixpoint skip_ws (s : string) : string :=
  match s with
  | String c r => if is_ws c then skip_ws r else s
  | EmptyString => s
  end.

Fixpoint drop (n : nat) (s : string) : string :=
  match n, s with
  | S n', String _ r => drop n' r
  | _, _ => s
  end.

(** After the opening quote: plain characters up to the closing quote. *)
Fixpoint string_body (s : string) : option (string * string) :=
  match s with
  | EmptyString => None
  | String c r =>
      if Ascii.eqb c quote then Some (EmptyString, r)
      else if (Ascii.eqb c "\"%char || (N_of_ascii c <? 32)%N)%bool then None
      else match string_body r with
           | Some (t, r') => Some (String c t, r')
           | None => None
           end
  end.

Fixpoint digits (s : string) (acc : Z) : Z * string :=
  match s with
  | String c r =>
      if is_digit c then digits r (acc * 10 + (Z.of_N (N_of_ascii c) - 48))
      else (acc, s)
  | EmptyString => (acc, s)
  end.

(** An optional minus sign, then 0 or a digit string without a leading
    zero, not followed by a fraction or an exponent. *)
Definition integer (s : string) : option (Z * string) :=
  let (neg, s1) :=
    match s with
    | String c r => if Ascii.eqb c "-"%char then (true, r) else (false, s)
    | EmptyString => (false, s)
    end in
  match s1 with
  | String c r =>
      if is_digit c then
        let (n, rest) :=
          if Ascii.eqb c "0"%char then (0, r) else digits s1 0 in
        match rest with
        | String c' _ =>
            if (Ascii.eqb c' "."%char || Ascii.eqb c' "e"%char
                || Ascii.eqb c' "E"%char)%bool
            then None
            else Some (if neg then - n else n, rest)
        | EmptyString => Some (if neg then - n else n, rest)
        end
      else None
  | EmptyString => None
  end.

Fixpoint value (fuel : nat) (s : string) {struct fuel} : option (json * string) :=
  match fuel with
  | O => None
  | S fuel' =>
      match s with
      | EmptyString => None
      | String c r =>
          if Ascii.eqb c quote then
            match string_body r with
            | Some (t, r') => Some (JStr t, r')
            | None => None
            end
          else if Ascii.eqb c "["%char then
            match skip_ws r with
            | String "]"%char r' => Some (JArr [], r')
            | r' => match items fuel' r' [] with
                    | Some (l, r'') => Some (JArr l, r'')
                    | None => None
                    end
            end
          else if Ascii.eqb c "{"%char then
            match skip_ws r with
            | String "}"%char r' => Some (JObj [], r')
            | r' => match fields fuel' r' [] with
                    | Some (d, r'') => Some (JObj d, r'')
                    | None => None
                    end
            end
          else if String.prefix "null" s then Some (JNull, drop 4 s)
          else if String.prefix "true" s then Some (JBool true, drop 4 s)
          else if String.prefix "false" s then Some (JBool false, drop 5 s)
          else match integer s with
               | Some (n, r') => Some (JInt n, r')
               | None => None
               end
      end
  end
with items (fuel : nat) (s : string) (acc : list json) {struct fuel}
  : option (list json * string) :=
  match fuel with
  | O => None
  | S fuel' =>
      match value fuel' s with
      | Some (v, r) =>
          match skip_ws r with
          | String ","%char r' => items fuel' (skip_ws r') (acc ++ [v])
          | String "]"%char r' => Some (acc ++ [v], r')
          | _ => None
          end
      | None => None
      end
  end
with fields (fuel : nat) (s : string) (acc : list (string * json)) {struct fuel}
  : option (list (string * json) * string) :=
  match fuel with
  | O => None
  | S fuel' =>
      match s with
      | String c r =>
          if Ascii.eqb c quote then
            match string_body r with
            | Some (k, r1) =>
                match skip_ws r1 with
                | String ":"%char r2 =>
                    match value fuel' (skip_ws r2) with
                    | Some (v, r3) =>
                        match skip_ws r3 with
                        | String ","%char r4 =>
                            fields fuel' (skip_ws r4) (dict_set k v acc)
                        | String "}"%char r4 => Some (dict_set k v acc, r4)
                        | _ => None
                        end
                    | None => None
                    end
                | _ => None
                end
            | None => None
            end
          else None
      | EmptyString => None
      end
  end.

Definition loads (s : string) : option json :=
  match value (S (String.length s)) (skip_ws s) with
  | Some (v, r) =>
      match skip_ws r with
      | EmptyString => Some v
      | _ => None
      end
  | None => None
  end.

End Decoder.

(* ================================================================== *)
(** * The notions of the specification                                 *)
(* ================================================================== *)

Module Spec.

Import Comfy.

(** What [recv] leaves in the trace for the messages [msgs]. *)
Definition received (msgs : list frame) : list event :=
  map (fun m => EvRecv (Some m)) msgs.

(** [k] failed liveness requests, each followed by its one-second wait. *)
Definition failed_attempts (k : nat) : list event :=
  concat (repeat [EvProbe false; EvSleep 1] k).

Section Listener.

Variable svc : service.

(** The terminal completion signal for [prompt_id]: a text message whose
    document has type "executing", a null [data.node] and a
    [data.prompt_id] equal ([==]) to the tracked identifier. *)
Definition completion_signal (prompt_id : json) (msg : frame) : Prop :=
  exists s data d p,
    msg = Text s /\ json_loads svc s = Some data /\
    getitem data "type" = Ok (JStr "executing") /\
    getitem data "data" = Ok d /\
    getitem d "node" = Ok JNull /\
    getitem d "prompt_id" = Ok p /\ py_eq p prompt_id = true.

(** The messages the listener passes over: binary ones, events of another
    type, "executing" events that name a node, and "executing" events for
    another job. *)
Inductive ignored (prompt_id : json) : frame -> Prop :=
| ignored_binary b :
    ignored prompt_id (Binary b)
| ignored_other_type s data ty :
    json_loads svc s = Some data ->
    getitem data "type" = Ok ty ->
    ty <> JStr "executing" ->
    ignored prompt_id (Text s)
| ignored_node s data d node :
    json_loads svc s = Some data ->
    getitem data "type" = Ok (JStr "executing") ->
    getitem data "data" = Ok d ->
    getitem d "node" = Ok node ->
    node <> JNull ->
    ignored prompt_id (Text s)
| ignored_other_job s data d p :
    json_loads svc s = Some data ->
    getitem data "type" = Ok (JStr "executing") ->
    getitem data "data" = Ok d ->
    getitem d "node" = Ok JNull ->
    getitem d "prompt_id" = Ok p ->
    py_eq p prompt_id = false ->
    ignored prompt_id (Text s).

End Listener.

(** The world after further effects that leave files, probes and inbox
    alone. *)
Definition extend (w : world) (evs : list event) : world :=
  {| files := files w; probes := probes w; inbox := inbox w;
     trace := trace w ++ evs |}.

(** ** The stages of an invocation *)

(** Where an invocation stands, as its effects show it.  The order is the
    handler's own: inputs are saved while [Idle]; the liveness requests
    follow; the websocket is opened once the server answers ([Ready] to
    [Connected]); only then is the workflow submitted ([Connected] to
    [AwaitingCompletion]); the channel is closed before the history is
    read and the artifacts are collected. *)
Inductive stage : Type :=
| Idle                  (* saving the input images *)
| AwaitingReadiness     (* between two liveness requests *)
| Backoff               (* a liveness request failed, the sleep is due *)
| Ready                 (* the server answered *)
| Connected             (* websocket open, nothing submitted yet *)
| AwaitingCompletion    (* workflow submitted, listening *)
| Completed             (* websocket closed *)
| CollectingArtifacts   (* history read, fetching the images *)
| Failed.               (* an effect failed: nothing follows *)

Definition step (client_id : string) (st : stage) (e : event) : option stage :=
  match st, e with
  | Idle, EvWrite _ _ => Some Idle
  | Idle, EvOpenFailed _ => Some Failed
  | Idle, EvProbe up | AwaitingReadiness, EvProbe up =>
      Some (if up then Ready else Backoff)
  | Backoff, EvSleep 1 => Some AwaitingReadiness
  | Ready, EvConnect c ok =>
      if String.eqb c client_id
      then Some (if ok then Connected else Failed) else None
  | Connected, EvSubmit _ c reply =>
      if String.eqb c client_id
      then Some (match reply with Some _ => AwaitingCompletion | None => Failed end)
      else None
  | AwaitingCompletion, EvRecv (Some _) => Some AwaitingCompletion
  | AwaitingCompletion, EvRecv None => Some Failed
  | AwaitingCompletion, EvClose => Some Completed
  | Completed, EvHistory _ reply =>
      Some (match reply with Some _ => CollectingArtifacts | None => Failed end)
  | CollectingArtifacts, EvView _ _ _ reply =>
      Some (match reply with Some _ => CollectingArtifacts | None => Failed end)
  | _, _ => None
  end.

Fixpoint run (client_id : string) (st : stage) (evs : list event) : option stage :=
  match evs with
  | [] => Some st
  | e :: evs' =>
      match step client_id st e with
      | Some st' => run client_id st' evs'
      | None => None
      end
  end.

Definition is_write (e : event) : bool :=
  match e with EvWrite _ _ | EvOpenFailed _ => true | _ => false end.

Definition is_probe_or_sleep (e : event) : bool :=
  match e with EvProbe _ | EvSleep _ => true | _ => false end.

(** From [Ready] on there is no way back to the liveness requests. *)
Definition past_readiness (s : stage) : bool :=
  match s with
  | Idle | AwaitingReadiness | Backoff => false
  | _ => true
  end.

(** "Submission precedes the opening of the push channel", said of the
    effects of a run. *)
Definition submission_precedes_connection (evs : list event) : Prop :=
  forall i j prompt c reply c' ok,
    evs !! i = Some (EvSubmit prompt c reply) ->
    evs !! j = Some (EvConnect c' ok) ->
    (i < j)%nat.

(** ** Input images *)

(** [named]: the caller's images as (name, payload) pairs. *)
Definition input_image (img : json) (named : string * list byte) : Prop :=
  getitem img "name" = Ok (JStr (fst named)) /\
  exists image, getitem img "image" = Ok image /\
                Base64.b64decode image = Ok (snd named).

Definition input_path (name : string) : string := Path.join_str INPUT_DIR name.

Definition written (named : list (string * list byte)) : list event :=
  map (fun nd => EvWrite (input_path (fst nd)) (snd nd)) named.

(** The files after the images were saved, later ones over earlier ones
    and over what was there. *)
Definition persist (named : list (string * list byte))
    (fs : gmap string (list byte)) : gmap string (list byte) :=
  fold_left (fun fs nd => <[input_path (fst nd) := snd nd]> fs) named fs.

(** ** The disk, by location *)

(** Where a path leads: [/input/a.png] and [/input/./a.png], or
    [/input/../x] and [/x], are two spellings of one location. *)
Definition location (path : string) : list string := Path.components path.

Fixpoint same_location (a b : list string) : bool :=
  match a, b with
  | [], [] => true
  | x :: a', y :: b' => String.eqb x y && same_location a' b'
  | _, _ => false
  end.

(** What the effect [e] writes at the location [loc], if it writes there. *)
Definition write_to (loc : list string) (e : event) : option (list byte) :=
  match e with
  | EvWrite path data =>
      if same_location (location path) loc then Some data else None
  | _ => None
  end.

(** What the effects [evs] leave at the location [loc]: the payload of the
    last write whose path leads there; [None] when no write does, and the
    location holds what it held before. *)
Fixpoint last_written (loc : list string) (evs : list event)
  : option (list byte) :=
  match evs with
  | [] => None
  | e :: evs' =>
      match last_written loc evs' with
      | Some data => Some data
      | None => write_to loc e
      end
  end.

(** ** History records and artifact references *)

(** The coordinates of an artifact: filename, subfolder, type. *)
Definition reference : Type := json * json * json.

Definition filename (r : reference) : json := fst (fst r).

Fixpoint all_some {A B} (f : A -> option B) (l : list A) : option (list B) :=
  match l with
  | [] => Some []
  | x :: l' =>
      match f x, all_some f l' with
      | Some y, Some ys => Some (y :: ys)
      | _, _ => None
      end
  end.

Definition image_ref (img : json) : option reference :=
  match getitem img "filename", getitem img "subfolder", getitem img "type" with
  | Ok f, Ok s, Ok t => Some (f, s, t)
  | _, _, _ => None
  end.

(** The references of one output node: those of its "images" list, none
    when it has no such key. *)
Definition node_refs (node : json) : option (list reference) :=
  match node with
  | JObj d =>
      match dict_get "images" d with
      | None => Some []
      | Some (JArr imgs) => all_some image_ref imgs
      | Some _ => None
      end
  | _ => None
  end.

(** The references of a history record [{"outputs": {node_id: {"images"?:
    [...]}}}], node after node, in the order of the record; [None] when
    the record has another shape. *)
Definition history_refs (history : json) : option (list reference) :=
  match getitem history "outputs" with
  | Ok (JObj nodes) =>
      match all_some (fun kv => node_refs (snd kv)) nodes with
      | Some rs => Some (concat rs)
      | None => None
      end
  | _ => None
  end.

Definition view_ok (r : reference) (raw : list byte) : event :=
  EvView (fst (fst r)) (snd (fst r)) (snd r) (Some raw).

Definition entry (r : reference) (raw : list byte) : json :=
  JObj [("name", filename r); ("data", JStr (Base64.b64encode raw))].

Definition result_of (entries : list json) : json :=
  match entries with
  | [] => NO_IMAGES
  | _ => JObj [("images", JArr entries)]
  end.

Section Service.

Variable svc : service.

(** Every open succeeds, each at the moment it is made. *)
Fixpoint openable (tr : list event) (named : list (string * list byte)) : Prop :=
  match named with
  | [] => True
  | nd :: named' =>
      can_open svc tr (input_path (fst nd)) = true /\
      openable (tr ++ [EvWrite (input_path (fst nd)) (snd nd)]) named'
  end.

(** Every retrieval succeeds, each at the moment it is made; [raws] are
    the bytes fetched. *)
Fixpoint fetches (tr : list event) (refs : list reference)
    (raws : list (list byte)) : Prop :=
  match refs, raws with
  | [], [] => True
  | r :: refs', raw :: raws' =>
      view_reply svc tr (fst (fst r)) (snd (fst r)) (snd r) = Some raw /\
      fetches (tr ++ [view_ok r raw]) refs' raws'
  | _, _ => False
  end.

(** [m], started at stage [s], leaves effects the stages admit, ends at
    stage [s'] when it returns, and does not touch the files once the
    saving is over. *)
Definition moves {A} (m : M A) (s s' : stage) : Prop :=
  forall w r w',
    m w = (r, w') ->
    exists evs st,
      trace w' = trace w ++ evs /\
      run (CLIENT_ID svc) s evs = Some st /\
      (is_ok r = true -> st = s') /\
      (s <> Idle -> files w' = files w).

End Service.

End Spec.

(* ================================================================== *)
(** * A worked invocation                                              *)
(* ================================================================== *)

(** One job against a scripted server, used by the examples below: the
    job brings one input image, the server is down at the first liveness
    request, queues the workflow as "p-1", reports progress and then
    completion, and its history names one output image, which it serves
    as a copy of the saved input. *)
Module Demo.

Import Comfy Spec.
Local Open Scope string_scope.

Definition q := Decoder.q.

(** [{"prompt_id": "<id>"}] *)
Definition prompt_body (id : string) : string :=
  "{" ++ q "prompt_id" ++ ": " ++ q id ++ "}".

(** [{"type": "executing", "data": {"node": <node>, "prompt_id": "<id>"}}] *)
Definition executing (node : string) (id : string) : string :=
  "{" ++ q "type" ++ ": " ++ q "executing" ++ ", " ++ q "data" ++ ": {"
  ++ q "node" ++ ": " ++ node ++ ", " ++ q "prompt_id" ++ ": " ++ q id ++ "}}".

(** [{"type": "status", "data": {"status": {"exec_info": {"queue_remaining": 1}}}}] *)
Definition status : string :=
  "{" ++ q "type" ++ ": " ++ q "status" ++ ", " ++ q "data" ++ ": {"
  ++ q "status" ++ ": {" ++ q "exec_info" ++ ": {" ++ q "queue_remaining"
  ++ ": 1}}}}".

(** [{"<id>": {"outputs": {"9": {"images": [{"filename": "out.png",
    "subfolder": "", "type": "output"}]}, "12": {"text": [1]}}}}] *)
Definition history_body (id : string) : string :=
  "{" ++ q id ++ ": {" ++ q "outputs" ++ ": {" ++ q "9" ++ ": {" ++ q "images"
  ++ ": [{" ++ q "filename" ++ ": " ++ q "out.png" ++ ", " ++ q "subfolder"
  ++ ": " ++ q "" ++ ", " ++ q "type" ++ ": " ++ q "output" ++ "}]}, "
  ++ q "12" ++ ": {" ++ q "text" ++ ": [1]}}}}".

(** [{"<id>": {"outputs": {"12": {"text": [1]}, "9": {"images": []}}}}] *)
Definition empty_history_body (id : string) : string :=
  "{" ++ q id ++ ": {" ++ q "outputs" ++ ": {" ++ q "12" ++ ": {" ++ q "text"
  ++ ": [1]}, " ++ q "9" ++ ": {" ++ q "images" ++ ": []}}}}".

(** The bytes last written to [path], as the trace tells. *)
Fixpoint last_write (path : string) (tr : list event) : option (list byte) :=
  match tr with
  | [] => None
  | e :: tr' =>
      match last_write path tr' with
      | Some data => Some data
      | None =>
          match e with
          | EvWrite p data => if String.eqb p path then Some data else None
          | _ => None
          end
      end
  end.

(** The server: accepts the connection when [accepting], answers the
    submission with the identifier [id], the history request with
    [history], and serves any artifact as a copy of [/input/in.png]. *)
Definition server (accepting : bool) (id : string) (history : string) : service :=
  {| json_loads := Decoder.loads;
     CLIENT_ID := "c0ffee";
     can_open := fun _ _ => true;
     accepts := fun _ _ => accepting;
     prompt_reply := fun _ _ _ => Some (prompt_body id);
     history_reply := fun _ _ => Some history;
     view_reply := fun tr _ _ _ => last_write "/input/in.png" tr |}.

Definition svc : service := server true "p-1" (history_body "p-1").

Definition workflow : json :=
  JObj [("3", JObj [("class_type", JStr "LoadImage");
                    ("inputs", JObj [("image", JStr "in.png")])])].

(** The payload "foo" as base64. *)
Definition image : json :=
  JObj [("name", JStr "in.png"); ("image", JStr "Zm9v")].

Definition job : json :=
  JObj [("id", JStr "job-1");
        ("input", JObj [("workflow", workflow); ("images", JArr [image])])].

Definition job_without_images : json :=
  JObj [("id", JStr "job-2"); ("input", JObj [("workflow", workflow)])].

Definition frames : list frame :=
  [Binary [x01; x02];
   Text status;
   Text (executing (q "3") "p-1");
   Text (executing "null" "p-0");
   Text (executing "null" "p-1");
   Text status].

Definition world0 : world :=
  {| files := ∅; probes := [false; true]; inbox := frames; trace := [] |}.

(** The record behind [history_body], and the other one. *)
Definition history : json :=
  JObj [("outputs",
         JObj [("9", JObj [("images",
                            JArr [JObj [("filename", JStr "out.png");
                                        ("subfolder", JStr "");
                                        ("type", JStr "output")]])]);
               ("12", JObj [("text", JArr [JInt 1])])])].

Definition empty_history : json :=
  JObj [("outputs",
         JObj [("12", JObj [("text", JArr [JInt 1])]);
               ("9", JObj [("images", JArr [])])])].

Definition out_png : reference := (JStr "out.png", JStr "", JStr "output").

Definition foo : list byte := [x66; x6f; x6f].

(** Variations: a history without images, a server that refuses the
    websocket, a server that hands out the empty string as identifier. *)
Definition svc_empty : service := server true "p-1" (empty_history_body "p-1").

Definition svc_refusing : service := server false "p-1" (history_body "p-1").

Definition svc_blank : service := server true "" (history_body "").

Definition world_blank : world :=
  {| files := ∅; probes := [true];
     inbox := [Text (executing "null" "")]; trace := [] |}.

(** An image whose name climbs out of the input directory. *)
Definition climbing_image : json :=
  JObj [("name", JStr "../etc/passwd"); ("image", JStr "Zm9v")].

(** Where the runs stand when the history has been read. *)
Definition after_run : world := snd (run_prompt svc job world0).

Definition after_empty_run : world :=
  snd (run_prompt svc_empty job_without_images world0).

End Demo.

(* ================================================================== *)
(** * What a run leaves behind                                         *)
(* ================================================================== *)

(** Notions for the properties of whole runs, whatever their outcome. *)
Module Effects.

Import Comfy Spec.

(** What one effect does to the files. *)
Definition apply_write (fs : gmap string (list byte)) (e : event)
  : gmap string (list byte) :=
  match e with
  | EvWrite path data => <[path := data]> fs
  | _ => fs
  end.

Definition replay (evs : list event) (fs : gmap string (list byte))
  : gmap string (list byte) :=
  fold_left apply_write evs fs.

(** Every effect of [m] satisfies [P], and the files change by the writes
    among the effects and by nothing else. *)
Definition emits {A} (P : event -> Prop) (m : M A) : Prop :=
  forall w r w',
    m w = (r, w') ->
    exists evs,
      trace w' = trace w ++ evs /\ Forall P evs /\
      files w' = replay evs (files w).

Definition is_runtime_error (e : exn) : bool :=
  match e with RuntimeError _ => true | _ => false end.

(** [m] never raises a [RuntimeError]. *)
Definition quiet {A} (m : M A) : Prop :=
  forall w e w', m w = (Raise e, w') -> is_runtime_error e = false.

(** How far a stage is along the run. *)
Definition rank (s : stage) : nat :=
  match s with
  | Idle => 0
  | AwaitingReadiness | Backoff => 1
  | Ready => 2
  | Connected => 3
  | AwaitingCompletion => 4
  | Completed => 5
  | CollectingArtifacts => 6
  | Failed => 7
  end.

(** The effects a run makes at most once, numbered in their order:
    connect, submit, close, history. *)
Definition single (e : event) : option nat :=
  match e with
  | EvConnect _ _ => Some 0%nat
  | EvSubmit _ _ _ => Some 1%nat
  | EvClose => Some 2%nat
  | EvHistory _ _ => Some 3%nat
  | _ => None
  end.

Definition is_probe (e : event) : bool :=
  match e with EvProbe _ => true | _ => false end.

Definition is_sleep (e : event) : bool :=
  match e with EvSleep _ => true | _ => false end.

Definition is_view (e : event) : bool :=
  match e with EvView _ _ _ _ => true | _ => false end.

Definition is_failed_probe (e : event) : bool :=
  match e with EvProbe false => true | _ => false end.

Definition is_close (e : event) : bool :=
  match e with EvClose => true | _ => false end.

(** The websocket was opened. *)
Definition is_open (e : event) : bool :=
  match e with EvConnect _ true => true | _ => false end.

(** The effects made while the websocket is open and not yet closed. *)
Definition awaiting (e : event) : bool :=
  match e with EvSubmit _ _ _ | EvRecv _ => true | _ => false end.

(** The liveness requests among the effects, and those that failed. *)
Definition requests (evs : list event) : nat :=
  length (List.filter is_probe evs).

Definition failures (evs : list event) : nat :=
  length (List.filter is_failed_probe evs).

(** The seconds slept. *)
Definition slept (evs : list event) : Z :=
  fold_right (fun e acc => match e with EvSleep s => s + acc | _ => acc end) 0 evs.

(** The result entries that the retrievals among [evs] give rise to. *)
Definition entries_of (evs : list event) : list json :=
  flat_map (fun e =>
              match e with
              | EvView f _ _ (Some raw) =>
                  [JObj [("name", f); ("data", JStr (Base64.b64encode raw))]]
              | _ => []
              end) evs.

(** The job can be read: it has an input with a workflow, workflow and
    images can be measured, and the images are [imgs]. *)
Definition prepared (job workflow : json) (imgs : list json) : Prop :=
  exists job_input images n m,
    getitem job "input" = Ok job_input /\
    getitem job_input "workflow" = Ok workflow /\
    dict_get_default job_input "images" (JArr []) = Ok images /\
    len workflow = Ok n /\ len images = Ok m /\
    iter images = Ok imgs.

Section Job.

Variable svc : service.
Variable workflow : json.
Variable imgs : list json.

(** What the effects of a run on this job look like, one by one. *)
Definition expected (e : event) : Prop :=
  match e with
  | EvWrite path _ | EvOpenFailed path =>
      exists img name,
        In img imgs /\ getitem img "name" = Ok (JStr name) /\
        path = Path.join_str INPUT_DIR name
  | EvSleep seconds => seconds = 1
  | EvConnect c _ => c = CLIENT_ID svc
  | EvSubmit prompt c _ => prompt = workflow /\ c = CLIENT_ID svc
  | _ => True
  end.

End Job.

(** ** The effects of a run that goes well, step by step *)

Section Course.

Variable svc : service.
Variable workflow : json.
Variable named : list (string * list byte).
Variable k : nat.

(** The images are saved, [k] liveness requests fail and the next one is
    answered. *)
Definition upto_ready : list event :=
  written named ++ failed_attempts k ++ [EvProbe true].

Definition upto_connected : list event :=
  upto_ready ++ [EvConnect (CLIENT_ID svc) true].

(** The submission is answered with [body]. *)
Definition upto_submitted (body : string) : list event :=
  upto_connected ++ [EvSubmit workflow (CLIENT_ID svc) (Some body)].

(** The messages [msgs] are read, the last of them the completion signal,
    and the websocket is closed. *)
Definition upto_closed (body : string) (msgs : list frame) : list event :=
  upto_submitted body ++ received msgs ++ [EvClose].

End Course.

(** A character that is neither of the base64 alphabet nor the padding
    character, and a text without such characters. *)
Definition outside_alphabet (c : ascii) : bool :=
  negb (Ascii.eqb c Base64.PAD) &&
  match Base64.a2b c with None => true | Some _ => false end.

Fixpoint significant (s : string) : string :=
  match s with
  | EmptyString => EmptyString
  | String c rest =>
      if outside_alphabet c then significant rest
      else String c (significant rest)
  end.

(** A text message the listener cannot get through: it is no JSON
    document, or a field the listener reads is not there.  [e] is the
    exception this ends with. *)
Definition malformed (svc : service) (s : string) (e : exn) : Prop :=
  (json_loads svc s = None /\ e = JSONDecodeError) \/
  exists data,
    json_loads svc s = Some data /\
    (getitem data "type" = Raise e \/
     (getitem data "type" = Ok (JStr "executing") /\
      (getitem data "data" = Raise e \/
       exists d,
         getitem data "data" = Ok d /\
         (getitem d "node" = Raise e \/
          (getitem d "node" = Ok JNull /\
           getitem d "prompt_id" = Raise e))))).

(** What [queue_prompt] makes of the reply to the submission, and
    [get_history] of the reply to the history request. *)
Definition queued (svc : service) (reply : option string) : result json :=
  match reply with
  | None => Raise URLError
  | Some body => res <~ loads svc body ; getitem res "prompt_id"
  end.

Definition recorded (svc : service) (prompt_id : json) (reply : option string)
  : result json :=
  match reply with
  | None => Raise URLError
  | Some body => doc <~ loads svc body ; subscript doc prompt_id
  end.

End Effects.

(* ================================================================== *)
(** * Further invocations                                              *)
(* ================================================================== *)

(** Jobs, servers and worlds for the examples of the properties of whole
    runs: variations on the invocation of [Demo]. *)
Module Cases.

Import Comfy Spec Effects.
Local Open Scope string_scope.

Definition q := Decoder.q.

(** The invocation of [Demo], run. *)
Definition run : result json * world := handler Demo.svc Demo.job Demo.world0.

(** A job whose input has no workflow. *)
Definition job_without_workflow : json :=
  JObj [("id", JStr "job-3"); ("input", JObj [("images", JArr [Demo.image])])].

(** An image whose payload is cut short, in a job that brings it between
    two good ones. *)
Definition broken_image : json :=
  JObj [("name", JStr "cut.png"); ("image", JStr "Zg=")].

Definition job_with_broken_image : json :=
  JObj [("id", JStr "job-4");
        ("input", JObj [("workflow", Demo.workflow);
                        ("images", JArr [Demo.image; broken_image; Demo.image])])].

(** The image of [Demo] with a blank in its payload. *)
Definition spaced_image : json :=
  JObj [("name", JStr "in.png"); ("image", JStr "Zm 9v")].


(** A channel that closes before the completion signal, and one that
    delivers a message that is no JSON document. *)
Definition world_cut : world :=
  {| files := ∅; probes := [true];
     inbox := [Binary [x01]; Text Demo.status]; trace := [] |}.

Definition world_garbled : world :=
  {| files := ∅; probes := [true];
     inbox := [Binary [x01]; Text "pong"; Text (Demo.executing "null" "p-1")];
     trace := [] |}.

(** A server whose history knows another prompt only. *)
Definition svc_forgetful : service :=
  Demo.server true "p-1" (Demo.history_body "p-2").

(** A server that answers the submission with a report of errors:
    [{"error": "invalid prompt"}]. *)
Definition error_body : string :=
  "{" ++ q "error" ++ ": " ++ q "invalid prompt" ++ "}".

Definition svc_rejecting : service :=
  {| json_loads := Decoder.loads;
     CLIENT_ID := "c0ffee";
     can_open := fun _ _ => true;
     accepts := fun _ _ => true;
     prompt_reply := fun _ _ _ => Some error_body;
     history_reply := fun _ _ => None;
     view_reply := fun _ _ _ _ => None |}.

(** The world of a second run, on the files the first one left. *)
Definition world_again : world :=
  {| files := files (snd run); probes := [true]; inbox := Demo.frames;
     trace := [] |}.

(** A file that is none of the job's. *)
Definition world_with_notes : world :=
  {| files := {["/input/notes.txt" := [x68; x69]]}; probes := [true];
     inbox := Demo.frames; trace := [] |}.

End Cases.

(* ================================================================== *)
(** * Theorems                                                         *)
(* ================================================================== *)

Import Py Comfy Spec.
Local Open Scope comfy_scope.

(** ** The definitions on small inputs *)

Example b64encode_foobar :
  Base64.b64encode [x66; x6f; x6f; x62; x61; x72] = "Zm9vYmFy"%string.
Proof. reflexivity. Qed.

Example b64encode_one_byte : Base64.b64encode [x66] = "Zg=="%string.
Proof. reflexivity. Qed.

Example b64encode_two_bytes : Base64.b64encode [x66; x6f] = "Zm8="%string.
Proof. reflexivity. Qed.

Example b64decode_foo : Base64.b64decode (JStr "Zm9v") = Ok [x66; x6f; x6f].
Proof. reflexivity. Qed.

Example b64decode_skips_foreign_characters :
  Base64.b64decode (JStr "Zm 9v!") = Ok [x66; x6f; x6f].
Proof. reflexivity. Qed.

Example b64decode_stops_at_padding :
  Base64.b64decode (JStr "Zg==Zm9v") = Ok [x66].
Proof. reflexivity. Qed.

Example b64decode_incorrect_padding :
  Base64.b64decode (JStr "Zg=") = Raise BinasciiError.
Proof. reflexivity. Qed.

Example b64decode_not_a_str : Base64.b64decode (JInt 5) = Raise TypeError.
Proof. reflexivity. Qed.

Example join_relative : Path.join_str "/input" "a.png" = "/input/a.png"%string.
Proof. reflexivity. Qed.

Example join_absolute : Path.join_str "/input" "/etc/passwd" = "/etc/passwd"%string.
Proof. reflexivity. Qed.

Example join_empty : Path.join_str "/input" "" = "/input/"%string.
Proof. reflexivity. Qed.

Example join_not_a_str : Path.join "/input" (JInt 1) = Raise TypeError.
Proof. reflexivity. Qed.

Example components_dotdot :
  Path.components "/input/a/../b/./c.png" = ["input"; "b"; "c.png"]%string.
Proof. reflexivity. Qed.

Example py_eq_bool_int : py_eq (JBool true) (JInt 1) = true.
Proof. reflexivity. Qed.

Example py_eq_int_float : py_eq (JInt 3) (JFloat 3) = true.
Proof. reflexivity. Qed.

Example py_eq_str_int : py_eq (JStr "1") (JInt 1) = false.
Proof. reflexivity. Qed.

Example len_counts_code_points : len (JStr "né") = Ok 2%nat.
Proof. reflexivity. Qed.

Example iter_visits_code_points : iter (JStr "né") = Ok [JStr "n"; JStr "é"].
Proof. reflexivity. Qed.

Example subscript_code_point : subscript (JStr "né") (JInt (-1)) = Ok (JStr "é").
Proof. reflexivity. Qed.

Example len_three_byte_code_point : len (JStr "a€b") = Ok 3%nat.
Proof. reflexivity. Qed.

Example location_of_two_spellings :
  location "/input/./a.png" = location "/input/a.png" /\
  location "/input/../etc/passwd" = location "/etc/passwd".
Proof. split; reflexivity. Qed.

Example last_written_by_location :
  last_written (location "/input/a.png")
    [EvWrite "/input/a.png" [x66]; EvWrite "/input/./a.png" [x62];
     EvWrite "/input/b.png" [x6f]] = Some [x62].
Proof. reflexivity. Qed.

Example subscript_from_the_end :
  subscript (JArr [JInt 1; JInt 2]) (JInt (-1)) = Ok (JInt 2).
Proof. reflexivity. Qed.

Example subscript_other_key :
  subscript (JObj [("a", JInt 1)]) (JInt 0) = Raise (KeyError (JInt 0)).
Proof. reflexivity. Qed.

Example contains_substring : contains (JStr "my images") "images" = Ok true.
Proof. reflexivity. Qed.

Example loads_completion_signal :
  Decoder.loads (Demo.executing "null" "p-1") =
  Some (JObj [("type", JStr "executing");
              ("data", JObj [("node", JNull); ("prompt_id", JStr "p-1")])]).
Proof. reflexivity. Qed.

Example loads_last_key_wins :
  Decoder.loads ("{" ++ Decoder.q "a" ++ ": 1, " ++ Decoder.q "b" ++ ": 2, "
                 ++ Decoder.q "a" ++ ": 3}")%string =
  Some (JObj [("a", JInt 3); ("b", JInt 2)]).
Proof. reflexivity. Qed.

Example loads_rejects_trailing_text : Decoder.loads "{} x" = None.
Proof. reflexivity. Qed.

Example execution_done_on_signal :
  execution_done Demo.svc (JStr "p-1") (Text (Demo.executing "null" "p-1")) = Ok true.
Proof. reflexivity. Qed.

Example execution_done_on_other_job :
  execution_done Demo.svc (JStr "p-1") (Text (Demo.executing "null" "p-0")) = Ok false.
Proof. reflexivity. Qed.

Example execution_done_on_garbage :
  execution_done Demo.svc (JStr "p-1") (Text "not json") = Raise JSONDecodeError.
Proof. reflexivity. Qed.

Example execution_done_without_node :
  execution_done Demo.svc (JStr "p-1")
    (Text ("{" ++ Decoder.q "type" ++ ": " ++ Decoder.q "executing" ++ ", "
           ++ Decoder.q "data" ++ ": {}}")%string) =
  Raise (KeyError (JStr "node")).
Proof. reflexivity. Qed.

Example handler_demo_result :
  fst (handler Demo.svc Demo.job Demo.world0) =
  Ok (JObj [("images",
             JArr [JObj [("name", JStr "out.png"); ("data", JStr "Zm9v")]])]).
Proof. vm_compute. reflexivity. Qed.

Example handler_not_a_job :
  handler Demo.svc (JArr []) Demo.world0 = (Raise TypeError, Demo.world0).
Proof. reflexivity. Qed.

(** ** Python values *)

Lemma py_eq_str (x : json) (s : string) :
  py_eq x (JStr s) = true <-> x = JStr s.
Proof.
  destruct x; simpl; split; try discriminate; intros H.
  - apply String.eqb_eq in H. now subst.
  - injection H as ->. apply String.eqb_refl.
Qed.

Lemma py_eq_str_false (x : json) (s : string) :
  py_eq x (JStr s) = false <-> x <> JStr s.
Proof.
  rewrite <- py_eq_str. destruct (py_eq x (JStr s)); split; congruence.
Qed.

Lemma is_none_true (x : json) : is_none x = true <-> x = JNull.
Proof. destruct x; simpl; split; congruence. Qed.

Lemma is_none_false (x : json) : is_none x = false <-> x <> JNull.
Proof. destruct x; simpl; split; congruence. Qed.

(** ** The completion listener *)

Section ListenerFacts.

Variable svc : service.
Variable prompt_id : json.

Lemma loads_ok (s : string) (v : json) :
  json_loads svc s = Some v -> loads svc s = Ok v.
Proof. unfold loads. now intros ->. Qed.

Lemma loads_inv (s : string) (v : json) :
  loads svc s = Ok v -> json_loads svc s = Some v.
Proof. unfold loads. destruct (json_loads svc s); congruence. Qed.

Lemma signal_done (msg : frame) :
  completion_signal svc prompt_id msg ->
  execution_done svc prompt_id msg = Ok true.
Proof.
  intros (s & data & d & p & -> & Hl & Ht & Hd & Hn & Hp & He).
  simpl. rewrite (loads_ok _ _ Hl), Ht. simpl.
  rewrite Hd, Hn. simpl. now rewrite Hp, He.
Qed.

Lemma ignored_done (msg : frame) :
  ignored svc prompt_id msg ->
  execution_done svc prompt_id msg = Ok false.
Proof.
  intros H. destruct H as [b | s data ty Hl Ht Hne | s data d node Hl Ht Hd Hn Hne
                          | s data d p Hl Ht Hd Hn Hp He]; simpl.
  - reflexivity.
  - rewrite (loads_ok _ _ Hl), Ht.
    apply py_eq_str_false in Hne. now rewrite Hne.
  - rewrite (loads_ok _ _ Hl), Ht. simpl. rewrite Hd, Hn.
    apply is_none_false in Hne. now rewrite Hne.
  - rewrite (loads_ok _ _ Hl), Ht. simpl. rewrite Hd, Hn.
    simpl. now rewrite Hp, He.
Qed.

Lemma done_inv (msg : frame) (b : bool) :
  execution_done svc prompt_id msg = Ok b ->
  if b then completion_signal svc prompt_id msg
  else ignored svc prompt_id msg.
Proof.
  destruct msg as [s | bs]; simpl.
  2:{ intros [= <-]. constructor. }
  destruct (loads svc s) as [data |] eqn:Hl; [| discriminate].
  apply loads_inv in Hl.
  destruct (getitem data "type") as [ty |] eqn:Ht; [| discriminate].
  destruct (py_eq ty (JStr "executing")) eqn:Hty.
  2:{ intros [= <-]. apply py_eq_str_false in Hty.
      eapply ignored_other_type; eauto. }
  apply py_eq_str in Hty. subst ty.
  destruct (getitem data "data") as [d |] eqn:Hd; [| discriminate].
  destruct (getitem d "node") as [node |] eqn:Hn; [| discriminate].
  destruct (is_none node) eqn:Hnode.
  2:{ intros [= <-]. apply is_none_false in Hnode.
      eapply ignored_node; eauto. }
  apply is_none_true in Hnode. subst node.
  destruct (getitem d "prompt_id") as [p |] eqn:Hp; [| discriminate].
  intros [= <-]. destruct (py_eq p prompt_id) eqn:He.
  - exists s, data, d, p. auto 10.
  - eapply ignored_other_job; eauto.
Qed.

Lemma ignored_not_signal (msg : frame) :
  ignored svc prompt_id msg -> ~ completion_signal svc prompt_id msg.
Proof.
  intros Hi Hs. apply ignored_done in Hi. apply signal_done in Hs. congruence.
Qed.

Lemma wait_loop_returns (earlier : list frame) (msg : frame) (later : list frame) :
  Forall (ignored svc prompt_id) earlier ->
  completion_signal svc prompt_id msg ->
  forall w,
    wait_loop svc prompt_id (earlier ++ msg :: later) w =
    (Ok tt, {| files := files w; probes := probes w; inbox := later;
               trace := trace w ++ received (earlier ++ [msg]) |}).
Proof.
  intros Hign Hsig. induction Hign as [| m earlier Hm _ IH]; intros w; simpl.
  - now rewrite (signal_done _ Hsig).
  - rewrite (ignored_done _ Hm), IH. simpl. now rewrite <- app_assoc.
Qed.

Lemma wait_loop_inv (msgs : list frame) :
  forall w w',
    wait_loop svc prompt_id msgs w = (Ok tt, w') ->
    exists earlier msg,
      msgs = earlier ++ msg :: inbox w' /\
      Forall (ignored svc prompt_id) earlier /\
      completion_signal svc prompt_id msg /\
      files w' = files w /\ probes w' = probes w /\
      trace w' = trace w ++ received (earlier ++ [msg]).
Proof.
  induction msgs as [| m msgs IH]; intros w w'; simpl; [discriminate |].
  destruct (execution_done svc prompt_id m) as [[|] |] eqn:Hd;
    [| | discriminate].
  - intros [= <-]. exists [], m. simpl.
    apply done_inv in Hd. auto 10.
  - intros H. apply IH in H as (earlier & msg & -> & Hi & Hs & Hf & Hp & Ht).
    exists (m :: earlier), msg. simpl in *.
    apply done_inv in Hd. rewrite Ht, <- app_assoc. auto 10.
Qed.

Lemma wait_loop_raises (earlier : list frame) (msg : frame)
    (later : list frame) (e : exn) :
  Forall (ignored svc prompt_id) earlier ->
  execution_done svc prompt_id msg = Raise e ->
  forall w,
    wait_loop svc prompt_id (earlier ++ msg :: later) w =
    (Raise e, {| files := files w; probes := probes w; inbox := later;
                 trace := trace w ++ received (earlier ++ [msg]) |}).
Proof.
  intros Hign He. induction Hign as [| m earlier Hm _ IH]; intros w; simpl.
  - now rewrite He.
  - rewrite (ignored_done _ Hm), IH. simpl. now rewrite <- app_assoc.
Qed.

Lemma wait_loop_closed (earlier : list frame) :
  Forall (ignored svc prompt_id) earlier ->
  forall w,
    wait_loop svc prompt_id earlier w =
    (Raise WebSocketException,
     {| files := files w; probes := probes w; inbox := [];
        trace := trace w ++ received earlier ++ [EvRecv None] |}).
Proof.
  induction 1 as [| m earlier Hm _ IH]; intros w; simpl.
  - reflexivity.
  - rewrite (ignored_done _ Hm), IH. simpl. now rewrite <- app_assoc.
Qed.

End ListenerFacts.

(** C1.  The completion listener returns exactly at the first completion
    signal for the tracked job: messages before it that are binary, of
    another type, "executing" with a node, or "executing" for another job
    are passed over (each is received, nothing else happens), the signal
    itself is the last message read, and whenever the listener returns it
    has done so at a completion signal with no completion signal before
    it.  (A text message that is none of these, because it does not
    decode or lacks a field the listener reads, ends the loop with that
    exception; a channel that closes first ends it with the channel's.) *)
Theorem wait_for_execution_first_signal :
  forall (svc : service) (prompt_id : json) (w : world),
    (forall earlier msg later,
        inbox w = earlier ++ msg :: later ->
        Forall (ignored svc prompt_id) earlier ->
        completion_signal svc prompt_id msg ->
        wait_for_execution svc prompt_id w =
        (Ok tt, {| files := files w; probes := probes w; inbox := later;
                   trace := trace w ++ received (earlier ++ [msg]) |}))
    /\
    (forall w',
        wait_for_execution svc prompt_id w = (Ok tt, w') ->
        exists earlier msg,
          inbox w = earlier ++ msg :: inbox w' /\
          completion_signal svc prompt_id msg /\
          Forall (fun m => ~ completion_signal svc prompt_id m) earlier /\
          Forall (ignored svc prompt_id) earlier /\
          trace w' = trace w ++ received (earlier ++ [msg]))
    /\
    (forall earlier msg later e,
        inbox w = earlier ++ msg :: later ->
        Forall (ignored svc prompt_id) earlier ->
        execution_done svc prompt_id msg = Raise e ->
        wait_for_execution svc prompt_id w =
        (Raise e, {| files := files w; probes := probes w; inbox := later;
                     trace := trace w ++ received (earlier ++ [msg]) |}))
    /\
    (Forall (ignored svc prompt_id) (inbox w) ->
     wait_for_execution svc prompt_id w =
     (Raise WebSocketException,
      {| files := files w; probes := probes w; inbox := [];
         trace := trace w ++ received (inbox w) ++ [EvRecv None] |})).
Proof.
  intros svc prompt_id w. split; [| split; [| split]].
  - intros earlier msg later Hin Hign Hsig. unfold wait_for_execution.
    rewrite Hin. now apply wait_loop_returns.
  - intros w' H. unfold wait_for_execution in H.
    apply wait_loop_inv in H as (earlier & msg & Hin & Hi & Hs & _ & _ & Ht).
    exists earlier, msg. repeat split; auto.
    eapply List.Forall_impl; [| exact Hi]. intros m. apply ignored_not_signal.
  - intros earlier msg later e Hin Hign He. unfold wait_for_execution.
    rewrite Hin. now apply wait_loop_raises.
  - intros Hign. unfold wait_for_execution.
    now apply wait_loop_closed.
Qed.

(** ** The readiness probe *)

Section ProbeFacts.

Lemma failed_attempts_S (k : nat) :
  failed_attempts (S k) = EvProbe false :: EvSleep 1 :: failed_attempts k.
Proof. reflexivity. Qed.

Lemma ensure_up_ready (n : nat) :
  forall k rest w,
    (k < n)%nat ->
    probes w = repeat false k ++ true :: rest ->
    ensure_up n w =
    (Ok tt, {| files := files w; probes := rest; inbox := inbox w;
               trace := trace w ++ failed_attempts k ++ [EvProbe true] |}).
Proof.
  induction n as [| n IH]; intros k rest w Hk Hp; [lia |].
  destruct k as [| k]; simpl in Hp.
  - simpl. unfold bind, attempt, urlopen_base. rewrite Hp. reflexivity.
  - simpl. unfold bind at 1. unfold attempt, urlopen_base. rewrite Hp. simpl.
    unfold bind, sleep, emit. simpl.
    rewrite (IH k rest); [| lia | reflexivity]. simpl.
    now rewrite <- !app_assoc.
Qed.

Lemma ensure_up_inv (n : nat) :
  forall w r w',
    ensure_up n w = (r, w') ->
    files w' = files w /\ inbox w' = inbox w /\
    ((r = Ok tt /\
      exists k, (k < n)%nat /\
        probes w = repeat false k ++ true :: probes w' /\
        trace w' = trace w ++ failed_attempts k ++ [EvProbe true])
     \/
     (r = Raise (RuntimeError "ComfyUI not responding") /\
      trace w' = trace w ++ failed_attempts n)).
Proof.
  induction n as [| n IH]; intros w r w'; simpl.
  - unfold raise. intros [= <- <-]. rewrite app_nil_r. auto.
  - unfold bind at 1. unfold attempt, urlopen_base.
    destruct (probes w) as [| [|] ps] eqn:Hp; simpl.
    + unfold bind, sleep, emit. simpl. intros H.
      apply IH in H as (Hf & Hi & H). simpl in *. rewrite Hf, Hi.
      do 2 (split; [reflexivity |]).
      destruct H as [(-> & k & Hk & Hps & Ht) | (-> & Ht)].
      * (* no outcome left: every later request fails as well *)
        destruct k; discriminate.
      * right. split; [reflexivity |]. rewrite Ht, <- !app_assoc. reflexivity.
    + unfold ret. intros [= <- <-]. simpl. do 2 (split; [reflexivity |]).
      left. split; [reflexivity |]. exists 0%nat. split; [lia |].
      split; reflexivity.
    + unfold bind, sleep, emit. simpl. intros H.
      apply IH in H as (Hf & Hi & H). simpl in *. rewrite Hf, Hi.
      do 2 (split; [reflexivity |]).
      destruct H as [(-> & k & Hk & Hps & Ht) | (-> & Ht)].
      * left. split; [reflexivity |]. exists (S k). split; [lia |]. split.
        -- simpl. now rewrite Hps.
        -- rewrite Ht, <- !app_assoc. reflexivity.
      * right. split; [reflexivity |]. rewrite Ht, <- !app_assoc. reflexivity.
Qed.

End ProbeFacts.

(** ** base64 *)

Section Base64Facts.

Import Base64.
Local Open Scope N_scope.

Lemma forall_below (bound : nat) (P : N -> bool) :
  forallb P (map N.of_nat (seq 0 bound)) = true ->
  forall n, n < N.of_nat bound -> P n = true.
Proof.
  intros H n Hn. rewrite forallb_forall in H. apply H.
  rewrite <- (N2Nat.id n). apply in_map, in_seq. lia.
Qed.

Lemma forall_below2 (bound : nat) (P : N -> N -> bool) :
  forallb (fun n => forallb (P n) (map N.of_nat (seq 0 bound)))
    (map N.of_nat (seq 0 bound)) = true ->
  forall n m, n < N.of_nat bound -> m < N.of_nat bound -> P n m = true.
Proof.
  intros H n m Hn Hm.
  apply (forall_below bound (P n)); [| exact Hm].
  apply (forall_below bound (fun n => forallb (P n) (map N.of_nat (seq 0 bound))));
    assumption.
Qed.

(** The alphabet: every sextet has a character, which is ASCII, is not the
    padding character, and is mapped back to the sextet. *)
Lemma b2a_spec (n : N) :
  n < 64 ->
  Ascii.eqb (b2a n) PAD = false /\ a2b (b2a n) = Some n /\
  (N_of_ascii (b2a n) <? 128) = true.
Proof.
  intros Hn.
  pose proof (forall_below 64
    (fun n => negb (Ascii.eqb (b2a n) PAD)
              && match a2b (b2a n) with Some m => m =? n | None => false end
              && (N_of_ascii (b2a n) <? 128))%bool) as H.
  specialize (H eq_refl n Hn). simpl in H.
  apply andb_prop in H as [H H3]. apply andb_prop in H as [H1 H2].
  apply negb_true_iff in H1.
  destruct (a2b (b2a n)) as [m |]; [| discriminate].
  apply N.eqb_eq in H2. subst m. auto.
Qed.

Ltac split_andb H :=
  repeat (apply andb_prop in H as [H ?]);
  repeat match goal with
         | H : (_ <? _) = true |- _ => apply N.ltb_lt in H
         | H : (_ =? _) = true |- _ => apply N.eqb_eq in H
         end.

Lemma sextet_facts (n m : N) :
  n < 256 -> m < 256 ->
  (sextet1 n < 64 /\ sextet2 n m < 64 /\ sextet3 n m < 64 /\ sextet4 n < 64 /\
   N.shiftl (N.land n 3) 4 < 64 /\ N.shiftl (N.land n 15) 2 < 64) /\
  (N.land (sextet2 n m) 15 = N.shiftr m 4 /\
   N.shiftr (sextet3 n m) 2 = N.land n 15 /\
   N.shiftr (sextet2 n m) 4 = N.land n 3 /\
   N.land (sextet3 n m) 3 = N.shiftr m 6) /\
  (N.lor (N.shiftl (sextet1 n) 2) (N.land n 3) = n /\
   N.lor (N.shiftl (N.shiftr n 4) 4) (N.land n 15) = n /\
   N.lor (N.shiftl (N.shiftr n 6) 6) (sextet4 n) = n /\
   N.shiftr (N.shiftl (N.land n 3) 4) 4 = N.land n 3 /\
   N.shiftr (N.shiftl (N.land n 15) 2) 2 = N.land n 15).
Proof.
  intros Hn Hm.
  assert (Hall : forall n m, n < 256 -> m < 256 ->
    ((sextet1 n <? 64) && (sextet2 n m <? 64) && (sextet3 n m <? 64)
     && (sextet4 n <? 64)
     && (N.shiftl (N.land n 3) 4 <? 64) && (N.shiftl (N.land n 15) 2 <? 64)
     && (N.land (sextet2 n m) 15 =? N.shiftr m 4)
     && (N.shiftr (sextet3 n m) 2 =? N.land n 15)
     && (N.shiftr (sextet2 n m) 4 =? N.land n 3)
     && (N.land (sextet3 n m) 3 =? N.shiftr m 6)
     && (N.lor (N.shiftl (sextet1 n) 2) (N.land n 3) =? n)
     && (N.lor (N.shiftl (N.shiftr n 4) 4) (N.land n 15) =? n)
     && (N.lor (N.shiftl (N.shiftr n 6) 6) (sextet4 n) =? n)
     && (N.shiftr (N.shiftl (N.land n 3) 4) 4 =? N.land n 3)
     && (N.shiftr (N.shiftl (N.land n 15) 2) 2 =? N.land n 15))%bool = true).
  { apply (forall_below2 256). vm_compute. reflexivity. }
  specialize (Hall n m Hn Hm). split_andb Hall.
  repeat split; assumption.
Qed.

Lemma to_byte_to_N (b : byte) : to_byte (Byte.to_N b) = b.
Proof.
  unfold to_byte. pose proof (Byte.to_N_bounded b) as Hb.
  rewrite N.mod_small by lia. now rewrite Byte.of_to_N.
Qed.

Lemma to_N_lt (b : byte) : Byte.to_N b < 256.
Proof. pose proof (Byte.to_N_bounded b). lia. Qed.

Lemma a2b_loop_data (c : ascii) (rest : string) (qp l p : N) (out : list byte) (v : N) :
  Ascii.eqb c PAD = false ->
  a2b c = Some v ->
  a2b_loop (String c rest) qp l p out =
  match qp with
  | 0 => a2b_loop rest 1 v 0 out
  | 1 => a2b_loop rest 2 (N.land v 15) 0
           (out ++ [to_byte (N.lor (N.shiftl l 2) (N.shiftr v 4))])
  | 2 => a2b_loop rest 3 (N.land v 3) 0
           (out ++ [to_byte (N.lor (N.shiftl l 4) (N.shiftr v 2))])
  | _ => a2b_loop rest 0 0 0 (out ++ [to_byte (N.lor (N.shiftl l 6) v)])
  end.
Proof. intros Hc Hv. simpl. now rewrite Hc, Hv. Qed.

Lemma a2b_loop_sextet (n : N) (rest : string) (qp l p : N) (out : list byte) :
  n < 64 ->
  a2b_loop (String (b2a n) rest) qp l p out =
  match qp with
  | 0 => a2b_loop rest 1 n 0 out
  | 1 => a2b_loop rest 2 (N.land n 15) 0
           (out ++ [to_byte (N.lor (N.shiftl l 2) (N.shiftr n 4))])
  | 2 => a2b_loop rest 3 (N.land n 3) 0
           (out ++ [to_byte (N.lor (N.shiftl l 4) (N.shiftr n 2))])
  | _ => a2b_loop rest 0 0 0 (out ++ [to_byte (N.lor (N.shiftl l 6) n)])
  end.
Proof.
  intros Hn. destruct (b2a_spec n Hn) as (Hc & Hv & _).
  now apply a2b_loop_data.
Qed.

Lemma list_ind3 {A} (P : list A -> Prop) :
  P [] ->
  (forall a, P [a]) ->
  (forall a b, P [a; b]) ->
  (forall a b c l, P l -> P (a :: b :: c :: l)) ->
  forall l, P l.
Proof.
  intros H0 H1 H2 H3. fix IH 1.
  intros [| a [| b [| c l]]];
    [exact H0 | apply H1 | apply H2 | apply H3, IH].
Qed.

(** Decoding what the encoder wrote gives the bytes back. *)
Lemma a2b_loop_b2a (raw : list byte) :
  forall l p out,
    a2b_loop (b2a_base64 raw) 0 l p out = Some (out ++ raw).
Proof.
  induction raw as [| b1 | b1 b2 | b1 b2 b3 raw IH] using list_ind3;
    intros l p out.
  - simpl. now rewrite app_nil_r.
  - pose proof (to_N_lt b1) as H1.
    destruct (sextet_facts _ _ H1 H1) as ((S1 & _ & _ & _ & S2 & _) & _ & (E1 & _ & _ & E2 & _)).
    cbn [b2a_base64].
    rewrite a2b_loop_sextet by exact S1.
    rewrite a2b_loop_sextet by exact S2.
    rewrite E2, E1, to_byte_to_N. reflexivity.
  - pose proof (to_N_lt b1) as H1. pose proof (to_N_lt b2) as H2.
    destruct (sextet_facts _ _ H1 H2) as ((S1 & S2 & _) & (A1 & _ & A3 & _) & (E1 & _)).
    destruct (sextet_facts _ _ H2 H2) as ((_ & _ & _ & _ & _ & S3) & _ & (_ & E2 & _ & _ & E4)).
    cbn [b2a_base64].
    rewrite a2b_loop_sextet by exact S1.
    rewrite a2b_loop_sextet by exact S2.
    rewrite a2b_loop_sextet by exact S3.
    rewrite A3, E1, A1, E4, E2, !to_byte_to_N, <- app_assoc. reflexivity.
  - pose proof (to_N_lt b1) as H1. pose proof (to_N_lt b2) as H2.
    pose proof (to_N_lt b3) as H3.
    destruct (sextet_facts _ _ H1 H2) as ((S1 & S2 & _) & (A1 & _ & A3 & _) & (E1 & _)).
    destruct (sextet_facts _ _ H2 H3) as ((_ & _ & S3 & _) & (_ & B2 & _ & B4) & (_ & E2 & _)).
    destruct (sextet_facts _ _ H3 H3) as ((_ & _ & _ & S4 & _) & _ & (_ & _ & E3 & _)).
    cbn [b2a_base64].
    rewrite a2b_loop_sextet by exact S1.
    rewrite a2b_loop_sextet by exact S2.
    rewrite a2b_loop_sextet by exact S3.
    rewrite a2b_loop_sextet by exact S4.
    rewrite A3, E1, A1, B2, E2, B4, E3, !to_byte_to_N, IH, <- !app_assoc.
    reflexivity.
Qed.

Lemma b2a_base64_ascii (raw : list byte) : is_ascii (b2a_base64 raw) = true.
Proof.
  induction raw as [| b1 | b1 b2 | b1 b2 b3 raw IH] using list_ind3.
  - reflexivity.
  - pose proof (to_N_lt b1) as H1.
    destruct (sextet_facts _ _ H1 H1) as ((S1 & _ & _ & _ & S2 & _) & _).
    cbn [b2a_base64 is_ascii].
    destruct (b2a_spec _ S1) as (_ & _ & ->).
    destruct (b2a_spec _ S2) as (_ & _ & ->). reflexivity.
  - pose proof (to_N_lt b1) as H1. pose proof (to_N_lt b2) as H2.
    destruct (sextet_facts _ _ H1 H2) as ((S1 & S2 & _) & _).
    destruct (sextet_facts _ _ H2 H2) as ((_ & _ & _ & _ & _ & S3) & _).
    cbn [b2a_base64 is_ascii].
    destruct (b2a_spec _ S1) as (_ & _ & ->).
    destruct (b2a_spec _ S2) as (_ & _ & ->).
    destruct (b2a_spec _ S3) as (_ & _ & ->). reflexivity.
  - pose proof (to_N_lt b1) as H1. pose proof (to_N_lt b2) as H2.
    pose proof (to_N_lt b3) as H3.
    destruct (sextet_facts _ _ H1 H2) as ((S1 & S2 & _) & _).
    destruct (sextet_facts _ _ H2 H3) as ((_ & _ & S3 & _) & _).
    destruct (sextet_facts _ _ H3 H3) as ((_ & _ & _ & S4 & _) & _).
    cbn [b2a_base64 is_ascii].
    destruct (b2a_spec _ S1) as (_ & _ & ->).
    destruct (b2a_spec _ S2) as (_ & _ & ->).
    destruct (b2a_spec _ S3) as (_ & _ & ->).
    destruct (b2a_spec _ S4) as (_ & _ & ->). now rewrite IH.
Qed.

(** [b64decode (b64encode raw) = raw], for all bytes. *)
Lemma b64decode_b64encode (raw : list byte) :
  b64decode (JStr (b64encode raw)) = Ok raw.
Proof.
  unfold b64decode, b64encode, a2b_base64.
  now rewrite b2a_base64_ascii, a2b_loop_b2a.
Qed.

End Base64Facts.

(** ** The monad *)

Lemma bind_ok_inv {A B} (m : M A) (k : A -> M B) (w w' : world) (b : B) :
  bind m k w = (Ok b, w') ->
  exists a w1, m w = (Ok a, w1) /\ k a w1 = (Ok b, w').
Proof.
  unfold bind. destruct (m w) as [[a | e] w1]; [eauto | discriminate].
Qed.

Lemma bind_inv {A B} (m : M A) (k : A -> M B) (w w' : world) (r : result B) :
  bind m k w = (r, w') ->
  (exists a w1, m w = (Ok a, w1) /\ k a w1 = (r, w')) \/
  (exists e, m w = (Raise e, w') /\ r = Raise e).
Proof.
  unfold bind. destruct (m w) as [[a | e] w1].
  - left. eauto.
  - intros [= <- <-]. right. eauto.
Qed.

Lemma lift_ok_inv {A} (r : result A) (w w' : world) (a : A) :
  lift r w = (Ok a, w') -> r = Ok a /\ w' = w.
Proof. unfold lift. now intros [= -> ->]. Qed.

Lemma bind_lift_ok {A B} (r : result A) (a : A) (k : A -> M B) (w : world) :
  r = Ok a -> bind (lift r) k w = k a w.
Proof. now intros ->. Qed.

Lemma world_eta (w : world) :
  {| files := files w; probes := probes w; inbox := inbox w;
     trace := trace w ++ [] |} = w.
Proof. destruct w. simpl. now rewrite app_nil_r. Qed.

(** ** The stages *)

Section StageFacts.

Variable cid : string.

Lemma run_app (s : stage) (evs1 evs2 : list event) :
  run cid s (evs1 ++ evs2) =
  match run cid s evs1 with
  | Some s1 => run cid s1 evs2
  | None => None
  end.
Proof.
  revert s. induction evs1 as [| e evs1 IH]; intros s; simpl; [reflexivity |].
  destruct (step cid s e); [apply IH | reflexivity].
Qed.

Lemma run_split (s st : stage) (pre : list event) (e : event) (post : list event) :
  run cid s (pre ++ e :: post) = Some st ->
  exists s1 s2,
    run cid s pre = Some s1 /\ step cid s1 e = Some s2 /\
    run cid s2 post = Some st.
Proof.
  rewrite run_app. destruct (run cid s pre) as [s1 |]; [| discriminate].
  simpl. destruct (step cid s1 e) as [s2 |] eqn:Hs; [| discriminate].
  eauto.
Qed.

Lemma step_not_idle (s s' : stage) (e : event) :
  step cid s e = Some s' -> s <> Idle -> s' <> Idle /\ is_write e = false.
Proof.
  destruct s, e; simpl; try discriminate; try congruence;
    repeat match goal with
           | |- context [match ?x with _ => _ end] => destruct x
           end; try discriminate; intros [= <-] _; split; congruence.
Qed.

Lemma run_not_idle (evs : list event) :
  forall s st,
    run cid s evs = Some st -> s <> Idle ->
    st <> Idle /\ Forall (fun e => is_write e = false) evs.
Proof.
  induction evs as [| e evs IH]; intros s st; simpl.
  - intros [= <-] H. auto.
  - destruct (step cid s e) as [s1 |] eqn:Hs; [| discriminate].
    intros Hr Hne. destruct (step_not_idle _ _ _ Hs Hne) as [Hne1 He].
    destruct (IH _ _ Hr Hne1). auto.
Qed.

Lemma run_past_readiness (evs : list event) :
  forall s st,
    run cid s evs = Some st -> past_readiness s = true ->
    Forall (fun e => is_probe_or_sleep e = false) evs.
Proof.
  induction evs as [| e evs IH]; intros s st; simpl; [auto |].
  destruct (step cid s e) as [s1 |] eqn:Hs; [| discriminate].
  intros Hr Hp. constructor.
  - destruct s, e; simpl in *; try discriminate; reflexivity.
  - apply (IH s1 st Hr).
    destruct s, e; simpl in *; try discriminate;
      repeat match type of Hs with
             | context [match ?x with _ => _ end] => destruct x
             end; try discriminate; injection Hs as <-; reflexivity.
Qed.

Lemma run_failed (evs : list event) (st : stage) :
  run cid Failed evs = Some st -> evs = [] /\ st = Failed.
Proof. destruct evs; simpl; [intros [= <-]; auto | discriminate]. Qed.

Lemma run_snoc_inv (s st : stage) (pre : list event) (e : event) :
  run cid s (pre ++ [e]) = Some st ->
  exists s1, run cid s pre = Some s1 /\ step cid s1 e = Some st.
Proof.
  intros H. apply run_split in H as (s1 & s2 & H1 & H2 & H3).
  simpl in H3. injection H3 as <-. eauto.
Qed.

(** The only way into [Connected] is a successful connect made at
    [Ready], and the only way into [Ready] a successful liveness request. *)
Lemma enter_connected (pre : list event) :
  run cid Idle pre = Some Connected ->
  exists pre', pre = pre' ++ [EvConnect cid true] /\ run cid Idle pre' = Some Ready.
Proof.
  induction pre as [| e0 pre0 _] using rev_ind; [discriminate |].
  intros H. apply run_snoc_inv in H as (s1 & H1 & H2).
  exists pre0. destruct s1, e0; simpl in H2; try discriminate;
    repeat match type of H2 with
           | context [String.eqb ?a ?b] => destruct (String.eqb_spec a b)
           | context [match ?x with _ => _ end] => destruct x
           end; try discriminate.
  subst. auto.
Qed.

Lemma enter_ready (pre : list event) :
  run cid Idle pre = Some Ready ->
  exists pre', pre = pre' ++ [EvProbe true].
Proof.
  induction pre as [| e0 pre0 _] using rev_ind; [discriminate |].
  intros H. apply run_snoc_inv in H as (s1 & H1 & H2).
  exists pre0. destruct s1, e0; simpl in H2; try discriminate;
    repeat match type of H2 with
           | context [String.eqb ?a ?b] => destruct (String.eqb_spec a b)
           | context [match ?x with _ => _ end] => destruct x
           end; try discriminate; reflexivity.
Qed.

End StageFacts.

(** ** Every effect of the handler, stage by stage *)

Section Conformance.

Variable svc : service.

Local Abbreviation moves := (moves svc).
Local Abbreviation cid := (CLIENT_ID svc).

Lemma moves_lift {A} (r : result A) (s : stage) : moves (lift r) s s.
Proof.
  intros w r' w' [= <- <-]. exists [], s. rewrite app_nil_r. simpl. auto.
Qed.

Lemma moves_ret {A} (a : A) (s : stage) : moves (ret a) s s.
Proof.
  intros w r' w' [= <- <-]. exists [], s. rewrite app_nil_r. simpl. auto.
Qed.

Lemma moves_raise {A} (e : exn) (s s' : stage) : moves (@raise A e) s s'.
Proof.
  intros w r' w' [= <- <-]. exists [], s. rewrite app_nil_r. simpl.
  repeat split; auto. discriminate.
Qed.

Lemma moves_bind {A B} (m : M A) (k : A -> M B) (s1 s2 s3 : stage) :
  moves m s1 s2 -> (forall a, moves (k a) s2 s3) -> moves (bind m k) s1 s3.
Proof.
  intros Hm Hk w r w' H. apply bind_inv in H as [(a & w1 & H1 & H2) | (e & H1 & ->)].
  - apply Hm in H1 as (evs1 & st1 & Ht1 & Hr1 & Hs1 & Hf1).
    specialize (Hs1 eq_refl). subst st1.
    apply Hk in H2 as (evs2 & st2 & Ht2 & Hr2 & Hs2 & Hf2).
    exists (evs1 ++ evs2), st2. rewrite Ht2, Ht1, <- app_assoc, run_app, Hr1.
    repeat split; auto.
    intros Hne. destruct (run_not_idle _ _ _ _ Hr1 Hne) as [Hne2 _].
    rewrite Hf2, Hf1; auto.
  - apply Hm in H1 as (evs1 & st1 & Ht1 & Hr1 & Hs1 & Hf1).
    exists evs1, st1. repeat split; auto. discriminate.
Qed.

Lemma moves_for_in {A S} (body : A -> S -> M S) (s : stage) (l : list A) :
  (forall x acc, moves (body x acc) s s) ->
  forall acc, moves (for_in l body acc) s s.
Proof.
  intros Hb. induction l as [| x l IH]; intros acc; simpl.
  - apply moves_ret.
  - eapply moves_bind; [apply Hb | apply IH].
Qed.

(** One effect: the event, appended to the trace, is what the stage admits. *)
Lemma moves_event {A} (m : M A) (s s' : stage) :
  (forall w r w', m w = (r, w') ->
     exists e st, trace w' = trace w ++ [e] /\ step cid s e = Some st /\
                  (is_ok r = true -> st = s') /\ (s <> Idle -> files w' = files w)) ->
  moves m s s'.
Proof.
  intros H w r w' Hm. apply H in Hm as (e & st & Ht & Hs & Hok & Hf).
  exists [e], st. simpl. rewrite Hs. auto.
Qed.

Lemma moves_write_file (path : string) (data : list byte) :
  moves (write_file svc path data) Idle Idle.
Proof.
  apply moves_event. intros w r w'. unfold write_file.
  destruct (can_open svc (trace w) path); intros [= <- <-]; simpl.
  - exists (EvWrite path data), Idle. repeat split; auto. congruence.
  - exists (EvOpenFailed path), Failed. repeat split; auto; congruence.
Qed.

Lemma moves_save_input_image (img : json) :
  moves (save_input_image svc img) Idle Idle.
Proof.
  unfold save_input_image.
  repeat (eapply moves_bind; [apply moves_lift | intros ?]).
  apply moves_write_file.
Qed.

Lemma run_failed_attempts (k : nat) (s : stage) :
  s = Idle \/ s = AwaitingReadiness ->
  run cid s (failed_attempts k) = Some (match k with O => s | _ => AwaitingReadiness end).
Proof.
  revert s. induction k as [| k IH]; intros s Hs; [reflexivity |].
  rewrite failed_attempts_S.
  assert (run cid s (EvProbe false :: EvSleep 1 :: failed_attempts k)
          = run cid AwaitingReadiness (failed_attempts k)) as ->
      by (destruct Hs as [-> | ->]; reflexivity).
  rewrite IH by auto. now destruct k.
Qed.

Lemma moves_ensure_up (n : nat) (s : stage) :
  s = Idle \/ s = AwaitingReadiness ->
  moves (ensure_up n) s Ready.
Proof.
  intros Hs w r w' H. apply ensure_up_inv in H as (Hf & _ & H).
  destruct H as [(-> & k & _ & _ & Ht) | (-> & Ht)].
  - exists (failed_attempts k ++ [EvProbe true]), Ready.
    rewrite run_app, run_failed_attempts by exact Hs.
    repeat split; auto.
    destruct k; destruct Hs as [-> | ->]; reflexivity.
  - eexists _, _. rewrite run_failed_attempts by exact Hs.
    repeat split; eauto. discriminate.
Qed.

Lemma moves_ws_connect : moves (ws_connect svc) Ready Connected.
Proof.
  apply moves_event. intros w r w'. unfold ws_connect. intros [= <- <-]. simpl.
  eexists _, _. split; [reflexivity |]. simpl. rewrite String.eqb_refl.
  split; [reflexivity |]. split; [| auto].
  destruct (accepts svc (trace w) cid); [auto | discriminate].
Qed.

Lemma moves_post_prompt (prompt : json) :
  moves (post_prompt svc prompt) Connected AwaitingCompletion.
Proof.
  apply moves_event. intros w r w'. unfold post_prompt. intros [= <- <-]. simpl.
  eexists _, _. split; [reflexivity |]. simpl. rewrite String.eqb_refl.
  split; [reflexivity |]. split; [| auto].
  destruct (prompt_reply svc (trace w) prompt cid); [auto | discriminate].
Qed.

Lemma moves_queue_prompt (prompt : json) :
  moves (queue_prompt svc prompt) Connected AwaitingCompletion.
Proof.
  unfold queue_prompt.
  eapply moves_bind; [apply moves_post_prompt | intros ?].
  eapply moves_bind; [apply moves_lift | intros ?]. apply moves_lift.
Qed.

Lemma moves_wait_for_execution (prompt_id : json) :
  moves (wait_for_execution svc prompt_id) AwaitingCompletion AwaitingCompletion.
Proof.
  intros w r w'. unfold wait_for_execution. generalize (inbox w) as msgs.
  intros msgs. revert w. induction msgs as [| m msgs IH]; intros w; simpl.
  - intros [= <- <-]. exists [EvRecv None], Failed. simpl.
    repeat split; auto. discriminate.
  - destruct (execution_done svc prompt_id m) as [[|] | e].
    + intros [= <- <-]. exists [EvRecv (Some m)], AwaitingCompletion. simpl. auto.
    + intros H. apply IH in H as (evs & st & Ht & Hr & Hok & Hf). simpl in *.
      exists (EvRecv (Some m) :: evs), st. simpl.
      rewrite Ht, <- app_assoc. auto.
    + intros [= <- <-]. exists [EvRecv (Some m)], AwaitingCompletion. simpl.
      repeat split; auto.
Qed.

Lemma moves_ws_close : moves ws_close AwaitingCompletion Completed.
Proof.
  apply moves_event. intros w r w'. unfold ws_close, emit. intros [= <- <-].
  simpl. eexists _, _. repeat split; auto.
Qed.

Lemma moves_get_history (prompt_id : json) :
  moves (get_history svc prompt_id) Completed CollectingArtifacts.
Proof.
  unfold get_history. eapply moves_bind.
  - apply moves_event. intros w r w'. unfold fetch_history. intros [= <- <-].
    simpl. eexists _, _. split; [reflexivity |]. split; [reflexivity |].
    split; [| auto].
    destruct (history_reply svc (trace w) prompt_id); [auto | discriminate].
  - intros ?. eapply moves_bind; [apply moves_lift | intros ?]. apply moves_lift.
Qed.

Lemma moves_get_image (f s t : json) :
  moves (get_image svc f s t) CollectingArtifacts CollectingArtifacts.
Proof.
  apply moves_event. intros w r w'. unfold get_image. intros [= <- <-].
  simpl. eexists _, _. split; [reflexivity |]. split; [reflexivity |].
  split; [| auto].
  destruct (view_reply svc (trace w) f s t); [auto | discriminate].
Qed.

Lemma moves_collect_image (img : json) (acc : list json) :
  moves (collect_image svc img acc) CollectingArtifacts CollectingArtifacts.
Proof.
  unfold collect_image.
  repeat (eapply moves_bind; [apply moves_lift | intros ?]).
  eapply moves_bind; [apply moves_get_image | intros ?].
  eapply moves_bind; [apply moves_lift | intros ?]. apply moves_ret.
Qed.

Lemma moves_collect_node (node : json) (acc : list json) :
  moves (collect_node svc node acc) CollectingArtifacts CollectingArtifacts.
Proof.
  unfold collect_node.
  eapply moves_bind; [apply moves_lift | intros has].
  destruct (negb has); [apply moves_ret |].
  repeat (eapply moves_bind; [apply moves_lift | intros ?]).
  apply moves_for_in. apply moves_collect_image.
Qed.

Lemma moves_collect_outputs (history : json) :
  moves (collect_outputs svc history) CollectingArtifacts CollectingArtifacts.
Proof.
  unfold collect_outputs.
  repeat (eapply moves_bind; [apply moves_lift | intros ?]).
  eapply moves_bind; [apply moves_for_in, moves_collect_node | intros out].
  destruct out; apply moves_ret.
Qed.

(** What follows the saving of the inputs, from either stage the liveness
    requests can start in. *)
Lemma moves_after_saving (workflow : json) (s : stage) :
  s = Idle \/ s = AwaitingReadiness ->
  moves (ensure_up 120 ;; ws_connect svc ;;
         prompt_id <- queue_prompt svc workflow ;;
         wait_for_execution svc prompt_id ;; ws_close ;;
         get_history svc prompt_id) s CollectingArtifacts.
Proof.
  intros Hs.
  eapply moves_bind; [apply moves_ensure_up, Hs | intros _].
  eapply moves_bind; [apply moves_ws_connect | intros _].
  eapply moves_bind; [apply moves_queue_prompt | intros prompt_id].
  eapply moves_bind; [apply moves_wait_for_execution | intros _].
  eapply moves_bind; [apply moves_ws_close | intros _].
  apply moves_get_history.
Qed.

Lemma moves_run_prompt (job : json) :
  moves (run_prompt svc job) Idle CollectingArtifacts.
Proof.
  unfold run_prompt.
  repeat (eapply moves_bind; [apply moves_lift | intros ?]).
  eapply moves_bind; [apply moves_for_in; intros; apply moves_save_input_image | intros _].
  apply moves_after_saving. auto.
Qed.

Lemma moves_handler (job : json) :
  moves (handler svc job) Idle CollectingArtifacts.
Proof.
  unfold handler. eapply moves_bind; [apply moves_run_prompt | intros history].
  apply moves_collect_outputs.
Qed.

End Conformance.

(** ** Saving the input images *)

Section SavingFacts.

Variable svc : service.

Lemma join_str_inv (name : json) (path : string) :
  Path.join INPUT_DIR name = Ok path ->
  exists n, name = JStr n /\ path = input_path n.
Proof. destruct name; simpl; try discriminate. intros [= <-]. eauto. Qed.

Lemma save_input_image_ok (img : json) (nd : string * list byte) (w : world) :
  input_image img nd ->
  can_open svc (trace w) (input_path (fst nd)) = true ->
  save_input_image svc img w =
  (Ok tt, {| files := <[input_path (fst nd) := snd nd]> (files w);
             probes := probes w; inbox := inbox w;
             trace := trace w ++ [EvWrite (input_path (fst nd)) (snd nd)] |}).
Proof.
  intros (Hn & image & Hi & Hd) Ho. unfold save_input_image.
  rewrite (bind_lift_ok _ _ _ _ Hn), (bind_lift_ok _ _ _ _ Hi),
    (bind_lift_ok _ _ _ _ Hd).
  unfold bind, lift, write_file. simpl. fold (input_path (fst nd)).
  now rewrite Ho.
Qed.

Lemma save_input_image_inv (img : json) (w w' : world) (u : unit) :
  save_input_image svc img w = (Ok u, w') ->
  exists nd,
    input_image img nd /\
    can_open svc (trace w) (input_path (fst nd)) = true /\
    w' = {| files := <[input_path (fst nd) := snd nd]> (files w);
            probes := probes w; inbox := inbox w;
            trace := trace w ++ [EvWrite (input_path (fst nd)) (snd nd)] |}.
Proof.
  unfold save_input_image. intros H.
  apply bind_ok_inv in H as (name & w1 & H1 & H). apply lift_ok_inv in H1 as [Hn ->].
  apply bind_ok_inv in H as (image & w1 & H1 & H). apply lift_ok_inv in H1 as [Hi ->].
  apply bind_ok_inv in H as (data & w1 & H1 & H). apply lift_ok_inv in H1 as [Hd ->].
  apply bind_ok_inv in H as (path & w1 & H1 & H). apply lift_ok_inv in H1 as [Hp ->].
  apply join_str_inv in Hp as (n & -> & ->).
  unfold write_file in H.
  destruct (can_open svc (trace w) (input_path n)) eqn:Ho; [| discriminate].
  injection H as <-. exists (n, data). simpl. repeat split; eauto.
Qed.

Lemma save_all_ok (imgs : list json) (named : list (string * list byte)) :
  Forall2 input_image imgs named ->
  forall w,
    openable svc (trace w) named ->
    for_in imgs (fun img _ => save_input_image svc img) tt w =
    (Ok tt, {| files := persist named (files w); probes := probes w;
               inbox := inbox w; trace := trace w ++ written named |}).
Proof.
  induction 1 as [| img nd imgs named Hi _ IH]; intros w Ho; simpl.
  - unfold ret. now rewrite world_eta.
  - destruct Ho as [Ho Hrest]. unfold bind at 1.
    rewrite (save_input_image_ok _ _ _ Hi Ho).
    rewrite IH by exact Hrest. simpl. now rewrite <- app_assoc.
Qed.

Lemma save_all_inv (imgs : list json) :
  forall w w' u,
    for_in imgs (fun img _ => save_input_image svc img) tt w = (Ok u, w') ->
    exists named,
      Forall2 input_image imgs named /\
      openable svc (trace w) named /\
      w' = {| files := persist named (files w); probes := probes w;
              inbox := inbox w; trace := trace w ++ written named |}.
Proof.
  induction imgs as [| img imgs IH]; intros w w' u; simpl.
  - intros [= <- <-]. exists []. simpl. rewrite world_eta. auto.
  - intros H. apply bind_ok_inv in H as ([] & w1 & H1 & H).
    apply save_input_image_inv in H1 as (nd & Hi & Ho & ->).
    apply IH in H as (named & Hall & Hop & ->). simpl in *.
    exists (nd :: named). simpl. rewrite <- app_assoc. auto.
Qed.

End SavingFacts.

(** ** A run that reaches the history record *)

Section RunFacts.

Variable svc : service.

Local Abbreviation cid := (CLIENT_ID svc).

(** Everything that is known once [run_prompt] has returned. *)
Lemma run_prompt_ok_inv (job history : json) (w w1 : world) :
  run_prompt svc job w = (Ok history, w1) ->
  exists job_input workflow images imgs named k body res prompt_id
         earlier msg hbody doc,
    (getitem job "input" = Ok job_input /\
     getitem job_input "workflow" = Ok workflow /\
     dict_get_default job_input "images" (JArr []) = Ok images /\
     iter images = Ok imgs) /\
    (Forall2 input_image imgs named /\ openable svc (trace w) named /\
     files w1 = persist named (files w)) /\
    ((k < 120)%nat /\ probes w = repeat false k ++ true :: probes w1) /\
    (json_loads svc body = Some res /\ getitem res "prompt_id" = Ok prompt_id) /\
    (inbox w = earlier ++ msg :: inbox w1 /\
     Forall (ignored svc prompt_id) earlier /\
     completion_signal svc prompt_id msg) /\
    (json_loads svc hbody = Some doc /\ subscript doc prompt_id = Ok history) /\
    trace w1 =
    trace w ++ written named ++ failed_attempts k ++
    [EvProbe true; EvConnect cid true; EvSubmit workflow cid (Some body)] ++
    received (earlier ++ [msg]) ++ [EvClose; EvHistory prompt_id (Some hbody)].
Proof.
  unfold run_prompt. intros H.
  apply bind_ok_inv in H as (job_input & w0 & H0 & H). apply lift_ok_inv in H0 as [Hji ->].
  apply bind_ok_inv in H as (workflow & w0 & H0 & H). apply lift_ok_inv in H0 as [Hwf ->].
  apply bind_ok_inv in H as (images & w0 & H0 & H). apply lift_ok_inv in H0 as [Him ->].
  apply bind_ok_inv in H as (n1 & w0 & H0 & H). apply lift_ok_inv in H0 as [_ ->].
  apply bind_ok_inv in H as (n2 & w0 & H0 & H). apply lift_ok_inv in H0 as [_ ->].
  apply bind_ok_inv in H as (imgs & w0 & H0 & H). apply lift_ok_inv in H0 as [Hit ->].
  apply bind_ok_inv in H as (u & wa & Hsave & H).
  apply save_all_inv in Hsave as (named & Hnamed & Hopen & Hwa).
  apply bind_ok_inv in H as ([] & wb & Hup & H).
  apply ensure_up_inv in Hup as (Hfb & Hib & [(_ & k & Hk & Hpb & Htb) | (Hbad & _)]);
    [| discriminate].
  apply bind_ok_inv in H as ([] & wc & Hconn & H).
  unfold ws_connect in Hconn.
  destruct (accepts svc (trace wb) cid) eqn:Hacc; [| discriminate].
  injection Hconn as <-.
  apply bind_ok_inv in H as (prompt_id & wd & Hq & H).
  unfold queue_prompt in Hq.
  apply bind_ok_inv in Hq as (body0 & wq & Hpost & Hq).
  unfold post_prompt in Hpost. simpl in Hpost.
  destruct (prompt_reply svc _ workflow cid) as [body |] eqn:Hrep; [| discriminate].
  injection Hpost as <- <-.
  apply bind_ok_inv in Hq as (res & wq & Hl & Hq). apply lift_ok_inv in Hl as [Hres ->].
  apply lift_ok_inv in Hq as [Hpid ->]. apply loads_inv in Hres.
  apply bind_ok_inv in H as ([] & we & Hwait & H).
  unfold wait_for_execution in Hwait. simpl in Hwait.
  apply wait_loop_inv in Hwait as (earlier & msg & Hin & Hign & Hsig & Hfe & Hpe & Hte).
  simpl in Hfe, Hpe, Hte.
  apply bind_ok_inv in H as ([] & wf & Hclose & H).
  unfold ws_close, emit in Hclose. injection Hclose as <-.
  unfold get_history in H.
  apply bind_ok_inv in H as (hbody0 & wh & Hfetch & H).
  unfold fetch_history in Hfetch. simpl in Hfetch.
  destruct (history_reply svc _ prompt_id) as [hbody |] eqn:Hhr; [| discriminate].
  injection Hfetch as <- <-.
  apply bind_ok_inv in H as (doc & wh & Hl & H). apply lift_ok_inv in Hl as [Hdoc ->].
  apply lift_ok_inv in H as [Hsub ->]. apply loads_inv in Hdoc.
  exists job_input, workflow, images, imgs, named, k, body, res, prompt_id,
    earlier, msg, hbody, doc.
  simpl. rewrite Hfe, Hfb, Hwa, Hpe, Hte, Htb, Hwa. simpl.
  rewrite Hwa in Hpb, Hib. simpl in Hpb, Hib. rewrite <- Hib.
  repeat split; auto.
  repeat (rewrite <- app_assoc; simpl). reflexivity.
Qed.

End RunFacts.

(** ** Collecting the artifacts *)

Section CollectFacts.

Variable svc : service.

Lemma extend_nil (w : world) : extend w [] = w.
Proof. apply world_eta. Qed.

Lemma extend_extend (w : world) (evs1 evs2 : list event) :
  extend (extend w evs1) evs2 = extend w (evs1 ++ evs2).
Proof. unfold extend. simpl. now rewrite app_assoc. Qed.

Lemma fetches_length (refs : list reference) :
  forall tr raws, fetches svc tr refs raws -> length refs = length raws.
Proof.
  induction refs as [| r refs IH]; intros tr [| raw raws]; simpl; try tauto.
  intros [_ H]. f_equal. eauto.
Qed.

Lemma fetches_app (refs1 refs2 : list reference) :
  forall tr raws1 raws2,
    fetches svc tr refs1 raws1 ->
    fetches svc (tr ++ zip_with view_ok refs1 raws1) refs2 raws2 ->
    fetches svc tr (refs1 ++ refs2) (raws1 ++ raws2).
Proof.
  induction refs1 as [| r refs1 IH]; intros tr [| raw raws1] raws2; simpl; try tauto.
  - now rewrite app_nil_r.
  - intros [Hv H1] H2. split; [exact Hv |]. apply IH; [exact H1 |].
    now rewrite <- app_assoc.
Qed.

Lemma fetches_app_inv (refs1 refs2 : list reference) :
  forall tr raws,
    fetches svc tr (refs1 ++ refs2) raws ->
    exists raws1 raws2,
      raws = raws1 ++ raws2 /\ fetches svc tr refs1 raws1 /\
      fetches svc (tr ++ zip_with view_ok refs1 raws1) refs2 raws2.
Proof.
  induction refs1 as [| r refs1 IH]; intros tr raws; simpl.
  - intros H. exists [], raws. simpl. rewrite app_nil_r. auto.
  - destruct raws as [| raw raws]; [tauto |]. intros [Hv H].
    apply IH in H as (raws1 & raws2 & -> & H1 & H2).
    exists (raw :: raws1), raws2. simpl. rewrite <- app_assoc in H2. auto.
Qed.

Lemma image_ref_inv (img : json) (r : reference) :
  image_ref img = Some r ->
  getitem img "filename" = Ok (fst (fst r)) /\
  getitem img "subfolder" = Ok (snd (fst r)) /\
  getitem img "type" = Ok (snd r).
Proof.
  unfold image_ref.
  destruct (getitem img "filename"), (getitem img "subfolder"),
    (getitem img "type"); try discriminate.
  intros [= <-]. auto.
Qed.

Lemma collect_image_eq (img : json) (r : reference) (acc : list json) (w : world) :
  image_ref img = Some r ->
  collect_image svc img acc w =
  match view_reply svc (trace w) (fst (fst r)) (snd (fst r)) (snd r) with
  | Some raw => (Ok (acc ++ [entry r raw]), extend w [view_ok r raw])
  | None => (Raise URLError,
             extend w [EvView (fst (fst r)) (snd (fst r)) (snd r) None])
  end.
Proof.
  intros H. apply image_ref_inv in H as (Hf & Hs & Ht). unfold collect_image.
  rewrite (bind_lift_ok _ _ _ _ Hf), (bind_lift_ok _ _ _ _ Hs),
    (bind_lift_ok _ _ _ _ Ht).
  unfold bind at 1. unfold get_image.
  destruct (view_reply svc (trace w) _ _ _) as [raw |]; [| reflexivity].
  now rewrite (bind_lift_ok _ _ _ _ Hf).
Qed.

Lemma collect_images_ok (imgs : list json) :
  forall refs raws acc w,
    all_some image_ref imgs = Some refs ->
    fetches svc (trace w) refs raws ->
    for_in imgs (collect_image svc) acc w =
    (Ok (acc ++ zip_with entry refs raws), extend w (zip_with view_ok refs raws)).
Proof.
  induction imgs as [| img imgs IH]; intros refs raws acc w; simpl.
  - intros [= <-]. destruct raws; [| simpl; tauto]. intros _. simpl.
    now rewrite app_nil_r, extend_nil.
  - destruct (image_ref img) as [r |] eqn:Hr; [| discriminate].
    destruct (all_some image_ref imgs) as [refs' |] eqn:Hall; [| discriminate].
    intros [= <-]. destruct raws as [| raw raws]; [simpl; tauto |].
    intros [Hv Hrest]. unfold bind. rewrite (collect_image_eq _ _ _ _ Hr), Hv.
    rewrite (IH refs' raws) by (auto; exact Hrest). simpl.
    now rewrite <- app_assoc, extend_extend.
Qed.

Lemma collect_images_inv (imgs : list json) :
  forall refs acc w out w',
    all_some image_ref imgs = Some refs ->
    for_in imgs (collect_image svc) acc w = (Ok out, w') ->
    exists raws,
      fetches svc (trace w) refs raws /\
      out = acc ++ zip_with entry refs raws /\
      w' = extend w (zip_with view_ok refs raws).
Proof.
  induction imgs as [| img imgs IH]; intros refs acc w out w'; simpl.
  - intros [= <-] [= <- <-]. exists []. simpl.
    now rewrite app_nil_r, extend_nil.
  - destruct (image_ref img) as [r |] eqn:Hr; [| discriminate].
    destruct (all_some image_ref imgs) as [refs' |] eqn:Hall; [| discriminate].
    intros [= <-]. unfold bind. rewrite (collect_image_eq _ _ _ _ Hr).
    destruct (view_reply svc (trace w) _ _ _) as [raw |] eqn:Hv; [| discriminate].
    intros H. apply (IH refs') in H as (raws & Hf & -> & ->); [| reflexivity].
    exists (raw :: raws). simpl. rewrite <- app_assoc, extend_extend. auto.
Qed.

Lemma node_refs_inv (node : json) (refs : list reference) :
  node_refs node = Some refs ->
  (contains node "images" = Ok false /\ refs = []) \/
  (exists imgs,
      contains node "images" = Ok true /\
      getitem node "images" = Ok (JArr imgs) /\
      all_some image_ref imgs = Some refs).
Proof.
  destruct node as [| | | | | | d]; simpl; try discriminate.
  unfold dict_has. destruct (dict_get "images" d) as [v |]; [| intros [= <-]; auto].
  destruct v; try discriminate. eauto.
Qed.

Lemma collect_node_ok (node : json) (refs : list reference) :
  forall raws acc w,
    node_refs node = Some refs ->
    fetches svc (trace w) refs raws ->
    collect_node svc node acc w =
    (Ok (acc ++ zip_with entry refs raws), extend w (zip_with view_ok refs raws)).
Proof.
  intros raws acc w Hn Hf. unfold collect_node.
  apply node_refs_inv in Hn as [(Hc & ->) | (imgs & Hc & Hg & Hall)];
    rewrite (bind_lift_ok _ _ _ _ Hc); simpl.
  - destruct raws; [| simpl in Hf; tauto]. unfold ret. simpl.
    now rewrite app_nil_r, extend_nil.
  - rewrite (bind_lift_ok _ _ _ _ Hg). simpl.
    unfold bind, lift. simpl. now apply collect_images_ok.
Qed.

Lemma collect_node_inv (node : json) (refs : list reference) :
  forall acc w out w',
    node_refs node = Some refs ->
    collect_node svc node acc w = (Ok out, w') ->
    exists raws,
      fetches svc (trace w) refs raws /\
      out = acc ++ zip_with entry refs raws /\
      w' = extend w (zip_with view_ok refs raws).
Proof.
  intros acc w out w' Hn. unfold collect_node.
  apply node_refs_inv in Hn as [(Hc & ->) | (imgs & Hc & Hg & Hall)];
    rewrite (bind_lift_ok _ _ _ _ Hc); simpl.
  - intros [= <- <-]. exists []. simpl. now rewrite app_nil_r, extend_nil.
  - rewrite (bind_lift_ok _ _ _ _ Hg). unfold bind, lift. simpl.
    now apply collect_images_inv.
Qed.

Lemma collect_nodes_ok (nodes : list json) :
  forall rss raws acc w,
    all_some node_refs nodes = Some rss ->
    fetches svc (trace w) (concat rss) raws ->
    for_in nodes (collect_node svc) acc w =
    (Ok (acc ++ zip_with entry (concat rss) raws),
     extend w (zip_with view_ok (concat rss) raws)).
Proof.
  induction nodes as [| node nodes IH]; intros rss raws acc w; simpl.
  - intros [= <-]. destruct raws; [| simpl; tauto]. intros _. simpl.
    now rewrite app_nil_r, extend_nil.
  - destruct (node_refs node) as [rs |] eqn:Hr; [| discriminate].
    destruct (all_some node_refs nodes) as [rss' |] eqn:Hall; [| discriminate].
    intros [= <-]. simpl. intros Hf.
    apply fetches_app_inv in Hf as (raws1 & raws2 & -> & H1 & H2).
    unfold bind. rewrite (collect_node_ok _ _ _ _ _ Hr H1).
    rewrite (IH rss' raws2) by (auto; exact H2).
    pose proof (fetches_length _ _ _ H1) as Hlen.
    rewrite !zip_with_app by exact Hlen.
    now rewrite <- app_assoc, extend_extend.
Qed.

Lemma collect_nodes_inv (nodes : list json) :
  forall rss acc w out w',
    all_some node_refs nodes = Some rss ->
    for_in nodes (collect_node svc) acc w = (Ok out, w') ->
    exists raws,
      fetches svc (trace w) (concat rss) raws /\
      out = acc ++ zip_with entry (concat rss) raws /\
      w' = extend w (zip_with view_ok (concat rss) raws).
Proof.
  induction nodes as [| node nodes IH]; intros rss acc w out w'; simpl.
  - intros [= <-] [= <- <-]. exists []. simpl.
    now rewrite app_nil_r, extend_nil.
  - destruct (node_refs node) as [rs |] eqn:Hr; [| discriminate].
    destruct (all_some node_refs nodes) as [rss' |] eqn:Hall; [| discriminate].
    intros [= <-] H. apply bind_ok_inv in H as (acc1 & w1 & H1 & H).
    apply (collect_node_inv _ _ _ _ _ _ Hr) in H1 as (raws1 & Hf1 & -> & ->).
    apply (IH rss') in H as (raws2 & Hf2 & -> & ->); [| reflexivity].
    exists (raws1 ++ raws2). simpl.
    pose proof (fetches_length _ _ _ Hf1) as Hlen.
    rewrite !zip_with_app by exact Hlen.
    rewrite <- app_assoc, extend_extend. split; [| auto].
    now apply fetches_app.
Qed.

Lemma all_some_map {A B C} (f : B -> option C) (g : A -> B) (l : list A) :
  all_some f (map g l) = all_some (fun x => f (g x)) l.
Proof. induction l as [| x l IH]; simpl; [reflexivity |]. now rewrite IH. Qed.

Lemma history_refs_inv (history : json) (refs : list reference) :
  history_refs history = Some refs ->
  exists outputs nodes rss,
    getitem history "outputs" = Ok outputs /\ values outputs = Ok nodes /\
    all_some node_refs nodes = Some rss /\ refs = concat rss.
Proof.
  unfold history_refs.
  destruct (getitem history "outputs") as [[| | | | | | d] |]; try discriminate.
  destruct (all_some _ d) as [rss |] eqn:Hall; [| discriminate].
  intros [= <-]. exists (JObj d), (map snd d), rss. simpl.
  rewrite all_some_map. auto.
Qed.

Lemma collect_outputs_ok (history : json) (refs : list reference)
    (raws : list (list byte)) (w : world) :
  history_refs history = Some refs ->
  fetches svc (trace w) refs raws ->
  collect_outputs svc history w =
  (Ok (result_of (zip_with entry refs raws)),
   extend w (zip_with view_ok refs raws)).
Proof.
  intros Hh Hf. apply history_refs_inv in Hh as (outputs & nodes & rss & Ho & Hv & Hall & ->).
  unfold collect_outputs.
  rewrite (bind_lift_ok _ _ _ _ Ho), (bind_lift_ok _ _ _ _ Hv).
  unfold bind. rewrite (collect_nodes_ok _ _ _ _ _ Hall Hf). simpl.
  now destruct (zip_with entry (concat rss) raws).
Qed.

Lemma collect_outputs_inv (history : json) (refs : list reference)
    (w w' : world) (r : json) :
  history_refs history = Some refs ->
  collect_outputs svc history w = (Ok r, w') ->
  exists raws,
    fetches svc (trace w) refs raws /\
    r = result_of (zip_with entry refs raws) /\
    w' = extend w (zip_with view_ok refs raws).
Proof.
  intros Hh. apply history_refs_inv in Hh as (outputs & nodes & rss & Ho & Hv & Hall & ->).
  unfold collect_outputs.
  rewrite (bind_lift_ok _ _ _ _ Ho), (bind_lift_ok _ _ _ _ Hv).
  intros H. apply bind_ok_inv in H as (out & w1 & H1 & H).
  apply (collect_nodes_inv _ _ _ _ _ _ Hall) in H1 as (raws & Hf & -> & ->).
  simpl in H. exists raws. split; [exact Hf |].
  destruct (zip_with entry (concat rss) raws); injection H as <- <-; auto.
Qed.

End CollectFacts.

(** ** The properties of the specification: collection *)

Lemma handler_after_run (svc : service) (job history : json) (w w1 : world) :
  run_prompt svc job w = (Ok history, w1) ->
  handler svc job w = collect_outputs svc history w1.
Proof. intros H. unfold handler, bind. now rewrite H. Qed.

Lemma zip_with_fetched_length {A} (svc : service) (f : reference -> list byte -> A)
    (tr : list event) (refs : list reference) (raws : list (list byte)) :
  fetches svc tr refs raws -> length (zip_with f refs raws) = length refs.
Proof.
  intros H. apply fetches_length in H. rewrite length_zip_with. lia.
Qed.

(** C2 (as amended).  For a history record with [refs] as its artifact
    references (M of them, node after node), when every retrieval
    succeeds the handler makes exactly M retrievals, one per reference in
    the order of the record, and returns, for M >= 1, the result
    [{"images": entries}] with exactly M entries, the i-th carrying the
    filename of the i-th reference and the base64 text of the bytes
    fetched for it; for M = 0 it returns the no-images outcome instead.
    A node without an "images" key adds nothing and causes no effect. *)
Theorem collection_covers_every_reference :
  forall (svc : service) (job history : json) (w w1 : world)
         (refs : list reference) (raws : list (list byte)),
    run_prompt svc job w = (Ok history, w1) ->
    history_refs history = Some refs ->
    fetches svc (trace w1) refs raws ->
    handler svc job w =
      (Ok (match refs with
           | [] => JObj [("error", JStr "No images generated")]
           | _ => JObj [("images", JArr (zip_with entry refs raws))]
           end),
       extend w1 (zip_with view_ok refs raws)) /\
    length (zip_with view_ok refs raws) = length refs /\
    length (zip_with entry refs raws) = length refs /\
    (forall node acc w0,
        contains node "images" = Ok false ->
        collect_node svc node acc w0 = (Ok acc, w0)).
Proof.
  intros svc job history w w1 refs raws Hrun Hrefs Hfetch.
  split; [| split; [| split]].
  - rewrite (handler_after_run _ _ _ _ _ Hrun).
    rewrite (collect_outputs_ok _ _ _ _ _ Hrefs Hfetch).
    destruct refs as [| r refs]; [destruct raws; reflexivity |].
    destruct raws as [| raw raws]; [simpl in Hfetch; tauto | reflexivity].
  - eapply zip_with_fetched_length, Hfetch.
  - eapply zip_with_fetched_length, Hfetch.
  - intros node acc w0 Hc. unfold collect_node.
    now rewrite (bind_lift_ok _ _ _ _ Hc).
Qed.

(** C3.  When the history record of a completed job holds no artifact
    reference (every output node has no "images" key or an empty
    "images" list), the handler returns [{"error": "No images
    generated"}]: it does not raise, and it makes no retrieval. *)
Theorem no_images_outcome :
  forall (svc : service) (job history : json) (w w1 : world)
         (nodes : list (string * json)),
    run_prompt svc job w = (Ok history, w1) ->
    getitem history "outputs" = Ok (JObj nodes) ->
    Forall (fun kv => node_refs (snd kv) = Some []) nodes ->
    handler svc job w = (Ok (JObj [("error", JStr "No images generated")]), w1).
Proof.
  intros svc job history w w1 nodes Hrun Hout Hnodes.
  assert (Hrefs : history_refs history = Some []).
  { unfold history_refs. rewrite Hout.
    assert (Hall : exists rss, all_some (fun kv => node_refs (snd kv)) nodes = Some rss
                               /\ concat rss = []).
    { clear Hout. induction Hnodes as [| kv nodes Hkv _ (rss & IH1 & IH2)].
      - exists []. auto.
      - exists ([] :: rss). simpl. now rewrite Hkv, IH1. }
    destruct Hall as (rss & -> & ->). reflexivity. }
  rewrite (handler_after_run _ _ _ _ _ Hrun).
  rewrite (collect_outputs_ok svc history [] [] w1 Hrefs I). simpl.
  now rewrite extend_nil.
Qed.

(** C5.  A retrieval that fails fails the invocation: a run whose effects
    include a failed retrieval ends in an exception, and a run that
    returns a result has fetched every reference of the history record:
    the result is the one built from all of them, never from a part. *)
Theorem no_partial_result :
  forall (svc : service) (job : json) (w w' : world) (r : result json),
    handler svc job w = (r, w') ->
    (forall evs f s t,
        trace w' = trace w ++ evs ->
        In (EvView f s t None) evs ->
        exists e, r = Raise e) /\
    (forall history w1 refs res,
        run_prompt svc job w = (Ok history, w1) ->
        history_refs history = Some refs ->
        r = Ok res ->
        exists raws,
          length raws = length refs /\
          fetches svc (trace w1) refs raws /\
          res = result_of (zip_with entry refs raws) /\
          length (zip_with entry refs raws) = length refs).
Proof.
  intros svc job w w' r H. split.
  - intros evs f s t Ht Hin.
    destruct (moves_handler svc job w r w' H) as (evs' & st & Ht' & Hrun & Hok & _).
    rewrite Ht in Ht'. apply app_inv_head in Ht'. subst evs'.
    apply in_split in Hin as (pre & post & ->).
    apply run_split in Hrun as (s1 & s2 & _ & Hstep & Hpost).
    assert (s2 = Failed) as ->
        by (destruct s1; simpl in Hstep; try discriminate; congruence).
    apply run_failed in Hpost as [_ ->].
    destruct r as [res | e]; [| eauto].
    specialize (Hok eq_refl). discriminate.
  - intros history w1 refs res Hrun Hrefs ->.
    rewrite (handler_after_run _ _ _ _ _ Hrun) in H.
    destruct (collect_outputs_inv _ _ _ _ _ _ Hrefs H) as (raws & Hf & Hres & _).
    exists raws. pose proof (fetches_length _ _ _ _ Hf) as Hlen.
    repeat split; auto.
    eapply zip_with_fetched_length, Hf.
Qed.

(** ** The properties of the specification: order and identity *)

Lemma enter_awaiting_completion (cid : string) (pre : list event) :
  run cid Idle pre = Some AwaitingCompletion ->
  exists prompt body, In (EvSubmit prompt cid (Some body)) pre.
Proof.
  induction pre as [| e0 pre0 IH] using rev_ind; [discriminate |].
  intros H. apply run_snoc_inv in H as (s1 & H1 & H2).
  destruct s1, e0; simpl in H2; try discriminate;
    repeat match type of H2 with
           | context [String.eqb ?a ?b] => destruct (String.eqb_spec a b)
           | context [match ?x with _ => _ end] => destruct x
           end; try discriminate.
  - subst. eexists _, _. apply in_or_app. right. left. reflexivity.
  - destruct (IH H1) as (p & b & Hin). exists p, b. apply in_or_app. auto.
Qed.

(** C6 (as amended).  In every run of the handler the push channel is
    opened, under the client identity, right after the liveness request
    that succeeded, and the workflow is submitted right after the channel
    was opened successfully: the connection precedes the submission, and
    no message is received before a submission that succeeded.  In a run
    that reaches the history the effects are, in this order: the
    successful liveness request, the connection, the submission, the
    messages up to the completion signal for the identifier the
    submission returned, the close, the history request for that
    identifier. *)
Theorem connection_precedes_submission :
  forall (svc : service) (job : json) (w w' : world) (r : result json)
         (evs : list event),
    handler svc job w = (r, w') ->
    trace w' = trace w ++ evs ->
    (forall pre c ok post,
        evs = pre ++ EvConnect c ok :: post ->
        c = CLIENT_ID svc /\ exists pre', pre = pre' ++ [EvProbe true]) /\
    (forall pre prompt c reply post,
        evs = pre ++ EvSubmit prompt c reply :: post ->
        c = CLIENT_ID svc /\
        exists pre', pre = pre' ++ [EvProbe true; EvConnect (CLIENT_ID svc) true]) /\
    (forall pre msg post,
        evs = pre ++ EvRecv msg :: post ->
        exists prompt body, In (EvSubmit prompt (CLIENT_ID svc) (Some body)) pre) /\
    (forall history w1,
        run_prompt svc job w = (Ok history, w1) ->
        exists before workflow body res prompt_id earlier msg hbody,
          trace w1 =
          trace w ++ before ++
          [EvProbe true; EvConnect (CLIENT_ID svc) true;
           EvSubmit workflow (CLIENT_ID svc) (Some body)] ++
          received (earlier ++ [msg]) ++
          [EvClose; EvHistory prompt_id (Some hbody)] /\
          json_loads svc body = Some res /\
          getitem res "prompt_id" = Ok prompt_id /\
          completion_signal svc prompt_id msg).
Proof.
  intros svc job w w' r evs H Ht.
  destruct (moves_handler svc job w r w' H) as (evs' & st & Ht' & Hrun & _ & _).
  rewrite Ht in Ht'. apply app_inv_head in Ht'. subst evs'.
  split; [| split; [| split]].
  - intros pre c ok post ->.
    apply run_split in Hrun as (s1 & s2 & Hpre & Hstep & _).
    destruct s1; simpl in Hstep; try discriminate.
    destruct (String.eqb_spec c (CLIENT_ID svc)); [| discriminate].
    split; [assumption |]. now apply enter_ready in Hpre.
  - intros pre prompt c reply post ->.
    apply run_split in Hrun as (s1 & s2 & Hpre & Hstep & _).
    destruct s1; simpl in Hstep; try discriminate.
    destruct (String.eqb_spec c (CLIENT_ID svc)); [| discriminate].
    split; [assumption |].
    apply enter_connected in Hpre as (pre1 & -> & Hpre).
    apply enter_ready in Hpre as (pre2 & ->).
    exists pre2. now rewrite <- app_assoc.
  - intros pre msg post ->.
    apply run_split in Hrun as (s1 & s2 & Hpre & Hstep & _).
    destruct s1; simpl in Hstep; try discriminate.
    now apply enter_awaiting_completion in Hpre.
  - intros history w1 H1.
    apply run_prompt_ok_inv in H1
      as (job_input & workflow & images & imgs & named & k & body & res &
          prompt_id & earlier & msg & hbody & doc & _ & _ & _ & (Hres & Hpid) &
          (_ & _ & Hsig) & _ & Ht1).
    exists (written named ++ failed_attempts k), workflow, body, res, prompt_id,
      earlier, msg, hbody.
    repeat split; auto.
    rewrite Ht1. repeat (rewrite <- app_assoc; simpl). reflexivity.
Qed.

(** C7 (as amended).  The job identifier is the value of the "prompt_id"
    field of the server's reply, taken as it is (nothing checks that it
    is a string or non-empty), and it is stable for the run: the listener
    returns at the first completion signal for that value, the history is
    requested for that value, and the record is the entry stored under
    that value. *)
Theorem job_identifier_stable :
  forall svc : service,
    (forall prompt w body res prompt_id,
        prompt_reply svc (trace w) prompt (CLIENT_ID svc) = Some body ->
        json_loads svc body = Some res ->
        getitem res "prompt_id" = Ok prompt_id ->
        queue_prompt svc prompt w =
        (Ok prompt_id, extend w [EvSubmit prompt (CLIENT_ID svc) (Some body)])) /\
    (forall job w history w1,
        run_prompt svc job w = (Ok history, w1) ->
        exists before workflow body res prompt_id earlier msg hbody doc,
          trace w1 =
          trace w ++ before ++ [EvSubmit workflow (CLIENT_ID svc) (Some body)] ++
          received (earlier ++ [msg]) ++
          [EvClose; EvHistory prompt_id (Some hbody)] /\
          json_loads svc body = Some res /\
          getitem res "prompt_id" = Ok prompt_id /\
          completion_signal svc prompt_id msg /\
          Forall (fun m => ~ completion_signal svc prompt_id m) earlier /\
          json_loads svc hbody = Some doc /\
          subscript doc prompt_id = Ok history).
Proof.
  intros svc. split.
  - intros prompt w body res prompt_id Hrep Hres Hpid.
    unfold queue_prompt, bind, post_prompt. rewrite Hrep.
    unfold lift. rewrite (loads_ok _ _ _ Hres). now rewrite Hpid.
  - intros job w history w1 H.
    apply run_prompt_ok_inv in H
      as (job_input & workflow & images & imgs & named & k & body & res &
          prompt_id & earlier & msg & hbody & doc & _ & _ & _ & (Hres & Hpid) &
          (_ & Hign & Hsig) & (Hdoc & Hsub) & Ht).
    exists (written named ++ failed_attempts k ++
            [EvProbe true; EvConnect (CLIENT_ID svc) true]),
      workflow, body, res, prompt_id, earlier, msg, hbody, doc.
    repeat split; auto.
    + rewrite Ht. repeat (rewrite <- app_assoc; simpl). reflexivity.
    + eapply List.Forall_impl; [| exact Hign]. intros m. apply ignored_not_signal.
Qed.

(** ** The properties of the specification: the input images *)

Section InputFacts.

Variable svc : service.

Local Abbreviation after_ready workflow :=
  (ws_connect svc ;;
   prompt_id <- queue_prompt svc workflow ;;
   wait_for_execution svc prompt_id ;; ws_close ;;
   get_history svc prompt_id)%comfy.

Local Abbreviation after_saving workflow :=
  (ensure_up 120 ;; after_ready workflow)%comfy.

Lemma moves_bind_lift {A B} (r : result A) (k : A -> M B) (s s' : stage) :
  (forall a, r = Ok a -> moves svc (k a) s s') ->
  moves svc (bind (lift r) k) s s'.
Proof.
  intros Hk. destruct r as [a | e].
  - intros w r' w' H. rewrite (bind_lift_ok (Ok a) a k w eq_refl) in H.
    exact (Hk a eq_refl w r' w' H).
  - intros w r' w' [= <- <-]. exists [], s. rewrite app_nil_r. simpl.
    repeat split; auto. discriminate.
Qed.

Lemma moves_after_ready (workflow : json) :
  moves svc (after_ready workflow) Ready CollectingArtifacts.
Proof.
  eapply moves_bind; [apply moves_ws_connect | intros _].
  eapply moves_bind; [apply moves_queue_prompt | intros prompt_id].
  eapply moves_bind; [apply moves_wait_for_execution | intros _].
  eapply moves_bind; [apply moves_ws_close | intros _].
  apply moves_get_history.
Qed.

Lemma ensure_up_first_probe (n : nat) (w w' : world) (r : result unit) :
  ensure_up (S n) w = (r, w') ->
  exists up rest, trace w' = trace w ++ EvProbe up :: rest.
Proof.
  intros H. apply ensure_up_inv in H as (_ & _ & [(_ & k & _ & _ & Ht) | (_ & Ht)]).
  - destruct k as [| k]; rewrite Ht; [exists true, []; reflexivity |].
    rewrite failed_attempts_S. simpl. eauto.
  - rewrite Ht, failed_attempts_S. simpl. eauto.
Qed.

Lemma after_saving_first_probe (workflow : json) (w w' : world) (r : result json) :
  after_saving workflow w = (r, w') ->
  exists up rest, trace w' = trace w ++ EvProbe up :: rest.
Proof.
  intros H. apply bind_inv in H as [([] & w1 & H1 & H2) | (e & H1 & _)].
  - apply ensure_up_first_probe in H1 as (up & rest & Ht).
    apply moves_after_ready in H2 as (evs & _ & Ht2 & _).
    exists up, (rest ++ evs). rewrite Ht2, Ht, <- app_assoc. reflexivity.
  - now apply ensure_up_first_probe in H1.
Qed.

Lemma run_prompt_saved (job job_input workflow : json) (n : nat)
    (imgs : list json) (named : list (string * list byte)) (w : world) :
  getitem job "input" = Ok job_input ->
  getitem job_input "workflow" = Ok workflow ->
  len workflow = Ok n ->
  dict_get_default job_input "images" (JArr []) = Ok (JArr imgs) ->
  Forall2 input_image imgs named ->
  openable svc (trace w) named ->
  run_prompt svc job w =
  after_saving workflow
    {| files := persist named (files w); probes := probes w;
       inbox := inbox w; trace := trace w ++ written named |}.
Proof.
  intros Hji Hwf Hlen Him Hnamed Hopen. unfold run_prompt.
  rewrite (bind_lift_ok _ _ _ _ Hji), (bind_lift_ok _ _ _ _ Hwf),
    (bind_lift_ok _ _ _ _ Him), (bind_lift_ok _ _ _ _ Hlen).
  simpl. unfold bind at 1. unfold lift at 1. unfold bind at 1. unfold lift at 1.
  unfold bind at 1. now rewrite (save_all_ok _ _ _ Hnamed _ Hopen).
Qed.

(** Everything a run does to the files and the trace when the job's
    images are [named]. *)
Lemma handler_saves (job job_input workflow : json) (n : nat)
    (imgs : list json) (named : list (string * list byte))
    (w w' : world) (r : result json) :
  getitem job "input" = Ok job_input ->
  getitem job_input "workflow" = Ok workflow ->
  len workflow = Ok n ->
  dict_get_default job_input "images" (JArr []) = Ok (JArr imgs) ->
  Forall2 input_image imgs named ->
  openable svc (trace w) named ->
  handler svc job w = (r, w') ->
  files w' = persist named (files w) /\
  exists up rest,
    trace w' = trace w ++ written named ++ EvProbe up :: rest /\
    Forall (fun e => is_write e = false) rest.
Proof.
  intros Hji Hwf Hlen Him Hnamed Hopen H.
  pose proof (run_prompt_saved _ _ _ _ _ _ w Hji Hwf Hlen Him Hnamed Hopen) as Hrun.
  set (ws := {| files := persist named (files w); probes := probes w;
                inbox := inbox w; trace := trace w ++ written named |}) in Hrun.
  assert (Hstage : AwaitingReadiness <> Idle) by discriminate.
  assert (Hcoll : CollectingArtifacts <> Idle) by discriminate.
  unfold handler in H. apply bind_inv in H as [(history & w1 & H1 & H2) | (e & H1 & ->)];
    rewrite Hrun in H1.
  - destruct (after_saving_first_probe _ _ _ _ H1) as (up & rest & Hup).
    apply (moves_after_saving svc workflow AwaitingReadiness (or_intror eq_refl))
      in H1 as (evs1 & st1 & Ht1 & Hr1 & Hok1 & Hf1).
    apply moves_collect_outputs in H2 as (evs2 & st2 & Ht2 & Hr2 & _ & Hf2).
    rewrite Ht1 in Hup. apply app_inv_head in Hup. subst evs1.
    split; [rewrite (Hf2 Hcoll), (Hf1 Hstage); reflexivity |].
    exists up, (rest ++ evs2). split.
    + rewrite Ht2, Ht1. simpl. repeat (rewrite <- app_assoc; simpl). reflexivity.
    + apply Forall_app. split.
      * destruct (run_not_idle _ _ _ _ Hr1 Hstage) as [_ Hw].
        now inversion Hw.
      * specialize (Hok1 eq_refl). subst st1.
        now destruct (run_not_idle _ _ _ _ Hr2 Hcoll).
  - destruct (after_saving_first_probe _ _ _ _ H1) as (up & rest & Hup).
    apply (moves_after_saving svc workflow AwaitingReadiness (or_intror eq_refl))
      in H1 as (evs1 & st1 & Ht1 & Hr1 & _ & Hf1).
    rewrite Ht1 in Hup. apply app_inv_head in Hup. subst evs1.
    split; [rewrite (Hf1 Hstage); reflexivity |].
    exists up, rest. split.
    + rewrite Ht1. simpl. now rewrite <- app_assoc.
    + destruct (run_not_idle _ _ _ _ Hr1 Hstage) as [_ Hw]. now inversion Hw.
Qed.

Lemma dict_get_set (k k' : string) (v : json) (d : list (string * json)) :
  dict_get k (dict_set k' v d) =
  if String.eqb k k' then Some v else dict_get k d.
Proof.
  induction d as [| [k0 v0] d IH]; simpl.
  - reflexivity.
  - destruct (String.eqb_spec k' k0) as [-> | Hne]; simpl.
    + destruct (String.eqb_spec k k0); reflexivity.
    + rewrite IH. destruct (String.eqb_spec k k0) as [-> | Hne'].
      * destruct (String.eqb_spec k0 k'); [congruence | reflexivity].
      * reflexivity.
Qed.

(** A job without an "images" field runs as the job with an empty list. *)
Lemma run_prompt_default_images (job job' : json) (d : list (string * json)) :
  getitem job "input" = Ok (JObj d) ->
  getitem job' "input" = Ok (JObj (dict_set "images" (JArr []) d)) ->
  dict_get "images" d = None ->
  forall w, run_prompt svc job w = run_prompt svc job' w.
Proof.
  intros Hji Hji' Hd w. unfold run_prompt.
  rewrite (bind_lift_ok _ _ _ _ Hji), (bind_lift_ok _ _ _ _ Hji').
  unfold getitem, dict_get_default.
  rewrite !dict_get_set, Hd. reflexivity.
Qed.

Lemma moves_run_prompt_default (job : json) (d : list (string * json)) :
  getitem job "input" = Ok (JObj d) ->
  dict_get "images" d = None ->
  moves svc (run_prompt svc job) AwaitingReadiness CollectingArtifacts.
Proof.
  intros Hji Hd. unfold run_prompt.
  apply moves_bind_lift. rewrite Hji. intros job_input [= <-].
  eapply moves_bind; [apply moves_lift | intros workflow].
  apply moves_bind_lift. unfold dict_get_default. rewrite Hd.
  intros images [= <-].
  eapply moves_bind; [apply moves_lift | intros _].
  eapply moves_bind; [apply moves_lift | intros _].
  apply moves_bind_lift. intros imgs [= <-]. simpl.
  eapply moves_bind; [apply moves_ret | intros _].
  apply moves_after_saving. auto.
Qed.

End InputFacts.

Lemma persist_app (named1 named2 : list (string * list byte))
    (fs : gmap string (list byte)) :
  persist (named1 ++ named2) fs = persist named2 (persist named1 fs).
Proof. unfold persist. apply fold_left_app. Qed.

Lemma persist_other (p : string) (named : list (string * list byte)) :
  Forall (fun nd => input_path (fst nd) <> p) named ->
  forall fs : gmap string (list byte), persist named fs !! p = fs !! p.
Proof.
  induction 1 as [| nd named Hnd _ IH]; intros fs; [reflexivity |].
  change (persist (nd :: named) fs)
    with (persist named (<[input_path (fst nd) := snd nd]> fs)).
  rewrite IH. now apply lookup_insert_ne.
Qed.

(** The file holds the payload of the last image saved under its path,
    whatever it held before. *)
Lemma persist_lookup (before after : list (string * list byte))
    (name : string) (data : list byte) (fs : gmap string (list byte)) :
  Forall (fun nd => input_path (fst nd) <> input_path name) after ->
  persist (before ++ (name, data) :: after) fs !! input_path name = Some data.
Proof.
  intros Hafter. rewrite persist_app.
  change (persist ((name, data) :: after) (persist before fs))
    with (persist after (<[input_path name := data]> (persist before fs))).
  rewrite (persist_other _ _ Hafter). apply lookup_insert_eq.
Qed.

(** ** The disk, by location *)

Lemma same_location_spec (a b : list string) :
  same_location a b = true <-> a = b.
Proof.
  revert b. induction a as [| x a IH]; intros [| y b]; simpl;
    try (split; [discriminate | discriminate]); [tauto |].
  rewrite andb_true_iff, String.eqb_eq, IH. split.
  - now intros [-> ->].
  - now intros [= -> ->].
Qed.

Lemma last_written_app (loc : list string) (evs1 evs2 : list event) :
  last_written loc (evs1 ++ evs2) =
  match last_written loc evs2 with
  | Some data => Some data
  | None => last_written loc evs1
  end.
Proof.
  induction evs1 as [| e evs1 IH]; simpl.
  - now destruct (last_written loc evs2).
  - rewrite IH. destruct (last_written loc evs2); [reflexivity |].
    reflexivity.
Qed.

Lemma last_written_none (loc : list string) (evs : list event) :
  Forall (fun e => write_to loc e = None) evs -> last_written loc evs = None.
Proof.
  induction 1 as [| e evs He _ IH]; [reflexivity |]. simpl. now rewrite IH.
Qed.

Lemma write_to_other (loc : list string) (e : event) :
  is_write e = false -> write_to loc e = None.
Proof. now destruct e. Qed.

(** The location of a name holds the payload of the last image whose
    path leads there. *)
Lemma last_written_written (before after : list (string * list byte))
    (name : string) (data : list byte) :
  Forall (fun nd => location (input_path (fst nd)) <> location (input_path name))
    after ->
  last_written (location (input_path name))
    (written (before ++ (name, data) :: after)) = Some data.
Proof.
  intros Hafter. unfold written. rewrite map_app, last_written_app.
  change (map (fun nd => EvWrite (input_path (fst nd)) (snd nd))
            ((name, data) :: after))
    with ([EvWrite (input_path name) data] ++ written after).
  rewrite last_written_app, last_written_none.
  - simpl.
    now rewrite (proj2 (same_location_spec (location (input_path name)) _) eq_refl).
  - unfold written. apply Forall_map.
    eapply List.Forall_impl; [| exact Hafter].
    intros nd Hne. simpl.
    destruct (same_location (location (input_path (fst nd)))
                (location (input_path name))) eqn:Hs; [| reflexivity].
    apply same_location_spec in Hs. now destruct Hne.
Qed.

(** C8.  The input images are saved before the first liveness request:
    no file is written after a liveness request in any run; for a job
    whose images decode to [named], the run starts with one write per
    image, in order, of the decoded payload to the join of the input
    directory and the given name, and the first liveness request follows.
    A write overwrites: the file of a name ends up holding the payload of
    the last image saved there, whatever it held before, the images
    being told apart by where their paths lead ([open] resolves the
    path, so [a.png] and [./a.png] are one file): when no later image
    leads to the location of the name, its payload is what the file
    holds and what the run last wrote to that location.  A job without
    an "images" field writes nothing and runs exactly as the same job
    with an empty list of images. *)
Theorem inputs_saved_before_probe :
  forall (svc : service) (job : json) (w w' : world) (r : result json)
         (evs : list event),
    handler svc job w = (r, w') ->
    trace w' = trace w ++ evs ->
    (forall pre up post,
        evs = pre ++ EvProbe up :: post ->
        Forall (fun e => is_write e = false) post) /\
    (forall job_input workflow n imgs named,
        getitem job "input" = Ok job_input ->
        getitem job_input "workflow" = Ok workflow ->
        len workflow = Ok n ->
        dict_get_default job_input "images" (JArr []) = Ok (JArr imgs) ->
        Forall2 input_image imgs named ->
        openable svc (trace w) named ->
        (exists up rest,
            evs = written named ++ EvProbe up :: rest /\
            Forall (fun e => is_write e = false) rest) /\
        files w' = persist named (files w) /\
        (forall before name data after,
            named = before ++ (name, data) :: after ->
            Forall (fun nd => location (Path.join_str "/input" (fst nd)) <>
                              location (Path.join_str "/input" name)) after ->
            files w' !! Path.join_str "/input" name = Some data /\
            last_written (location (Path.join_str "/input" name)) evs =
            Some data)) /\
    (forall d,
        getitem job "input" = Ok (JObj d) ->
        dict_get "images" d = None ->
        Forall (fun e => is_write e = false) evs /\
        files w' = files w /\
        (forall job',
            getitem job' "input" = Ok (JObj (dict_set "images" (JArr []) d)) ->
            handler svc job' w = (r, w'))).
Proof.
  intros svc job w w' r evs H Ht. split; [| split].
  - intros pre up post ->.
    destruct (moves_handler svc job w r w' H) as (evs' & st & Ht' & Hrun & _ & _).
    rewrite Ht in Ht'. apply app_inv_head in Ht'. subst evs'.
    apply run_split in Hrun as (s1 & s2 & _ & Hstep & Hpost).
    assert (s2 <> Idle)
      by (destruct s1, up; simpl in Hstep; try discriminate; congruence).
    now destruct (run_not_idle _ _ _ _ Hpost H0).
  - intros job_input workflow n imgs named Hji Hwf Hlen Him Hnamed Hopen.
    destruct (handler_saves svc _ _ _ _ _ _ _ _ _ Hji Hwf Hlen Him Hnamed Hopen H)
      as (Hfiles & up & rest & Htr & Hrest).
    rewrite Ht in Htr. apply app_inv_head in Htr.
    split; [eauto |]. split; [exact Hfiles |].
    intros before name data after -> Hafter. split.
    + rewrite Hfiles. apply persist_lookup.
      eapply List.Forall_impl; [| exact Hafter].
      intros nd Hne Heq. apply Hne. unfold input_path, INPUT_DIR in Heq.
      now rewrite Heq.
    + rewrite Htr, last_written_app.
      rewrite (last_written_none _ (EvProbe up :: rest)).
      * now apply last_written_written.
      * constructor; [reflexivity |].
        eapply List.Forall_impl; [| exact Hrest].
        intros e. apply write_to_other.
  - intros d Hji Hd.
    assert (Hm : moves svc (handler svc job) AwaitingReadiness CollectingArtifacts).
    { unfold handler. eapply moves_bind.
      - eapply moves_run_prompt_default; eassumption.
      - intros history. apply moves_collect_outputs. }
    destruct (Hm w r w' H) as (evs' & st & Ht' & Hrun & _ & Hf).
    rewrite Ht in Ht'. apply app_inv_head in Ht'. subst evs'.
    assert (Hne : AwaitingReadiness <> Idle) by discriminate.
    split; [now destruct (run_not_idle _ _ _ _ Hrun Hne) |].
    split; [now apply Hf |].
    intros job' Hji'. rewrite <- H. unfold handler, bind.
    now rewrite (run_prompt_default_images svc job job' d Hji Hji' Hd w).
Qed.

(** C10.  The path an input image is written to is [os.path.join] of
    "/input" and the caller's name, taken as it is: any str is accepted,
    a relative name is appended after a separator, an absolute name
    replaces the directory, and nothing resolves or rejects ".."
    components, so that "../x" names the file "/x", out of the input
    directory. *)
Theorem input_path_is_verbatim_join :
  forall (svc : service) (img : json) (name : string) (image : json)
         (data : list byte) (w : world),
    getitem img "name" = Ok (JStr name) ->
    getitem img "image" = Ok image ->
    Base64.b64decode image = Ok data ->
    can_open svc (trace w) (Path.join_str "/input" name) = true ->
    save_input_image svc img w =
      (Ok tt, {| files := <[Path.join_str "/input" name := data]> (files w);
                 probes := probes w; inbox := inbox w;
                 trace := trace w ++ [EvWrite (Path.join_str "/input" name) data] |}) /\
    Path.join_str "/input" name =
      (if Path.starts_with_sep name then name else "/input/" ++ name)%string /\
    (forall rest,
        name = ("../" ++ rest)%string ->
        Path.components (Path.join_str "/input" name) =
        Path.components ("/" ++ rest)%string) /\
    Path.below ["input"%string]
      (Path.components (Path.join_str "/input" "../etc/passwd")) = false.
Proof.
  intros svc img name image data w Hn Hi Hd Ho.
  split; [| split; [| split]].
  - apply (save_input_image_ok svc img (name, data) w); [| exact Ho].
    split; [exact Hn | eauto].
  - unfold Path.join_str. now destruct (Path.starts_with_sep name).
  - intros rest ->. reflexivity.
  - reflexivity.
Qed.

(** ** The properties of the specification: the round trip *)

Lemma input_image_functional (img : json) (nd1 nd2 : string * list byte) :
  input_image img nd1 -> input_image img nd2 -> nd1 = nd2.
Proof.
  intros (Hn1 & i1 & Hi1 & Hd1) (Hn2 & i2 & Hi2 & Hd2).
  destruct nd1 as [n1 d1], nd2 as [n2 d2]. simpl in *.
  rewrite Hn1 in Hn2. rewrite Hi1 in Hi2. injection Hn2 as ->.
  injection Hi2 as ->. rewrite Hd1 in Hd2. now injection Hd2 as ->.
Qed.

Lemma input_images_functional (imgs : list json) :
  forall named1 named2,
    Forall2 input_image imgs named1 -> Forall2 input_image imgs named2 ->
    named1 = named2.
Proof.
  induction imgs as [| img imgs IH]; intros named1 named2 H1 H2;
    inversion H1; inversion H2; subst; [reflexivity |].
  f_equal; [eapply input_image_functional; eassumption | now apply IH].
Qed.

(** C9.  Round trip of the payload: encoding and then decoding gives the
    bytes back, for all bytes; hence, when an input image decodes to
    [payload] and an output artifact is a byte-for-byte copy of the file
    it was saved to, the "data" of that artifact in the result decodes to
    [payload], the very bytes the supplied base64 decodes to. *)
Theorem image_round_trip :
  forall (svc : service) (job history job_input : json) (w w1 : world)
         (imgs : list json) (before after : list (string * list byte))
         (name : string) (payload : list byte)
         (refs : list reference) (raws : list (list byte))
         (i : nat) (ref : reference) (raw : list byte),
    run_prompt svc job w = (Ok history, w1) ->
    getitem job "input" = Ok job_input ->
    dict_get_default job_input "images" (JArr []) = Ok (JArr imgs) ->
    Forall2 input_image imgs (before ++ (name, payload) :: after) ->
    Forall (fun nd => input_path (fst nd) <> input_path name) after ->
    history_refs history = Some refs ->
    fetches svc (trace w1) refs raws ->
    refs !! i = Some ref ->
    raws !! i = Some raw ->
    files w1 !! Path.join_str "/input" name = Some raw ->
    (forall bytes, Base64.b64decode (JStr (Base64.b64encode bytes)) = Ok bytes) /\
    exists entries data,
      handler svc job w =
        (Ok (JObj [("images", JArr entries)]),
         extend w1 (zip_with view_ok refs raws)) /\
      entries !! i = Some (JObj [("name", filename ref); ("data", JStr data)]) /\
      Base64.b64decode (JStr data) = Ok payload.
Proof.
  intros svc job history job_input w w1 imgs before after name payload refs
    raws i ref raw Hrun Hji Him Hnamed Hafter Hrefs Hfetch Href Hraw Hcopy.
  split; [apply b64decode_b64encode |].
  destruct (run_prompt_ok_inv svc _ _ _ _ Hrun)
    as (job_input' & workflow & images & imgs' & named & _ & _ & _ & _ & _ & _ &
        _ & _ & (Hji' & _ & Him' & Hit) & (Hnamed' & _ & Hfiles) & _).
  rewrite Hji in Hji'. injection Hji' as <-.
  rewrite Him in Him'. injection Him' as <-.
  simpl in Hit. injection Hit as <-.
  rewrite (input_images_functional _ _ _ Hnamed' Hnamed) in Hfiles.
  rewrite Hfiles, (persist_lookup _ _ _ _ _ Hafter) in Hcopy.
  injection Hcopy as <-.
  exists (zip_with entry refs raws), (Base64.b64encode payload).
  split; [| split].
  - rewrite (handler_after_run _ _ _ _ _ Hrun).
    rewrite (collect_outputs_ok _ _ _ _ _ Hrefs Hfetch).
    destruct refs as [| r refs]; [discriminate |].
    destruct raws as [| raw' raws]; [discriminate | reflexivity].
  - rewrite lookup_zip_with, Href. simpl. now rewrite Hraw.
  - apply b64decode_b64encode.
Qed.

(** ** The properties at work on the invocation of [Demo] *)

Lemma wait_for_execution_first_signal_witness :
  wait_for_execution Demo.svc (JStr "p-1") Demo.world0 =
    (Ok tt, {| files := ∅; probes := [false; true];
               inbox := [Text Demo.status];
               trace := received (firstn 5 Demo.frames) |}) /\
  exists earlier msg,
    Demo.frames = earlier ++ msg :: [Text Demo.status] /\
    completion_signal Demo.svc (JStr "p-1") msg.
Proof.
  pose proof (wait_for_execution_first_signal Demo.svc (JStr "p-1") Demo.world0)
    as (Hskip & Hret & _ & _).
  split.
  - apply (Hskip (firstn 4 Demo.frames) (Text (Demo.executing "null" "p-1"))
             [Text Demo.status]).
    + reflexivity.
    + repeat constructor;
        apply (done_inv Demo.svc (JStr "p-1") _ false); vm_compute; reflexivity.
    + apply (done_inv Demo.svc (JStr "p-1") _ true). vm_compute. reflexivity.
  - destruct (Hret {| files := ∅; probes := [false; true];
                      inbox := [Text Demo.status];
                      trace := received (firstn 5 Demo.frames) |})
      as (earlier & msg & Hin & Hsig & _).
    + vm_compute. reflexivity.
    + exists earlier, msg. split; [exact Hin | exact Hsig].
Defined.

Lemma collection_covers_every_reference_witness :
  handler Demo.svc Demo.job Demo.world0 =
    (Ok (JObj [("images",
                JArr [JObj [("name", JStr "out.png"); ("data", JStr "Zm9v")]])]),
     extend Demo.after_run
       [EvView (JStr "out.png") (JStr "") (JStr "output") (Some Demo.foo)]).
Proof.
  apply (proj1 (collection_covers_every_reference Demo.svc Demo.job Demo.history
                  Demo.world0 Demo.after_run [Demo.out_png] [Demo.foo]
                  ltac:(vm_compute; reflexivity) ltac:(reflexivity)
                  ltac:(vm_compute; split; [reflexivity | exact I]))).
Defined.

Lemma no_images_outcome_witness :
  handler Demo.svc_empty Demo.job_without_images Demo.world0 =
    (Ok (JObj [("error", JStr "No images generated")]), Demo.after_empty_run).
Proof.
  apply (no_images_outcome Demo.svc_empty Demo.job_without_images
           Demo.empty_history Demo.world0 Demo.after_empty_run
           [("12", JObj [("text", JArr [JInt 1])]);
            ("9", JObj [("images", JArr [])])]).
  - vm_compute. reflexivity.
  - reflexivity.
  - repeat constructor.
Defined.

(** Without a saved input the demo server has nothing to serve: the one
    retrieval fails and so does the invocation. *)
Lemma no_partial_result_witness :
  exists e, fst (handler Demo.svc Demo.job_without_images Demo.world0) = Raise e.
Proof.
  apply (proj1 (no_partial_result Demo.svc Demo.job_without_images Demo.world0
                  (snd (handler Demo.svc Demo.job_without_images Demo.world0))
                  (fst (handler Demo.svc Demo.job_without_images Demo.world0))
                  ltac:(vm_compute; reflexivity))
           (removelast (trace (snd (handler Demo.svc Demo.job_without_images Demo.world0)))
            ++ [EvView (JStr "out.png") (JStr "") (JStr "output") None])
           (JStr "out.png") (JStr "") (JStr "output")).
  - vm_compute. reflexivity.
  - apply in_or_app. right. left. reflexivity.
Defined.

Lemma connection_precedes_submission_witness :
  exists pre',
    firstn 5 (trace (snd (handler Demo.svc Demo.job Demo.world0))) =
    pre' ++ [EvProbe true; EvConnect "c0ffee" true].
Proof.
  apply (proj1 (proj2 (connection_precedes_submission Demo.svc Demo.job
                         Demo.world0 (snd (handler Demo.svc Demo.job Demo.world0))
                         (fst (handler Demo.svc Demo.job Demo.world0))
                         (trace (snd (handler Demo.svc Demo.job Demo.world0)))
                         ltac:(vm_compute; reflexivity)
                         ltac:(vm_compute; reflexivity)))
           (firstn 5 (trace (snd (handler Demo.svc Demo.job Demo.world0))))
           Demo.workflow "c0ffee"%string (Some (Demo.prompt_body "p-1"))
           (skipn 6 (trace (snd (handler Demo.svc Demo.job Demo.world0))))).
  vm_compute. reflexivity.
Defined.

Lemma job_identifier_stable_witness :
  queue_prompt Demo.svc Demo.workflow Demo.world0 =
    (Ok (JStr "p-1"),
     extend Demo.world0
       [EvSubmit Demo.workflow "c0ffee" (Some (Demo.prompt_body "p-1"))]).
Proof.
  apply (proj1 (job_identifier_stable Demo.svc) Demo.workflow Demo.world0
           (Demo.prompt_body "p-1") (JObj [("prompt_id", JStr "p-1")])).
  - reflexivity.
  - vm_compute. reflexivity.
  - reflexivity.
Defined.

Lemma inputs_saved_before_probe_witness :
  files (snd (handler Demo.svc Demo.job Demo.world0)) =
    <["/input/in.png"%string := Demo.foo]> ∅ /\
  (exists up rest,
      trace (snd (handler Demo.svc Demo.job Demo.world0)) =
      EvWrite "/input/in.png" Demo.foo :: EvProbe up :: rest) /\
  last_written (location "/input/in.png")
    (trace (snd (handler Demo.svc Demo.job Demo.world0))) = Some Demo.foo.
Proof.
  destruct (proj1 (proj2 (inputs_saved_before_probe Demo.svc Demo.job Demo.world0
                            (snd (handler Demo.svc Demo.job Demo.world0))
                            (fst (handler Demo.svc Demo.job Demo.world0))
                            (trace (snd (handler Demo.svc Demo.job Demo.world0)))
                            ltac:(vm_compute; reflexivity)
                            ltac:(vm_compute; reflexivity)))
              (JObj [("workflow", Demo.workflow); ("images", JArr [Demo.image])])
              Demo.workflow 1%nat [Demo.image] [("in.png"%string, Demo.foo)]
              ltac:(reflexivity) ltac:(reflexivity) ltac:(reflexivity)
              ltac:(reflexivity)
              ltac:(repeat constructor; exists (JStr "Zm9v"); split;
                    [reflexivity | vm_compute; reflexivity])
              ltac:(simpl; auto))
    as ((up & rest & Hevs & _) & Hfiles & Hlast).
  split; [exact Hfiles |]. split; [exists up, rest; exact Hevs |].
  exact (proj2 (Hlast [] "in.png"%string Demo.foo [] eq_refl
                  (List.Forall_nil _))).
Defined.

Lemma image_round_trip_witness :
  exists entries data,
    handler Demo.svc Demo.job Demo.world0 =
      (Ok (JObj [("images", JArr entries)]),
       extend Demo.after_run (zip_with view_ok [Demo.out_png] [Demo.foo])) /\
    entries !! 0%nat = Some (JObj [("name", JStr "out.png"); ("data", JStr data)]) /\
    Base64.b64decode (JStr data) = Ok Demo.foo.
Proof.
  apply (proj2 (image_round_trip Demo.svc Demo.job Demo.history
                  (JObj [("workflow", Demo.workflow); ("images", JArr [Demo.image])])
                  Demo.world0 Demo.after_run [Demo.image] [] [] "in.png"%string
                  Demo.foo [Demo.out_png] [Demo.foo] 0%nat Demo.out_png Demo.foo
                  ltac:(vm_compute; reflexivity) ltac:(reflexivity)
                  ltac:(reflexivity)
                  ltac:(repeat constructor; exists (JStr "Zm9v"); split;
                        [reflexivity | vm_compute; reflexivity])
                  ltac:(constructor) ltac:(reflexivity)
                  ltac:(vm_compute; split; [reflexivity | exact I])
                  ltac:(reflexivity) ltac:(reflexivity)
                  ltac:(vm_compute; reflexivity))).
Defined.

Lemma input_path_is_verbatim_join_witness :
  save_input_image Demo.svc Demo.climbing_image Demo.world0 =
    (Ok tt, {| files := <["/input/../etc/passwd"%string := Demo.foo]> ∅;
               probes := [false; true]; inbox := Demo.frames;
               trace := [EvWrite "/input/../etc/passwd" Demo.foo] |}).
Proof.
  apply (proj1 (input_path_is_verbatim_join Demo.svc Demo.climbing_image
                  "../etc/passwd"%string (JStr "Zm9v") Demo.foo Demo.world0
                  ltac:(reflexivity) ltac:(reflexivity)
                  ltac:(vm_compute; reflexivity) ltac:(reflexivity))).
Defined.

(** ** Where the specification says otherwise *)

(** C2 as stated, at a history record without artifact references (M = 0):
    the result is the no-images outcome, which has no "images" list at
    all, so no result with an "images" list of M entries is returned. *)
Lemma no_images_list_without_references :
  run_prompt Demo.svc_empty Demo.job_without_images Demo.world0 =
    (Ok Demo.empty_history, Demo.after_empty_run) /\
  history_refs Demo.empty_history = Some [] /\
  handler Demo.svc_empty Demo.job_without_images Demo.world0 =
    (Ok (JObj [("error", JStr "No images generated")]), Demo.after_empty_run) /\
  getitem (JObj [("error", JStr "No images generated")]) "images" =
    Raise (KeyError (JStr "images")) /\
  ~ (forall svc job w history w1 refs raws,
        run_prompt svc job w = (Ok history, w1) ->
        history_refs history = Some refs ->
        fetches svc (trace w1) refs raws ->
        exists entries w',
          handler svc job w = (Ok (JObj [("images", JArr entries)]), w') /\
          length entries = length refs).
Proof.
  assert (Hrun : run_prompt Demo.svc_empty Demo.job_without_images Demo.world0 =
                 (Ok Demo.empty_history, Demo.after_empty_run))
    by (vm_compute; reflexivity).
  assert (Hhandler : handler Demo.svc_empty Demo.job_without_images Demo.world0 =
                     (Ok (JObj [("error", JStr "No images generated")]),
                      Demo.after_empty_run))
    by (vm_compute; reflexivity).
  split; [exact Hrun |]. split; [reflexivity |]. split; [exact Hhandler |].
  split; [reflexivity |].
  intros Hall.
  destruct (Hall Demo.svc_empty Demo.job_without_images Demo.world0
              Demo.empty_history Demo.after_empty_run [] [] Hrun eq_refl I)
    as (entries & w' & Heq & _).
  rewrite Hhandler in Heq. discriminate.
Qed.

(** C6 as stated, on the demo invocation: the connection is the fifth
    effect and the submission the sixth, so the submission does not
    precede the connection; and when the server refuses the connection
    after answering the liveness request, nothing is submitted at all. *)
Lemma submission_follows_connection :
  trace (snd (handler Demo.svc Demo.job Demo.world0)) !! 4%nat =
    Some (EvConnect "c0ffee" true) /\
  trace (snd (handler Demo.svc Demo.job Demo.world0)) !! 5%nat =
    Some (EvSubmit Demo.workflow "c0ffee" (Some (Demo.prompt_body "p-1"))) /\
  ~ submission_precedes_connection
      (trace (snd (handler Demo.svc Demo.job Demo.world0))) /\
  handler Demo.svc_refusing Demo.job Demo.world0 =
    (Raise WebSocketException,
     {| files := <["/input/in.png"%string := Demo.foo]> ∅; probes := [];
        inbox := Demo.frames;
        trace := [EvWrite "/input/in.png" Demo.foo; EvProbe false; EvSleep 1;
                  EvProbe true; EvConnect "c0ffee" false] |}).
Proof.
  assert (H4 : trace (snd (handler Demo.svc Demo.job Demo.world0)) !! 4%nat =
               Some (EvConnect "c0ffee" true)) by (vm_compute; reflexivity).
  assert (H5 : trace (snd (handler Demo.svc Demo.job Demo.world0)) !! 5%nat =
               Some (EvSubmit Demo.workflow "c0ffee" (Some (Demo.prompt_body "p-1"))))
    by (vm_compute; reflexivity).
  split; [exact H4 |]. split; [exact H5 |]. split.
  - intros Hall. specialize (Hall 5%nat 4%nat _ _ _ _ _ H5 H4). lia.
  - vm_compute. reflexivity.
Qed.

(** C7 as stated, with a server that answers [{"prompt_id": ""}]: the
    submission succeeds and returns the empty string, and the run goes on
    with it to a result. *)
Lemma empty_job_identifier :
  queue_prompt Demo.svc_blank Demo.workflow Demo.world_blank =
    (Ok (JStr ""),
     extend Demo.world_blank
       [EvSubmit Demo.workflow "c0ffee" (Some (Demo.prompt_body ""))]) /\
  fst (handler Demo.svc_blank Demo.job Demo.world_blank) =
    Ok (JObj [("images",
               JArr [JObj [("name", JStr "out.png"); ("data", JStr "Zm9v")]])]) /\
  In (EvHistory (JStr "") (Some (Demo.history_body "")))
     (trace (snd (handler Demo.svc_blank Demo.job Demo.world_blank))) /\
  ~ (forall svc prompt w id w',
        queue_prompt svc prompt w = (Ok id, w') ->
        exists s, id = JStr s /\ s <> ""%string).
Proof.
  assert (Hq : queue_prompt Demo.svc_blank Demo.workflow Demo.world_blank =
               (Ok (JStr ""),
                extend Demo.world_blank
                  [EvSubmit Demo.workflow "c0ffee" (Some (Demo.prompt_body ""))]))
    by (vm_compute; reflexivity).
  split; [exact Hq |]. split; [vm_compute; reflexivity |]. split.
  - vm_compute. tauto.
  - intros Hall. destruct (Hall _ _ _ _ _ Hq) as (s & [= <-] & Hne).
    now apply Hne.
Qed.

(* ================================================================== *)
(** * Further properties of the code                                   *)
(* ================================================================== *)

Import Effects.

(** ** Exceptions and where they come from *)

Lemma lift_inv {A} (r r' : result A) (w w' : world) :
  lift r w = (r', w') -> r' = r /\ w' = w.
Proof. unfold lift. now intros [= -> ->]. Qed.

Lemma getitem_raises (x : json) (k : string) (e : exn) :
  getitem x k = Raise e -> e = KeyError (JStr k) \/ e = TypeError.
Proof.
  destruct x; simpl; try (intros [= <-]; auto).
  destruct (dict_get k fields); [discriminate | intros [= <-]; auto].
Qed.

Lemma len_raises (x : json) (e : exn) : len x = Raise e -> e = TypeError.
Proof. destruct x; simpl; congruence. Qed.

Lemma iter_raises (x : json) (e : exn) : iter x = Raise e -> e = TypeError.
Proof. destruct x; simpl; congruence. Qed.

Lemma values_raises (x : json) (e : exn) : values x = Raise e -> e = AttributeError.
Proof. destruct x; simpl; congruence. Qed.

Lemma contains_raises (x : json) (k : string) (e : exn) :
  contains x k = Raise e -> e = TypeError.
Proof. destruct x; simpl; congruence. Qed.

Lemma dict_get_default_raises (x : json) (k : string) (d : json) (e : exn) :
  dict_get_default x k d = Raise e -> e = AttributeError.
Proof.
  destruct x; simpl; try congruence. destruct (dict_get k fields); discriminate.
Qed.

Lemma loads_raises (svc : service) (s : string) (e : exn) :
  loads svc s = Raise e -> e = JSONDecodeError.
Proof. unfold loads. destruct (json_loads svc s); congruence. Qed.

Lemma b64decode_raises (x : json) (e : exn) :
  Base64.b64decode x = Raise e ->
  e = TypeError \/ e = ValueError \/ e = BinasciiError.
Proof.
  destruct x; simpl; try (intros [= <-]; auto).
  destruct (Base64.is_ascii s); [| intros [= <-]; auto].
  destruct (Base64.a2b_base64 s); [discriminate | intros [= <-]; auto].
Qed.

Lemma join_raises (a : string) (x : json) (e : exn) :
  Path.join a x = Raise e -> e = TypeError.
Proof. destruct x; simpl; congruence. Qed.

Lemma subscript_raises (x k : json) (e : exn) :
  subscript x k = Raise e ->
  e = KeyError k \/ e = TypeError \/ e = IndexError.
Proof.
  destruct x; simpl; try (intros [= <-]; auto).
  - destruct (index_of k) as [n |]; [| intros [= <-]; auto].
    destruct (_ <? 0)%Z; [intros [= <-]; auto |].
    destruct (nth_error _ _); [discriminate | intros [= <-]; auto].
  - destruct (index_of k) as [n |]; [| intros [= <-]; auto].
    destruct (_ <? 0)%Z; [intros [= <-]; auto |].
    destruct (nth_error _ _); [discriminate | intros [= <-]; auto].
  - destruct k; try (intros [= <-]; auto).
    destruct (dict_get s fields); [discriminate | intros [= <-]; auto].
Qed.

(** Only the liveness loop raises a [RuntimeError]. *)
Section QuietFacts.

Variable svc : service.

Lemma quiet_lift {A} (r : result A) :
  (forall e, r = Raise e -> is_runtime_error e = false) -> quiet (lift r).
Proof. intros H w e w' [= -> _]. now apply H. Qed.

Lemma quiet_ret {A} (a : A) : quiet (ret a).
Proof. intros w e w'. discriminate. Qed.

Lemma quiet_bind {A B} (m : M A) (k : A -> M B) :
  quiet m -> (forall a, quiet (k a)) -> quiet (bind m k).
Proof.
  intros Hm Hk w e w' H.
  apply bind_inv in H as [(a & w1 & H1 & H2) | (e' & H1 & [= ->])].
  - exact (Hk a _ _ _ H2).
  - exact (Hm _ _ _ H1).
Qed.

Lemma quiet_for_in {A S} (body : A -> S -> M S) (l : list A) :
  (forall x acc, quiet (body x acc)) -> forall acc, quiet (for_in l body acc).
Proof.
  intros Hb. induction l as [| x l IH]; intros acc; simpl.
  - apply quiet_ret.
  - apply quiet_bind; [apply Hb | apply IH].
Qed.

Ltac quiet_pure :=
  apply quiet_lift; intros ? ?;
  repeat match goal with
         | H : getitem _ _ = Raise _ |- _ => apply getitem_raises in H
         | H : len _ = Raise _ |- _ => apply len_raises in H
         | H : iter _ = Raise _ |- _ => apply iter_raises in H
         | H : values _ = Raise _ |- _ => apply values_raises in H
         | H : contains _ _ = Raise _ |- _ => apply contains_raises in H
         | H : dict_get_default _ _ _ = Raise _ |- _ =>
             apply dict_get_default_raises in H
         | H : loads _ _ = Raise _ |- _ => apply loads_raises in H
         | H : Base64.b64decode _ = Raise _ |- _ => apply b64decode_raises in H
         | H : Path.join _ _ = Raise _ |- _ => apply join_raises in H
         | H : subscript _ _ = Raise _ |- _ => apply subscript_raises in H
         | H : _ \/ _ |- _ => destruct H
         | H : _ = _ |- _ => subst
         end; reflexivity.

Lemma quiet_save_input_image (img : json) : quiet (save_input_image svc img).
Proof.
  unfold save_input_image.
  repeat (apply quiet_bind; [quiet_pure | intros ?]).
  intros w e w'. unfold write_file.
  destruct (can_open svc (trace w) a2); [discriminate | now intros [= <- _]].
Qed.

Lemma execution_done_raises (prompt_id : json) (msg : frame) (e : exn) :
  execution_done svc prompt_id msg = Raise e -> is_runtime_error e = false.
Proof.
  destruct msg as [s | b]; simpl; [| discriminate].
  destruct (loads svc s) as [data |] eqn:Hl;
    [| intros [= <-]; apply loads_raises in Hl; now subst].
  destruct (getitem data "type") as [ty |] eqn:Ht;
    [| intros [= <-]; apply getitem_raises in Ht as [-> | ->]; reflexivity].
  destruct (py_eq ty (JStr "executing")); [| discriminate].
  destruct (getitem data "data") as [d |] eqn:Hd;
    [| intros [= <-]; apply getitem_raises in Hd as [-> | ->]; reflexivity].
  destruct (getitem d "node") as [node |] eqn:Hn;
    [| intros [= <-]; apply getitem_raises in Hn as [-> | ->]; reflexivity].
  destruct (is_none node); [| discriminate].
  destruct (getitem d "prompt_id") as [p |] eqn:Hp;
    [discriminate
    | intros [= <-]; apply getitem_raises in Hp as [-> | ->]; reflexivity].
Qed.

Lemma quiet_wait_for_execution (prompt_id : json) :
  quiet (wait_for_execution svc prompt_id).
Proof.
  intros w e w'. unfold wait_for_execution. generalize (inbox w) as msgs.
  intros msgs. revert w. induction msgs as [| m msgs IH]; intros w; simpl.
  - now intros [= <- _].
  - destruct (execution_done svc prompt_id m) as [[|] | e0] eqn:Hd.
    + discriminate.
    + apply IH.
    + intros [= <- _]. exact (execution_done_raises _ _ _ Hd).
Qed.

Lemma quiet_after_ready (workflow : json) :
  quiet (ws_connect svc ;;
         prompt_id <- queue_prompt svc workflow ;;
         wait_for_execution svc prompt_id ;; ws_close ;;
         get_history svc prompt_id).
Proof.
  apply quiet_bind; [| intros _].
  { intros w e w'. unfold ws_connect.
    destruct (accepts svc (trace w) (CLIENT_ID svc)); [discriminate | now intros [= <- _]]. }
  apply quiet_bind; [| intros prompt_id].
  { unfold queue_prompt. apply quiet_bind; [| intros body].
    - intros w e w'. unfold post_prompt.
      destruct (prompt_reply svc _ _ _); [discriminate | now intros [= <- _]].
    - apply quiet_bind; [quiet_pure | intros res]. quiet_pure. }
  apply quiet_bind; [apply quiet_wait_for_execution | intros _].
  apply quiet_bind; [intros w e w'; discriminate | intros _].
  unfold get_history. apply quiet_bind; [| intros body].
  - intros w e w'. unfold fetch_history.
    destruct (history_reply svc _ _); [discriminate | now intros [= <- _]].
  - apply quiet_bind; [quiet_pure | intros doc]. quiet_pure.
Qed.

Lemma quiet_collect_outputs (history : json) : quiet (collect_outputs svc history).
Proof.
  unfold collect_outputs.
  repeat (apply quiet_bind; [quiet_pure | intros ?]).
  apply quiet_bind.
  - apply quiet_for_in. intros node acc. unfold collect_node.
    apply quiet_bind; [quiet_pure | intros has].
    destruct (negb has); [apply quiet_ret |].
    repeat (apply quiet_bind; [quiet_pure | intros ?]).
    apply quiet_for_in. intros img acc'. unfold collect_image.
    repeat (apply quiet_bind; [quiet_pure | intros ?]).
    apply quiet_bind; [| intros raw].
    + intros w e w'. unfold get_image.
      destruct (view_reply svc _ _ _ _); [discriminate | now intros [= <- _]].
    + apply quiet_bind; [quiet_pure | intros ?]. apply quiet_ret.
  - intros out. destruct out; apply quiet_ret.
Qed.

End QuietFacts.

(** ** Reading the job *)

Section PrepareFacts.

Variable svc : service.

Local Abbreviation after_ready workflow :=
  (ws_connect svc ;;
   prompt_id <- queue_prompt svc workflow ;;
   wait_for_execution svc prompt_id ;; ws_close ;;
   get_history svc prompt_id)%comfy.

Local Abbreviation save_all imgs :=
  (for_in imgs (fun img (_ : unit) => save_input_image svc img) tt).

Lemma run_prompt_prepared (job workflow : json) (imgs : list json) (w : world) :
  prepared job workflow imgs ->
  run_prompt svc job w =
  (save_all imgs ;; ensure_up 120 ;; after_ready workflow) w.
Proof.
  intros (job_input & images & n & m & Hji & Hwf & Him & Hn & Hm & Hit).
  unfold run_prompt.
  now rewrite (bind_lift_ok _ _ _ _ Hji), (bind_lift_ok _ _ _ _ Hwf),
    (bind_lift_ok _ _ _ _ Him), (bind_lift_ok _ _ _ _ Hn),
    (bind_lift_ok _ _ _ _ Hm), (bind_lift_ok _ _ _ _ Hit).
Qed.

(** A job that cannot be read is refused before anything is done. *)
Lemma run_prompt_unprepared (job : json) (w w' : world) (r : result json) :
  run_prompt svc job w = (r, w') ->
  (exists workflow imgs, prepared job workflow imgs) \/
  (exists e, r = Raise e /\ w' = w /\ is_runtime_error e = false).
Proof.
  unfold run_prompt. intros H.
  destruct (getitem job "input") as [job_input |] eqn:Hji.
  2:{ right. apply lift_inv in H as [-> ->]. eexists. repeat split.
      apply getitem_raises in Hji as [-> | ->]; reflexivity. }
  rewrite (bind_lift_ok _ _ _ _ eq_refl) in H.
  destruct (getitem job_input "workflow") as [workflow |] eqn:Hwf.
  2:{ right. apply lift_inv in H as [-> ->]. eexists. repeat split.
      apply getitem_raises in Hwf as [-> | ->]; reflexivity. }
  rewrite (bind_lift_ok _ _ _ _ eq_refl) in H.
  destruct (dict_get_default job_input "images" (JArr [])) as [images |] eqn:Him.
  2:{ right. apply lift_inv in H as [-> ->]. eexists. repeat split.
      apply dict_get_default_raises in Him as ->. reflexivity. }
  rewrite (bind_lift_ok _ _ _ _ eq_refl) in H.
  destruct (len workflow) as [n |] eqn:Hn.
  2:{ right. apply lift_inv in H as [-> ->]. eexists. repeat split.
      apply len_raises in Hn as ->. reflexivity. }
  rewrite (bind_lift_ok _ _ _ _ eq_refl) in H.
  destruct (len images) as [m |] eqn:Hm.
  2:{ right. apply lift_inv in H as [-> ->]. eexists. repeat split.
      apply len_raises in Hm as ->. reflexivity. }
  rewrite (bind_lift_ok _ _ _ _ eq_refl) in H.
  destruct (iter images) as [imgs |] eqn:Hit.
  2:{ right. apply lift_inv in H as [-> ->]. eexists. repeat split.
      apply iter_raises in Hit as ->. reflexivity. }
  left. exists workflow, imgs, job_input, images, n, m. auto 10.
Qed.

Lemma prepared_functional (job workflow workflow' : json) (imgs imgs' : list json) :
  prepared job workflow imgs -> prepared job workflow' imgs' ->
  workflow' = workflow /\ imgs' = imgs.
Proof.
  intros (ji & im & n & m & Hji & Hwf & Him & _ & _ & Hit)
         (ji' & im' & n' & m' & Hji' & Hwf' & Him' & _ & _ & Hit').
  rewrite Hji in Hji'. injection Hji' as <-.
  rewrite Hwf in Hwf'. injection Hwf' as <-.
  rewrite Him in Him'. injection Him' as <-.
  rewrite Hit in Hit'. injection Hit' as <-. auto.
Qed.

Lemma for_in_app {A S} (body : A -> S -> M S) (l1 l2 : list A) (acc : S) (w : world) :
  for_in (l1 ++ l2) body acc w =
  (acc' <- for_in l1 body acc ;; for_in l2 body acc') w.
Proof.
  revert acc w. induction l1 as [| x l1 IH]; intros acc w; simpl.
  - reflexivity.
  - unfold bind. destruct (body x acc w) as [[acc1 | e] w1].
    + rewrite IH. reflexivity.
    + reflexivity.
Qed.

End PrepareFacts.

(** When the liveness loop gives up, every request it could make has
    failed; and when they all fail, it gives up. *)
Lemma ensure_up_down (n : nat) :
  forall w e w',
    ensure_up n w = (Raise e, w') ->
    forall i, (i < n)%nat -> nth i (probes w) false = false.
Proof.
  induction n as [| n IH]; intros w e w' H i Hi; [lia |].
  simpl in H. unfold bind at 1 in H. unfold attempt, urlopen_base in H.
  destruct (probes w) as [| [|] ps] eqn:Hp; simpl in H.
  - now destruct i.
  - discriminate.
  - unfold bind, sleep, emit in H. simpl in H.
    destruct i as [| i]; [reflexivity |]. simpl.
    apply (IH _ _ _ H i). lia.
Qed.

Lemma ensure_up_fails (n : nat) :
  forall w,
    (forall i, (i < n)%nat -> nth i (probes w) false = false) ->
    ensure_up n w =
    (Raise (RuntimeError "ComfyUI not responding"),
     {| files := files w; probes := skipn n (probes w); inbox := inbox w;
        trace := trace w ++ failed_attempts n |}).
Proof.
  induction n as [| n IH]; intros w Hdown; simpl.
  - unfold raise. rewrite app_nil_r. now destruct w.
  - unfold bind at 1. unfold attempt, urlopen_base.
    pose proof (Hdown 0%nat ltac:(lia)) as H0.
    destruct (probes w) as [| up ps] eqn:Hp; simpl in *.
    + unfold bind, sleep, emit. simpl. rewrite IH.
      * simpl. rewrite skipn_nil, <- !app_assoc. reflexivity.
      * intros i _. simpl. now destruct i.
    + subst up. unfold bind, sleep, emit. simpl. rewrite IH.
      * simpl. rewrite <- !app_assoc. reflexivity.
      * intros i Hi. simpl. apply (Hdown (S i)). lia.
Qed.


(** ** Jobs that cannot be read, images that cannot be saved *)

Lemma handler_unprepared (svc : service) (job : json) (w w' : world)
    (r : result json) :
  handler svc job w = (r, w') ->
  (forall workflow imgs, ~ prepared job workflow imgs) ->
  w' = w /\ exists e, r = Raise e.
Proof.
  intros H Hnot. unfold handler in H.
  apply bind_inv in H as [(history & w1 & H & _) | (e & H & ->)];
    destruct (run_prompt_unprepared svc _ _ _ _ H)
      as [(workflow & imgs & Hprep) | (e' & He & -> & _)];
    try (now destruct (Hnot _ _ Hprep)); [discriminate | eauto].
Qed.

(** X1.  A job that cannot be read is refused before anything is done:
    the handler raises and leaves the world as it was (no file written,
    no request made), whatever images the job carries.  So it is for a
    job without "input", for an input without "workflow" (a [KeyError]),
    for a workflow that has no length, such as a number (a [TypeError]),
    and for ["images": null], which is not the same as leaving the field
    out (a [TypeError]). *)
Theorem unreadable_job_refused_untouched :
  forall (svc : service) (job : json) (w : world),
    (forall r w',
        handler svc job w = (r, w') ->
        (forall workflow imgs, ~ prepared job workflow imgs) ->
        w' = w /\ exists e, r = Raise e) /\
    (forall e,
        getitem job "input" = Raise e -> handler svc job w = (Raise e, w)) /\
    (forall d,
        getitem job "input" = Ok (JObj d) ->
        dict_get "workflow" d = None ->
        handler svc job w = (Raise (KeyError (JStr "workflow")), w)) /\
    (forall d z,
        getitem job "input" = Ok (JObj d) ->
        dict_get "workflow" d = Some (JInt z) ->
        handler svc job w = (Raise TypeError, w)) /\
    (forall d workflow n,
        getitem job "input" = Ok (JObj d) ->
        dict_get "workflow" d = Some workflow ->
        len workflow = Ok n ->
        dict_get "images" d = Some JNull ->
        handler svc job w = (Raise TypeError, w)).
Proof.
  intros svc job w. split; [| split; [| split; [| split]]].
  - intros r w' H Hnot. eapply handler_unprepared; eassumption.
  - intros e He. unfold handler, run_prompt, bind, lift. now rewrite He.
  - intros d Hji Hwf. unfold handler, run_prompt, bind, lift. rewrite Hji.
    simpl. now rewrite Hwf.
  - intros d z Hji Hwf. unfold handler, run_prompt, bind, lift. rewrite Hji.
    simpl. rewrite Hwf. now destruct (dict_get "images" d).
  - intros d workflow n Hji Hwf Hlen Him.
    unfold handler, run_prompt, bind, lift. rewrite Hji. simpl.
    now rewrite Hwf, Him, Hlen.
Qed.

Lemma save_input_image_raise_inv (svc : service) (img : json) (w w' : world)
    (e : exn) :
  save_input_image svc img w = (Raise e, w') ->
  files w' = files w /\ probes w' = probes w /\ inbox w' = inbox w /\
  (trace w' = trace w \/ exists path, trace w' = trace w ++ [EvOpenFailed path]).
Proof.
  unfold save_input_image. intros H.
  apply bind_inv in H as [(name & w1 & H1 & H) | (e1 & H & _)];
    [apply lift_ok_inv in H1 as [_ ->] | apply lift_inv in H as [_ ->]; auto].
  apply bind_inv in H as [(image & w1 & H1 & H) | (e1 & H & _)];
    [apply lift_ok_inv in H1 as [_ ->] | apply lift_inv in H as [_ ->]; auto].
  apply bind_inv in H as [(data & w1 & H1 & H) | (e1 & H & _)];
    [apply lift_ok_inv in H1 as [_ ->] | apply lift_inv in H as [_ ->]; auto].
  apply bind_inv in H as [(path & w1 & H1 & H) | (e1 & H & _)];
    [apply lift_ok_inv in H1 as [_ ->] | apply lift_inv in H as [_ ->]; auto].
  unfold write_file in H.
  destruct (can_open svc (trace w) path); [discriminate |].
  injection H as _ <-. simpl. eauto 10.
Qed.

(** X2.  Saving is not all-or-nothing: when the images before a bad one
    are in order, they are written, the bad one makes the handler raise
    with its own exception, and the run ends there: the files written so
    far stay, the later images are not looked at, and no liveness request
    is made. *)
Theorem failed_image_keeps_earlier_files :
  forall (svc : service) (job workflow : json) (w wb : world)
         (good : list json) (bad : json) (rest : list json)
         (named : list (string * list byte)) (e : exn),
    prepared job workflow (good ++ bad :: rest) ->
    Forall2 input_image good named ->
    openable svc (trace w) named ->
    save_input_image svc bad
      {| files := persist named (files w); probes := probes w;
         inbox := inbox w; trace := trace w ++ written named |} = (Raise e, wb) ->
    handler svc job w = (Raise e, wb) /\
    files wb = persist named (files w) /\
    probes wb = probes w /\ inbox wb = inbox w /\
    (trace wb = trace w ++ written named \/
     exists path, trace wb = trace w ++ written named ++ [EvOpenFailed path]).
Proof.
  intros svc job workflow w wb good bad rest named e Hprep Hgood Hopen Hbad.
  split.
  - unfold handler, bind at 1.
    rewrite (run_prompt_prepared svc _ _ _ w Hprep).
    unfold bind at 1. rewrite for_in_app. unfold bind at 1.
    rewrite (save_all_ok svc _ _ Hgood w Hopen). simpl.
    unfold bind at 1. now rewrite Hbad.
  - apply save_input_image_raise_inv in Hbad as (Hf & Hp & Hi & Ht).
    simpl in *. repeat split; auto.
    destruct Ht as [Ht | (path & Ht)]; [auto | right].
    exists path. now rewrite Ht, <- app_assoc.
Qed.

(** ** Nothing is done twice *)

Section RankFacts.

Variable cid : string.

Lemma step_rank (s s' : stage) (e : event) :
  step cid s e = Some s' -> (rank s <= rank s')%nat.
Proof.
  destruct s, e; simpl; try discriminate;
    repeat match goal with
           | |- context [match ?x with _ => _ end] => destruct x
           end; try discriminate; intros [= <-]; simpl; lia.
Qed.

(** The four effects made at most once each need their own stage, and
    leave it for a later one. *)
Lemma step_single (s s' : stage) (e : event) (n : nat) :
  step cid s e = Some s' -> single e = Some n ->
  rank s = (n + 2)%nat /\ (n + 2 < rank s')%nat.
Proof.
  destruct s, e; simpl; try discriminate;
    repeat match goal with
           | |- context [match ?x with _ => _ end] => destruct x
           end; try discriminate; intros [= <-] [= <-]; simpl; lia.
Qed.

Lemma none_after (n : nat) (evs : list event) :
  forall s st,
    run cid s evs = Some st -> (n + 2 < rank s)%nat ->
    Forall (fun e => single e <> Some n) evs.
Proof.
  induction evs as [| e evs IH]; intros s st; simpl; [auto |].
  destruct (step cid s e) as [s1 |] eqn:Hs; [| discriminate].
  intros Hr Hlt. pose proof (step_rank _ _ _ Hs) as Hle. constructor.
  - intros Hn. destruct (step_single _ _ _ _ Hs Hn). lia.
  - apply (IH s1 st Hr). lia.
Qed.

End RankFacts.

(** X5.  Nothing is retried and nothing is done twice: in every run, once
    the websocket connection has been attempted no other connection is
    attempted, and likewise there is at most one submission of the
    workflow, one close of the websocket and one history request. *)
Theorem at_most_one_of_each :
  forall (svc : service) (job : json) (w w' : world) (r : result json)
         (before : list event) (e : event) (after : list event) (n : nat),
    handler svc job w = (r, w') ->
    trace w' = trace w ++ before ++ e :: after ->
    single e = Some n ->
    Forall (fun e' => single e' <> Some n) (before ++ after).
Proof.
  intros svc job w w' r before e after n H Ht Hn.
  destruct (moves_handler svc job w r w' H) as (evs & st & Ht' & Hrun & _ & _).
  rewrite Ht in Ht'. apply app_inv_head in Ht'. subst evs.
  apply run_split in Hrun as (s1 & s2 & Hpre & Hstep & Hpost).
  destruct (step_single _ _ _ _ _ Hstep Hn) as [Hs1 Hs2].
  apply Forall_app. split.
  - (* an earlier one would have left the stage this one needs *)
    apply List.Forall_forall. intros e' Hin Hn'.
    apply in_split in Hin as (a & b & ->).
    apply run_split in Hpre as (t1 & t2 & _ & Hstep' & Hb).
    destruct (step_single _ _ _ _ _ Hstep' Hn') as [_ Ht2].
    assert (Hmono : forall evs s st, run (CLIENT_ID svc) s evs = Some st ->
                                     (rank s <= rank st)%nat).
    { clear. induction evs as [| x evs IH]; intros s st; simpl.
      - intros [= <-]. lia.
      - destruct (step (CLIENT_ID svc) s x) as [s' |] eqn:Hs; [| discriminate].
        intros Hr. apply step_rank in Hs. apply IH in Hr. lia. }
    apply Hmono in Hb. lia.
  - eapply none_after; eassumption.
Qed.

(** ** Every effect, one by one *)

Lemma replay_app (evs1 evs2 : list event) (fs : gmap string (list byte)) :
  replay (evs1 ++ evs2) fs = replay evs2 (replay evs1 fs).
Proof. unfold replay. apply fold_left_app. Qed.

Section EmitsFacts.

Variable svc : service.
Variable P : event -> Prop.

Local Abbreviation cid := (CLIENT_ID svc).

Lemma emits_lift {A} (r : result A) : emits P (lift r).
Proof.
  intros w r' w' [= <- <-]. exists []. rewrite app_nil_r. simpl. auto.
Qed.

Lemma emits_ret {A} (a : A) : emits P (ret a).
Proof.
  intros w r' w' [= <- <-]. exists []. rewrite app_nil_r. simpl. auto.
Qed.

Lemma emits_bind {A B} (m : M A) (k : A -> M B) :
  emits P m -> (forall a, emits P (k a)) -> emits P (bind m k).
Proof.
  intros Hm Hk w r w' H.
  apply bind_inv in H as [(a & w1 & H1 & H2) | (e & H1 & ->)].
  - apply Hm in H1 as (evs1 & Ht1 & HP1 & Hf1).
    apply Hk in H2 as (evs2 & Ht2 & HP2 & Hf2).
    exists (evs1 ++ evs2). rewrite Ht2, Ht1, <- app_assoc, replay_app, <- Hf1.
    repeat split; auto. apply Forall_app. auto.
  - apply Hm in H1 as (evs1 & Ht1 & HP1 & Hf1). eauto.
Qed.

Lemma emits_bind_lift {A B} (r : result A) (k : A -> M B) :
  (forall a, r = Ok a -> emits P (k a)) -> emits P (bind (lift r) k).
Proof.
  intros Hk. destruct r as [a | e].
  - intros w r' w' H. rewrite (bind_lift_ok (Ok a) a k w eq_refl) in H.
    exact (Hk a eq_refl w r' w' H).
  - intros w r' w' [= <- <-]. exists []. rewrite app_nil_r. simpl. auto.
Qed.

Lemma emits_for_in {A S} (body : A -> S -> M S) (l : list A) :
  (forall x acc, In x l -> emits P (body x acc)) ->
  forall acc, emits P (for_in l body acc).
Proof.
  induction l as [| x l IH]; intros Hb acc; simpl.
  - apply emits_ret.
  - apply emits_bind; [apply Hb; now left |].
    intros acc'. apply IH. intros y acc'' Hy. apply Hb. now right.
Qed.

(** An action that leaves one effect. *)
Lemma emits_event {A} (m : M A) :
  (forall w r w', m w = (r, w') ->
     exists e, P e /\ trace w' = trace w ++ [e] /\
               files w' = apply_write (files w) e) ->
  emits P m.
Proof.
  intros H w r w' Hm. apply H in Hm as (e & He & Ht & Hf).
  exists [e]. simpl. auto.
Qed.

Lemma emits_write_file (path : string) (data : list byte) :
  P (EvWrite path data) -> P (EvOpenFailed path) ->
  emits P (write_file svc path data).
Proof.
  intros Hw Ho. apply emits_event. intros w r w'. unfold write_file.
  destruct (can_open svc (trace w) path); intros [= <- <-]; simpl; eauto.
Qed.

Lemma replay_failed_attempts (k : nat) (fs : gmap string (list byte)) :
  replay (failed_attempts k) fs = fs.
Proof. induction k as [| k IH]; [reflexivity | exact IH]. Qed.

Lemma emits_ensure_up (n : nat) :
  (forall up, P (EvProbe up)) -> P (EvSleep 1) -> emits P (ensure_up n).
Proof.
  intros Hp Hs w r w' H.
  assert (Hfa : forall k, Forall P (failed_attempts k)).
  { induction k as [| k IH]; [constructor |].
    rewrite failed_attempts_S. auto. }
  apply ensure_up_inv in H as (Hf & _ & [(_ & k & _ & _ & Ht) | (_ & Ht)]).
  - exists (failed_attempts k ++ [EvProbe true]).
    rewrite replay_app, replay_failed_attempts. simpl.
    repeat split; auto. apply Forall_app. auto.
  - exists (failed_attempts n). rewrite replay_failed_attempts. auto.
Qed.

Lemma emits_ws_connect :
  (forall ok, P (EvConnect cid ok)) -> emits P (ws_connect svc).
Proof.
  intros Hc. apply emits_event. intros w r w'. unfold ws_connect.
  intros [= <- <-]. simpl. eauto.
Qed.

Lemma emits_queue_prompt (prompt : json) :
  (forall reply, P (EvSubmit prompt cid reply)) ->
  emits P (queue_prompt svc prompt).
Proof.
  intros Hs. unfold queue_prompt. apply emits_bind.
  - apply emits_event. intros w r w'. unfold post_prompt.
    intros [= <- <-]. simpl. eauto.
  - intros body. apply emits_bind; [apply emits_lift | intros res].
    apply emits_lift.
Qed.

Lemma emits_wait_for_execution (prompt_id : json) :
  (forall msg, P (EvRecv msg)) -> emits P (wait_for_execution svc prompt_id).
Proof.
  intros Hr w r w'. unfold wait_for_execution. generalize (inbox w) as msgs.
  intros msgs. revert w. induction msgs as [| m msgs IH]; intros w; simpl.
  - intros [= <- <-]. exists [EvRecv None]. simpl. auto.
  - destruct (execution_done svc prompt_id m) as [[|] | e].
    + intros [= <- <-]. exists [EvRecv (Some m)]. simpl. auto.
    + intros H. apply IH in H as (evs & Ht & HP & Hf). simpl in *.
      exists (EvRecv (Some m) :: evs). simpl. rewrite Ht, <- app_assoc. auto.
    + intros [= <- <-]. exists [EvRecv (Some m)]. simpl. auto.
Qed.

Lemma emits_ws_close : P EvClose -> emits P ws_close.
Proof.
  intros Hc. apply emits_event. intros w r w'. unfold ws_close, emit.
  intros [= <- <-]. simpl. eauto.
Qed.

Lemma emits_get_history (prompt_id : json) :
  (forall reply, P (EvHistory prompt_id reply)) ->
  emits P (get_history svc prompt_id).
Proof.
  intros Hh. unfold get_history. apply emits_bind.
  - apply emits_event. intros w r w'. unfold fetch_history.
    intros [= <- <-]. simpl. eauto.
  - intros body. apply emits_bind; [apply emits_lift | intros doc].
    apply emits_lift.
Qed.

Lemma emits_collect_outputs (history : json) :
  (forall f s t reply, P (EvView f s t reply)) ->
  emits P (collect_outputs svc history).
Proof.
  intros Hv. unfold collect_outputs.
  repeat (apply emits_bind; [apply emits_lift | intros ?]).
  apply emits_bind.
  - apply emits_for_in. intros node acc _. unfold collect_node.
    apply emits_bind; [apply emits_lift | intros has].
    destruct (negb has); [apply emits_ret |].
    repeat (apply emits_bind; [apply emits_lift | intros ?]).
    apply emits_for_in. intros img acc' _. unfold collect_image.
    repeat (apply emits_bind; [apply emits_lift | intros ?]).
    apply emits_bind.
    + apply emits_event. intros w r w'. unfold get_image.
      intros [= <- <-]. simpl. eauto.
    + intros raw. apply emits_bind; [apply emits_lift | intros ?].
      apply emits_ret.
  - intros out. destruct out; apply emits_ret.
Qed.

End EmitsFacts.

Lemma emits_save_input_image (svc : service) (workflow : json)
    (imgs : list json) (img : json) :
  In img imgs ->
  emits (expected svc workflow imgs) (save_input_image svc img).
Proof.
  intros Hin. unfold save_input_image.
  apply emits_bind_lift. intros name Hname.
  apply emits_bind; [apply emits_lift | intros image].
  apply emits_bind; [apply emits_lift | intros data].
  apply emits_bind_lift. intros path Hpath.
  apply join_str_inv in Hpath as (n & -> & ->).
  apply emits_write_file; simpl; eauto.
Qed.

(** In a run on a job with workflow [workflow] and images [imgs] every
    effect is as [expected], and the files change by the writes only. *)
Lemma emits_handler (svc : service) (job workflow : json) (imgs : list json) :
  prepared job workflow imgs ->
  emits (expected svc workflow imgs) (handler svc job).
Proof.
  intros Hprep w r w' H.
  assert (Hm : emits (expected svc workflow imgs)
                 (history <- (for_in imgs (fun img (_ : unit) =>
                                             save_input_image svc img) tt ;;
                              ensure_up 120 ;; ws_connect svc ;;
                              prompt_id <- queue_prompt svc workflow ;;
                              wait_for_execution svc prompt_id ;; ws_close ;;
                              get_history svc prompt_id) ;;
                  collect_outputs svc history)).
  { apply emits_bind; [| intros history; now apply emits_collect_outputs].
    apply emits_bind.
    { apply emits_for_in. intros img acc Hin.
      now apply emits_save_input_image. }
    intros _. apply emits_bind; [now apply emits_ensure_up | intros _].
    apply emits_bind; [now apply emits_ws_connect | intros _].
    apply emits_bind; [apply emits_queue_prompt; simpl; auto | intros pid].
    apply emits_bind; [now apply emits_wait_for_execution | intros _].
    apply emits_bind; [now apply emits_ws_close | intros _].
    now apply emits_get_history. }
  apply (Hm w r w'). unfold handler in H. unfold bind at 1 in H.
  unfold bind at 1.
  rewrite (run_prompt_prepared svc _ _ _ w Hprep) in H. exact H.
Qed.

Lemma handler_cases (svc : service) (job : json) (w w' : world) (r : result json) :
  handler svc job w = (r, w') ->
  (exists workflow imgs, prepared job workflow imgs) \/
  (w' = w /\ exists e, r = Raise e).
Proof.
  intros H. unfold handler in H.
  apply bind_inv in H as [(history & w1 & H & _) | (e & H & ->)];
    destruct (run_prompt_unprepared svc _ _ _ _ H)
      as [Hprep | (e' & He & -> & _)]; auto; [discriminate | eauto].
Qed.

(** X6.  The workflow is forwarded as it came: whenever a run submits a
    prompt, the prompt is the value of [job["input"]["workflow"]],
    unchanged, and it is submitted under the client identity. *)
Theorem workflow_forwarded_unmodified :
  forall (svc : service) (job : json) (w w' : world) (r : result json)
         (before : list event) (prompt : json) (c : string)
         (reply : option string) (after : list event),
    handler svc job w = (r, w') ->
    trace w' = trace w ++ before ++ EvSubmit prompt c reply :: after ->
    c = CLIENT_ID svc /\
    exists job_input,
      getitem job "input" = Ok job_input /\
      getitem job_input "workflow" = Ok prompt.
Proof.
  intros svc job w w' r before prompt c reply after H Ht.
  destruct (handler_cases svc _ _ _ _ H)
    as [(workflow & imgs & Hprep) | (-> & _)].
  - destruct (emits_handler svc _ _ _ Hprep w r w' H) as (evs & Ht' & HP & _).
    rewrite Ht in Ht'. apply app_inv_head in Ht'. subst evs.
    apply Forall_app in HP as [_ HP]. inversion HP as [| ? ? He _]; subst.
    simpl in He. destruct He as [-> ->].
    split; [reflexivity |].
    destruct Hprep as (job_input & images & n & m & Hji & Hwf & _). eauto.
  - rewrite <- (app_nil_r (trace w)) in Ht at 1.
    apply app_inv_head in Ht. now destruct before.
Qed.

Lemma replay_untouched (path : string) (evs : list event) :
  (forall data, ~ In (EvWrite path data) evs) ->
  forall fs : gmap string (list byte), replay evs fs !! path = fs !! path.
Proof.
  induction evs as [| e evs IH]; intros Hno fs; [reflexivity |].
  change (replay (e :: evs) fs) with (replay evs (apply_write fs e)).
  rewrite IH by (intros data Hin; apply (Hno data); now right).
  destruct e; try reflexivity. simpl. apply lookup_insert_ne.
  intros <-. apply (Hno data). now left.
Qed.

Lemma replay_keeps (path : string) (evs : list event) :
  forall fs : gmap string (list byte),
    is_Some (fs !! path) -> is_Some (replay evs fs !! path).
Proof.
  induction evs as [| e evs IH]; intros fs Hs; [exact Hs |].
  change (replay (e :: evs) fs) with (replay evs (apply_write fs e)).
  apply IH. destruct e; try exact Hs. simpl.
  destruct (String.eqb_spec path0 path) as [-> | Hne].
  - rewrite lookup_insert_eq. eauto.
  - now rewrite lookup_insert_ne.
Qed.

(** X7.  The handler writes nowhere else: every write of a run goes to
    the join of "/input" with the name of one of the job's images; a
    path that leads to the location of none of these ([open] resolves
    the path: [/input/../x] is [/x]) holds after the run what it held
    before, and no write of the run went there; and no file that existed
    is gone. *)
Theorem only_image_paths_are_written :
  forall (svc : service) (job : json) (w w' : world) (r : result json)
         (evs : list event) (path : string),
    handler svc job w = (r, w') ->
    trace w' = trace w ++ evs ->
    (forall p data,
        In (EvWrite p data) evs ->
        exists job_input images imgs img name,
          getitem job "input" = Ok job_input /\
          dict_get_default job_input "images" (JArr []) = Ok images /\
          iter images = Ok imgs /\
          In img imgs /\
          getitem img "name" = Ok (JStr name) /\
          p = Path.join_str "/input" name) /\
    ((forall job_input images imgs img name,
         getitem job "input" = Ok job_input ->
         dict_get_default job_input "images" (JArr []) = Ok images ->
         iter images = Ok imgs ->
         In img imgs ->
         getitem img "name" = Ok (JStr name) ->
         location path <> location (Path.join_str "/input" name)) ->
     files w' !! path = files w !! path /\
     last_written (location path) evs = None) /\
    (is_Some (files w !! path) -> is_Some (files w' !! path)).
Proof.
  intros svc job w w' r evs path H Ht.
  destruct (handler_cases svc _ _ _ _ H)
    as [(workflow & imgs & Hprep) | (-> & _)].
  2:{ rewrite <- (app_nil_r (trace w)) in Ht at 1.
      apply app_inv_head in Ht. subst evs.
      split; [intros p data [] |]. split; [auto | auto]. }
  destruct (emits_handler svc _ _ _ Hprep w r w' H) as (evs' & Ht' & HP & ->).
  rewrite Ht in Ht'. apply app_inv_head in Ht'. subst evs'.
  rewrite List.Forall_forall in HP.
  destruct Hprep as (job_input & images & n & m & Hji & _ & Him & _ & _ & Hit).
  split; [| split; [| apply replay_keeps]].
  - intros p data Hin. apply HP in Hin.
    destruct Hin as (img & name & Hin & Hname & ->).
    exists job_input, images, imgs, img, name. auto 10.
  - intros Hfree. split.
    + apply replay_untouched. intros data Hin. apply HP in Hin.
      destruct Hin as (img & name & Hin & Hname & Hp).
      apply (Hfree job_input images imgs img name); auto. now rewrite Hp.
    + apply last_written_none. apply List.Forall_forall. intros e Hin.
      destruct e as [p data | | | | | | | | |]; try reflexivity. simpl.
      destruct (same_location (location p) (location path)) eqn:Hs;
        [| reflexivity].
      apply same_location_spec in Hs. apply HP in Hin.
      destruct Hin as (img & name & Hin & Hname & ->).
      now destruct (Hfree job_input images imgs img name).
Qed.

(** ** The course of a run, whatever its outcome *)

Section ShapeFacts.

Variable svc : service.

Local Abbreviation cid := (CLIENT_ID svc).

Local Abbreviation after_ready workflow :=
  (ws_connect svc ;;
   prompt_id <- queue_prompt svc workflow ;;
   wait_for_execution svc prompt_id ;; ws_close ;;
   get_history svc prompt_id)%comfy.

Local Abbreviation save_all imgs :=
  (for_in imgs (fun img (_ : unit) => save_input_image svc img) tt).

Lemma bind_assoc {A B C} (m : M A) (k : A -> M B) (k' : B -> M C) (w : world) :
  bind (bind m k) k' w = bind m (fun a => bind (k a) k') w.
Proof. unfold bind. destruct (m w) as [[a | e] w1]; reflexivity. Qed.

(** How the listener can fail. *)
Lemma wait_loop_raise_inv (prompt_id : json) (msgs : list frame) :
  forall w e w',
    wait_loop svc prompt_id msgs w = (Raise e, w') ->
    files w' = files w /\ probes w' = probes w /\
    ((e = WebSocketException /\ Forall (ignored svc prompt_id) msgs /\
      inbox w' = [] /\
      trace w' = trace w ++ received msgs ++ [EvRecv None]) \/
     (exists earlier msg,
        msgs = earlier ++ msg :: inbox w' /\
        Forall (ignored svc prompt_id) earlier /\
        execution_done svc prompt_id msg = Raise e /\
        trace w' = trace w ++ received (earlier ++ [msg]))).
Proof.
  induction msgs as [| m msgs IH]; intros w e w'; simpl.
  - intros [= <- <-]. simpl. auto 10.
  - destruct (execution_done svc prompt_id m) as [[|] | e0] eqn:Hd.
    + discriminate.
    + intros H. apply IH in H as (Hf & Hp & H). simpl in *.
      pose proof (done_inv svc prompt_id m false Hd) as Hig.
      split; [exact Hf |]. split; [exact Hp |].
      destruct H as [(-> & Hall & Hi & Ht) | (earlier & msg & -> & Hall & He & Ht)].
      * left. split; [reflexivity |]. split; [now constructor |].
        split; [exact Hi |]. rewrite Ht, <- app_assoc. reflexivity.
      * right. exists (m :: earlier), msg. split; [reflexivity |].
        split; [now constructor |]. split; [exact He |].
        rewrite Ht, <- app_assoc. reflexivity.
    + intros [= <- <-]. simpl. split; [reflexivity |]. split; [reflexivity |].
      right. exists [], m. simpl. auto.
Qed.

Lemma queue_prompt_eq (prompt : json) (w : world) :
  queue_prompt svc prompt w =
  (queued svc (prompt_reply svc (trace w) prompt cid),
   extend w [EvSubmit prompt cid (prompt_reply svc (trace w) prompt cid)]).
Proof.
  unfold queue_prompt, bind, post_prompt, lift, queued, extend.
  destruct (prompt_reply svc (trace w) prompt cid) as [body |]; [| reflexivity].
  destruct (loads svc body) as [res |]; reflexivity.
Qed.

Lemma get_history_eq (prompt_id : json) (w : world) :
  get_history svc prompt_id w =
  (recorded svc prompt_id (history_reply svc (trace w) prompt_id),
   extend w [EvHistory prompt_id (history_reply svc (trace w) prompt_id)]).
Proof.
  unfold get_history, bind, fetch_history, lift, recorded, extend.
  destruct (history_reply svc (trace w) prompt_id) as [body |]; [| reflexivity].
  destruct (loads svc body) as [doc |]; reflexivity.
Qed.

Lemma ws_connect_eq (w : world) :
  ws_connect svc w =
  (if accepts svc (trace w) cid then Ok tt else Raise WebSocketException,
   extend w [EvConnect cid (accepts svc (trace w) cid)]).
Proof. reflexivity. Qed.

(** The four ways from the answered liveness request to the history
    record: the websocket is refused; the submission fails; the listener
    fails; or the signal arrives, the websocket is closed and the history
    is asked for. *)
Lemma after_ready_inv (workflow : json) (w w' : world) (r : result json) :
  after_ready workflow w = (r, w') ->
  files w' = files w /\ probes w' = probes w /\
  ((r = Raise WebSocketException /\ inbox w' = inbox w /\
    trace w' = trace w ++ [EvConnect cid false])
   \/
   (exists reply e,
      r = Raise e /\ inbox w' = inbox w /\ queued svc reply = Raise e /\
      trace w' = trace w ++ [EvConnect cid true; EvSubmit workflow cid reply])
   \/
   (exists body prompt_id e recvd,
      r = Raise e /\ queued svc (Some body) = Ok prompt_id /\
      trace w' = trace w ++ [EvConnect cid true;
                             EvSubmit workflow cid (Some body)] ++ recvd /\
      ((e = WebSocketException /\ Forall (ignored svc prompt_id) (inbox w) /\
        inbox w' = [] /\ recvd = received (inbox w) ++ [EvRecv None]) \/
       (exists earlier msg,
          inbox w = earlier ++ msg :: inbox w' /\
          Forall (ignored svc prompt_id) earlier /\
          execution_done svc prompt_id msg = Raise e /\
          recvd = received (earlier ++ [msg]))))
   \/
   (exists body prompt_id earlier msg reply,
      queued svc (Some body) = Ok prompt_id /\
      inbox w = earlier ++ msg :: inbox w' /\
      Forall (ignored svc prompt_id) earlier /\
      completion_signal svc prompt_id msg /\
      r = recorded svc prompt_id reply /\
      trace w' = trace w ++ [EvConnect cid true;
                             EvSubmit workflow cid (Some body)] ++
                 received (earlier ++ [msg]) ++
                 [EvClose; EvHistory prompt_id reply])).
Proof.
  intros H. unfold bind at 1 in H. rewrite ws_connect_eq in H.
  destruct (accepts svc (trace w) cid) eqn:Hacc.
  2:{ injection H as <- <-. simpl. auto 10. }
  unfold bind at 1 in H. rewrite queue_prompt_eq in H. simpl in H.
  set (reply := prompt_reply svc (trace w ++ [EvConnect cid true]) workflow cid) in *.
  destruct (queued svc reply) as [prompt_id | e] eqn:Hq.
  2:{ injection H as <- <-. simpl. split; [reflexivity |]. split; [reflexivity |].
      right. left. exists reply, e. rewrite <- app_assoc. auto. }
  assert (Hbody : exists body, reply = Some body).
  { destruct reply as [body |]; [eauto | discriminate]. }
  destruct Hbody as (body & Hbody). rewrite Hbody in *. clear Hbody reply.
  unfold bind at 1 in H. unfold wait_for_execution in H. simpl in H.
  match type of H with
  | context [wait_loop svc prompt_id (inbox w) ?w0] =>
      destruct (wait_loop svc prompt_id (inbox w) w0) as [[[] | e] w1] eqn:Hw
  end.
  - apply wait_loop_inv in Hw as (earlier & msg & Hin & Hall & Hsig & Hf & Hp & Ht).
    simpl in *. unfold bind at 1 in H. unfold ws_close, emit in H.
    rewrite get_history_eq in H. injection H as <- <-. simpl.
    split; [exact Hf |]. split; [exact Hp |]. right. right. right.
    exists body, prompt_id, earlier, msg. eexists. repeat split; eauto.
    rewrite Ht. repeat (rewrite <- app_assoc; simpl). reflexivity.
  - injection H as <- <-.
    apply wait_loop_raise_inv in Hw as (Hf & Hp & Hw). simpl in *.
    split; [exact Hf |]. split; [exact Hp |]. right. right. left.
    destruct Hw as [(-> & Hall & Hi & Ht) | (earlier & msg & Hin & Hall & He & Ht)].
    + exists body, prompt_id, WebSocketException,
        (received (inbox w) ++ [EvRecv None]).
      split; [reflexivity |]. split; [exact Hq |]. split.
      * rewrite Ht. repeat (rewrite <- app_assoc; simpl). reflexivity.
      * left. auto.
    + exists body, prompt_id, e, (received (earlier ++ [msg])).
      split; [reflexivity |]. split; [exact Hq |]. split.
      * rewrite Ht. repeat (rewrite <- app_assoc; simpl). reflexivity.
      * right. exists earlier, msg. auto.
Qed.

(** A run on a job that can be read, phase by phase. *)
Lemma handler_shape (job workflow : json) (imgs : list json)
    (w w' : world) (r : result json) :
  prepared job workflow imgs ->
  handler svc job w = (r, w') ->
  exists ra wa,
    save_all imgs w = (ra, wa) /\
    match ra with
    | Raise e => r = Raise e /\ w' = wa
    | Ok _ =>
        exists rb wb,
          ensure_up 120 wa = (rb, wb) /\
          match rb with
          | Raise e => r = Raise e /\ w' = wb
          | Ok _ =>
              exists rc wc,
                after_ready workflow wb = (rc, wc) /\
                match rc with
                | Raise e => r = Raise e /\ w' = wc
                | Ok history => collect_outputs svc history wc = (r, w')
                end
          end
    end.
Proof.
  intros Hprep H. unfold handler in H. unfold bind at 1 in H.
  rewrite (run_prompt_prepared svc _ _ _ w Hprep) in H.
  unfold bind at 1 in H.
  destruct (save_all imgs w) as [[u | e] wa] eqn:Ha.
  - exists (Ok u), wa. split; [reflexivity |]. unfold bind at 1 in H.
    destruct (ensure_up 120 wa) as [[u' | e] wb] eqn:Hb.
    + exists (Ok u'), wb. split; [reflexivity |].
      destruct (after_ready workflow wb) as [[h | e] wc] eqn:Hc.
      * exists (Ok h), wc. split; [reflexivity | exact H].
      * exists (Raise e), wc. split; [reflexivity |]. now injection H as <- <-.
    + exists (Raise e), wb. split; [reflexivity |]. now injection H as <- <-.
  - exists (Raise e), wa. split; [reflexivity |]. now injection H as <- <-.
Qed.

End ShapeFacts.

(** ** How long the handler waits for the server *)

Section TallyFacts.

Variable svc : service.

Local Abbreviation cid := (CLIENT_ID svc).

Local Abbreviation after_ready workflow :=
  (ws_connect svc ;;
   prompt_id <- queue_prompt svc workflow ;;
   wait_for_execution svc prompt_id ;; ws_close ;;
   get_history svc prompt_id)%comfy.

Local Abbreviation save_all imgs :=
  (for_in imgs (fun img (_ : unit) => save_input_image svc img) tt).

Local Abbreviation calm := (Forall (fun e => is_probe_or_sleep e = false)).

Lemma emits_save_all (P : event -> Prop) (imgs : list json) :
  (forall path data, P (EvWrite path data)) ->
  (forall path, P (EvOpenFailed path)) ->
  emits P (save_all imgs).
Proof.
  intros Hw Ho. apply emits_for_in. intros img acc _. unfold save_input_image.
  repeat (apply emits_bind; [apply emits_lift | intros ?]).
  apply emits_write_file; auto.
Qed.

Lemma emits_after_ready (P : event -> Prop) (workflow : json) :
  (forall ok, P (EvConnect cid ok)) ->
  (forall reply, P (EvSubmit workflow cid reply)) ->
  (forall msg, P (EvRecv msg)) ->
  P EvClose ->
  (forall prompt_id reply, P (EvHistory prompt_id reply)) ->
  emits P (after_ready workflow).
Proof.
  intros Hc Hs Hr Hx Hh.
  apply emits_bind; [now apply emits_ws_connect | intros _].
  apply emits_bind; [now apply emits_queue_prompt | intros pid].
  apply emits_bind; [now apply emits_wait_for_execution | intros _].
  apply emits_bind; [now apply emits_ws_close | intros _].
  now apply emits_get_history.
Qed.

Lemma requests_app (evs1 evs2 : list event) :
  requests (evs1 ++ evs2) = (requests evs1 + requests evs2)%nat.
Proof. unfold requests. now rewrite List.filter_app, length_app. Qed.

Lemma failures_app (evs1 evs2 : list event) :
  failures (evs1 ++ evs2) = (failures evs1 + failures evs2)%nat.
Proof. unfold failures. now rewrite List.filter_app, length_app. Qed.

Lemma slept_app (evs1 evs2 : list event) :
  slept (evs1 ++ evs2) = slept evs1 + slept evs2.
Proof.
  induction evs1 as [| e evs1 IH]; [reflexivity |].
  simpl. destruct e; simpl; rewrite IH; lia.
Qed.

Lemma tally_calm (evs : list event) :
  calm evs -> requests evs = 0%nat /\ failures evs = 0%nat /\ slept evs = 0.
Proof.
  induction 1 as [| e evs He _ (IH1 & IH2 & IH3)]; [auto |].
  destruct e; try discriminate; auto.
Qed.

Lemma tally_failed_attempts (k : nat) :
  requests (failed_attempts k) = k /\ failures (failed_attempts k) = k /\
  slept (failed_attempts k) = Z.of_nat k.
Proof.
  induction k as [| k (IH1 & IH2 & IH3)]; [auto |].
  rewrite failed_attempts_S.
  change (requests (EvProbe false :: EvSleep 1 :: failed_attempts k))
    with (S (requests (failed_attempts k))).
  change (failures (EvProbe false :: EvSleep 1 :: failed_attempts k))
    with (S (failures (failed_attempts k))).
  change (slept (EvProbe false :: EvSleep 1 :: failed_attempts k))
    with (1 + slept (failed_attempts k)).
  rewrite IH1, IH2, IH3. repeat split; lia.
Qed.

(** The tally of a run that got an answer after [k] failures. *)
Lemma tally_answered (saves : list event) (k : nat) (rest : list event) :
  calm saves -> calm rest ->
  requests (saves ++ (failed_attempts k ++ [EvProbe true]) ++ rest) = S k /\
  failures (saves ++ (failed_attempts k ++ [EvProbe true]) ++ rest) = k /\
  slept (saves ++ (failed_attempts k ++ [EvProbe true]) ++ rest) = Z.of_nat k.
Proof.
  intros Hs Hr.
  destruct (tally_calm _ Hs) as (S1 & S2 & S3).
  destruct (tally_calm _ Hr) as (R1 & R2 & R3).
  destruct (tally_failed_attempts k) as (F1 & F2 & F3).
  rewrite !requests_app, !failures_app, !slept_app, S1, S2, S3, R1, R2, R3,
    F1, F2, F3.
  change (requests [EvProbe true]) with 1%nat.
  change (failures [EvProbe true]) with 0%nat.
  change (slept [EvProbe true]) with 0.
  repeat split; lia.
Qed.

End TallyFacts.

(** X4.  The wait for the server is bounded: a run makes at most 120
    liveness requests and sleeps exactly one second for each one that
    failed, so never more than 120 seconds in all; a run that returns a
    result made exactly one request that was answered, after fewer than
    120 that failed. *)
Theorem liveness_wait_is_bounded :
  forall (svc : service) (job : json) (w w' : world) (r : result json)
         (evs : list event),
    handler svc job w = (r, w') ->
    trace w' = trace w ++ evs ->
    (requests evs <= 120)%nat /\
    slept evs = Z.of_nat (failures evs) /\
    (failures evs <= requests evs)%nat /\
    (is_ok r = true ->
     requests evs = S (failures evs) /\ (failures evs < 120)%nat).
Proof.
  intros svc job w w' r evs H Ht.
  set (P := fun e => is_probe_or_sleep e = false).
  assert (Hquiet : forall saves,
             Forall P saves -> forall e, r = Raise e -> evs = saves ->
             (requests evs <= 120)%nat /\
             slept evs = Z.of_nat (failures evs) /\
             (failures evs <= requests evs)%nat /\
             (is_ok r = true ->
              requests evs = S (failures evs) /\ (failures evs < 120)%nat)).
  { intros saves Hs e -> ->. destruct (tally_calm _ Hs) as (-> & -> & ->).
    simpl. repeat split; try lia; discriminate. }
  destruct (handler_cases svc _ _ _ _ H)
    as [(workflow & imgs & Hprep) | (-> & e & ->)].
  2:{ apply (Hquiet [] (List.Forall_nil _) e eq_refl).
      rewrite <- (app_nil_r (trace w)) in Ht at 1.
      now apply app_inv_head in Ht. }
  destruct (handler_shape svc _ _ _ _ _ _ Hprep H) as (ra & wa & Ha & H1).
  destruct (emits_save_all svc P imgs (fun _ _ => eq_refl) (fun _ => eq_refl)
              _ _ _ Ha) as (saves & Hta & Hsaves & _).
  destruct ra as [u | e].
  2:{ destruct H1 as [-> ->]. apply (Hquiet saves Hsaves e eq_refl).
      rewrite Hta in Ht. now apply app_inv_head in Ht. }
  destruct H1 as (rb & wb & Hb & H2).
  apply ensure_up_inv in Hb as (_ & _ & Hb).
  destruct rb as [u' | e].
  2:{ destruct H2 as [-> ->].
      destruct Hb as [([=] & _) | (_ & Htb)].
      rewrite Htb, Hta, <- app_assoc in Ht. apply app_inv_head in Ht. subst evs.
      destruct (tally_calm _ Hsaves) as (S1 & S2 & S3).
      destruct (tally_failed_attempts 120) as (F1 & F2 & F3).
      rewrite !requests_app, !failures_app, !slept_app, S1, S2, S3, F1, F2, F3.
      repeat split; try lia; discriminate. }
  destruct Hb as [(_ & k & Hk & _ & Htb) | ([=] & _)].
  destruct H2 as (rc & wc & Hc & H3).
  destruct (emits_after_ready svc P workflow (fun _ => eq_refl)
              (fun _ => eq_refl) (fun _ => eq_refl) eq_refl
              (fun _ _ => eq_refl) _ _ _ Hc) as (session & Htc & Hsession & _).
  assert (Hrest : exists rest, Forall P rest /\
                    evs = saves ++ (failed_attempts k ++ [EvProbe true]) ++ rest).
  { destruct rc as [history | e].
    - destruct (emits_collect_outputs svc P history
                  (fun _ _ _ _ => eq_refl) _ _ _ H3) as (views & Htd & Hviews & _).
      exists (session ++ views). split; [apply Forall_app; auto |].
      rewrite Htd, Htc, Htb, Hta in Ht.
      repeat rewrite <- app_assoc in Ht. apply app_inv_head in Ht.
      rewrite <- Ht. now repeat rewrite <- app_assoc.
    - destruct H3 as [_ ->]. exists session. split; [exact Hsession |].
      rewrite Htc, Htb, Hta in Ht.
      repeat rewrite <- app_assoc in Ht. apply app_inv_head in Ht.
      rewrite <- Ht. now repeat rewrite <- app_assoc. }
  destruct Hrest as (rest & Hrest & ->).
  destruct (tally_answered saves k rest Hsaves Hrest) as (-> & -> & ->).
  repeat split; lia.
Qed.

(** ** When the websocket is closed *)

Section CloseFacts.

Variable svc : service.

Local Abbreviation cid := (CLIENT_ID svc).

(** Neither the opening nor the closing of the websocket. *)
Local Abbreviation plain := (fun e => is_close e = false /\ is_open e = false).

Lemma not_closed (evs : list event) :
  Forall (fun e => is_close e = false) evs -> ~ In EvClose evs.
Proof.
  intros H Hin. rewrite List.Forall_forall in H. apply H in Hin. discriminate.
Qed.

Lemma not_opened (evs : list event) (c : string) :
  Forall (fun e => is_open e = false) evs -> ~ In (EvConnect c true) evs.
Proof.
  intros H Hin. rewrite List.Forall_forall in H. apply H in Hin. discriminate.
Qed.

Lemma received_all (Q : event -> Prop) (msgs : list frame) :
  (forall m, Q (EvRecv (Some m))) -> Forall Q (received msgs).
Proof. intros H. induction msgs; simpl; auto. Qed.

Lemma received_snoc (msgs : list frame) (msg : frame) :
  received (msgs ++ [msg]) = received msgs ++ [EvRecv (Some msg)].
Proof. unfold received. now rewrite map_app. Qed.

Lemma plain_not_closed (evs : list event) :
  Forall plain evs -> Forall (fun e => is_close e = false) evs.
Proof. apply List.Forall_impl. tauto. Qed.

Lemma plain_not_opened (evs : list event) :
  Forall plain evs -> Forall (fun e => is_open e = false) evs.
Proof. apply List.Forall_impl. tauto. Qed.

Lemma views_plain (evs : list event) :
  Forall (fun e => is_view e = true) evs -> Forall plain evs.
Proof. apply List.Forall_impl. intros []; simpl; try discriminate; auto. Qed.

End CloseFacts.

(** X8.  The websocket is closed at one moment only: right after the
    completion signal has been read and right before the history is asked
    for, and only artifact requests follow.  A run that returns a result
    has closed it.  A run that opened it and did not close it raised
    while submitting or while listening: its last effect is the
    submission or a receive (nothing closes the websocket on the way
    out). *)
Theorem websocket_closed_only_on_completion :
  forall (svc : service) (job : json) (w w' : world) (r : result json)
         (evs : list event),
    handler svc job w = (r, w') ->
    trace w' = trace w ++ evs ->
    (In EvClose evs ->
     exists pre msg prompt_id reply post,
       evs = pre ++ [EvRecv (Some msg); EvClose; EvHistory prompt_id reply]
                 ++ post /\
       completion_signal svc prompt_id msg /\
       Forall (fun e => is_close e = false) pre /\
       Forall (fun e => is_view e = true) post) /\
    (is_ok r = true -> In EvClose evs) /\
    (forall c,
        In (EvConnect c true) evs -> ~ In EvClose evs ->
        exists e pre last,
          r = Raise e /\ evs = pre ++ [last] /\ awaiting last = true).
Proof.
  intros svc job w w' r evs H Ht.
  set (plain := fun e => is_close e = false /\ is_open e = false).
  (* a run that ends before the websocket is closed *)
  assert (Hfail : forall e,
             r = Raise e ->
             Forall (fun e => is_close e = false) evs ->
             (Forall (fun e => is_open e = false) evs \/
              exists pre last, evs = pre ++ [last] /\ awaiting last = true) ->
             (In EvClose evs ->
              exists pre msg prompt_id reply post,
                evs = pre ++ [EvRecv (Some msg); EvClose;
                              EvHistory prompt_id reply] ++ post /\
                completion_signal svc prompt_id msg /\
                Forall (fun e => is_close e = false) pre /\
                Forall (fun e => is_view e = true) post) /\
             (is_ok r = true -> In EvClose evs) /\
             (forall c,
                 In (EvConnect c true) evs -> ~ In EvClose evs ->
                 exists e pre last,
                   r = Raise e /\ evs = pre ++ [last] /\ awaiting last = true)).
  { intros e -> Hnc Hlast. split; [| split].
    - intros Hin. now apply not_closed in Hin.
    - discriminate.
    - intros c Hin _. destruct Hlast as [Hno | (pre & last & -> & Hlast)].
      + now apply not_opened in Hin.
      + exists e, pre, last. auto. }
  (* a run that closed it *)
  assert (Hdone : forall pre msg prompt_id reply post,
             evs = pre ++ [EvRecv (Some msg); EvClose;
                           EvHistory prompt_id reply] ++ post ->
             completion_signal svc prompt_id msg ->
             Forall (fun e => is_close e = false) pre ->
             Forall (fun e => is_view e = true) post ->
             In EvClose evs /\
             (In EvClose evs ->
              exists pre msg prompt_id reply post,
                evs = pre ++ [EvRecv (Some msg); EvClose;
                              EvHistory prompt_id reply] ++ post /\
                completion_signal svc prompt_id msg /\
                Forall (fun e => is_close e = false) pre /\
                Forall (fun e => is_view e = true) post)).
  { intros pre msg pid reply post -> Hsig Hpre Hpost. split.
    - apply in_or_app. right. simpl. auto.
    - intros _. exists pre, msg, pid, reply, post. auto. }
  destruct (handler_cases svc _ _ _ _ H)
    as [(workflow & imgs & Hprep) | (-> & e & ->)].
  2:{ rewrite <- (app_nil_r (trace w)) in Ht at 1.
      apply app_inv_head in Ht. subst evs.
      apply (Hfail e eq_refl); [constructor | left; constructor]. }
  destruct (handler_shape svc _ _ _ _ _ _ Hprep H) as (ra & wa & Ha & H1).
  destruct (emits_save_all svc plain imgs
              (fun _ _ => conj eq_refl eq_refl) (fun _ => conj eq_refl eq_refl)
              _ _ _ Ha) as (saves & Hta & Hsaves & _).
  destruct ra as [u | e].
  2:{ destruct H1 as [-> ->]. rewrite Hta in Ht. apply app_inv_head in Ht.
      subst evs. apply (Hfail e eq_refl).
      - now apply plain_not_closed.
      - left. now apply plain_not_opened. }
  destruct H1 as (rb & wb & Hb & H2).
  destruct (emits_ensure_up plain 120
              (fun _ => conj eq_refl eq_refl) (conj eq_refl eq_refl)
              _ _ _ Hb) as (probing & Htb & Hprobing & _).
  assert (Hearly : Forall plain (saves ++ probing)) by (apply Forall_app; auto).
  rewrite Hta, <- app_assoc in Htb.
  destruct rb as [u' | e].
  2:{ destruct H2 as [-> ->]. rewrite Htb in Ht. apply app_inv_head in Ht.
      subst evs. apply (Hfail e eq_refl).
      - now apply plain_not_closed.
      - left. now apply plain_not_opened. }
  destruct H2 as (rc & wc & Hc & H3).
  apply after_ready_inv in Hc
    as (_ & _ & [(-> & _ & Htc)
                | [(reply & e & -> & _ & _ & Htc)
                  | [(body & pid & e & recvd & -> & _ & Htc & Hrecvd)
                    | (body & pid & earlier & msg & reply & _ & _ & _ & Hsig
                       & -> & Htc)]]]).
  - (* the websocket is refused *)
    destruct H3 as [-> ->]. rewrite Htc, Htb, <- app_assoc in Ht.
    apply app_inv_head in Ht. subst evs. apply (Hfail _ eq_refl).
    + apply Forall_app. split; [now apply plain_not_closed | now repeat constructor].
    + left. apply Forall_app.
      split; [now apply plain_not_opened | now repeat constructor].
  - (* the submission fails *)
    destruct H3 as [-> ->]. rewrite Htc, Htb, <- app_assoc in Ht.
    apply app_inv_head in Ht. subst evs. apply (Hfail _ eq_refl).
    + apply Forall_app. split; [now apply plain_not_closed | now repeat constructor].
    + right. exists ((saves ++ probing) ++ [EvConnect (CLIENT_ID svc) true]),
        (EvSubmit workflow (CLIENT_ID svc) reply).
      split; [| reflexivity]. repeat (rewrite <- app_assoc; simpl). reflexivity.
  - (* the listener fails *)
    destruct H3 as [-> ->]. rewrite Htc, Htb, <- app_assoc in Ht.
    apply app_inv_head in Ht. subst evs.
    assert (Hshape : exists msgs last,
               recvd = received msgs ++ [EvRecv last]).
    { destruct Hrecvd as [(_ & _ & _ & ->) | (earl & m & _ & _ & _ & ->)].
      - eauto.
      - rewrite received_snoc. eauto. }
    destruct Hshape as (msgs & last & ->). apply (Hfail _ eq_refl).
    + apply Forall_app. split; [now apply plain_not_closed |].
      repeat constructor. apply Forall_app.
      split; [now apply received_all | now repeat constructor].
    + right.
      exists ((saves ++ probing) ++
              [EvConnect (CLIENT_ID svc) true;
               EvSubmit workflow (CLIENT_ID svc) (Some body)] ++ received msgs),
        (EvRecv last).
      split; [| reflexivity]. repeat (rewrite <- app_assoc; simpl). reflexivity.
  - (* the signal arrives *)
    assert (Hviews : exists views,
               Forall (fun e => is_view e = true) views /\
               trace w' = trace wc ++ views).
    { destruct (recorded svc pid reply) as [history | e].
      - destruct (emits_collect_outputs svc (fun e => is_view e = true) history
                    (fun _ _ _ _ => eq_refl) _ _ _ H3) as (views & Htd & Hv & _).
        eauto.
      - destruct H3 as [_ ->]. exists []. rewrite app_nil_r. auto. }
    destruct Hviews as (views & Hviews & Htd).
    rewrite Htd, Htc, Htb, received_snoc in Ht.
    repeat (rewrite <- app_assoc in Ht; simpl in Ht).
    apply app_inv_head in Ht.
    destruct (Hdone ((saves ++ probing) ++
                     [EvConnect (CLIENT_ID svc) true;
                      EvSubmit workflow (CLIENT_ID svc) (Some body)] ++
                     received earlier) msg pid reply views) as [Hin Hone].
    + rewrite <- Ht. repeat (rewrite <- app_assoc; simpl). reflexivity.
    + exact Hsig.
    + apply Forall_app. split; [now apply plain_not_closed |].
      repeat constructor. now apply received_all.
    + exact Hviews.
    + split; [exact Hone |]. split; [auto |]. intros c _ Hno. now destruct Hno.
Qed.

(** ** A run that goes well, step by step *)

Section CourseFacts.

Variable svc : service.

Local Abbreviation cid := (CLIENT_ID svc).

Local Abbreviation after_ready workflow :=
  (ws_connect svc ;;
   prompt_id <- queue_prompt svc workflow ;;
   wait_for_execution svc prompt_id ;; ws_close ;;
   get_history svc prompt_id)%comfy.

Lemma queued_ok (body : string) (res prompt_id : json) :
  json_loads svc body = Some res ->
  getitem res "prompt_id" = Ok prompt_id ->
  queued svc (Some body) = Ok prompt_id.
Proof. intros Hl Hg. unfold queued. now rewrite (loads_ok svc _ _ Hl). Qed.

Lemma recorded_ok (hbody : string) (doc prompt_id history : json) :
  json_loads svc hbody = Some doc ->
  subscript doc prompt_id = Ok history ->
  recorded svc prompt_id (Some hbody) = Ok history.
Proof. intros Hl Hs. unfold recorded. now rewrite (loads_ok svc _ _ Hl). Qed.

(** Saving and the liveness loop. *)
Lemma handler_ready (job workflow : json) (imgs : list json)
    (named : list (string * list byte)) (k : nat) (rest : list bool) (w : world) :
  prepared job workflow imgs ->
  Forall2 input_image imgs named ->
  openable svc (trace w) named ->
  (k < 120)%nat ->
  probes w = repeat false k ++ true :: rest ->
  handler svc job w =
  (history <- after_ready workflow ;; collect_outputs svc history)
    {| files := persist named (files w); probes := rest; inbox := inbox w;
       trace := trace w ++ upto_ready named k |}.
Proof.
  intros Hprep Hnamed Hopen Hk Hprobes.
  unfold handler. unfold bind at 1.
  rewrite (run_prompt_prepared svc _ _ _ w Hprep).
  unfold bind at 1. rewrite (save_all_ok svc _ _ Hnamed w Hopen).
  unfold bind at 1.
  rewrite (ensure_up_ready 120 k rest
             {| files := persist named (files w); probes := probes w;
                inbox := inbox w; trace := trace w ++ written named |}
             Hk Hprobes). simpl.
  unfold upto_ready. rewrite <- app_assoc. reflexivity.
Qed.

(** From the answered liveness request to the reply to the history
    request. *)
Lemma after_ready_closed (workflow : json) (body : string) (prompt_id : json)
    (earlier : list frame) (msg : frame) (later : list frame) (w : world) :
  accepts svc (trace w) cid = true ->
  prompt_reply svc (trace w ++ [EvConnect cid true]) workflow cid = Some body ->
  queued svc (Some body) = Ok prompt_id ->
  inbox w = earlier ++ msg :: later ->
  Forall (ignored svc prompt_id) earlier ->
  completion_signal svc prompt_id msg ->
  after_ready workflow w =
  (recorded svc prompt_id
     (history_reply svc
        (trace w ++ [EvConnect cid true; EvSubmit workflow cid (Some body)] ++
         received (earlier ++ [msg]) ++ [EvClose]) prompt_id),
   {| files := files w; probes := probes w; inbox := later;
      trace := trace w ++ [EvConnect cid true; EvSubmit workflow cid (Some body)] ++
               received (earlier ++ [msg]) ++
               [EvClose;
                EvHistory prompt_id
                  (history_reply svc
                     (trace w ++ [EvConnect cid true;
                                  EvSubmit workflow cid (Some body)] ++
                      received (earlier ++ [msg]) ++ [EvClose]) prompt_id)] |}).
Proof.
  intros Hacc Hreply Hq Hin Hall Hsig.
  unfold bind at 1. rewrite ws_connect_eq, Hacc.
  unfold bind at 1. rewrite queue_prompt_eq. simpl. rewrite Hreply, Hq.
  unfold bind at 1. unfold wait_for_execution. simpl. rewrite Hin.
  rewrite (wait_loop_returns svc prompt_id earlier msg later Hall Hsig).
  unfold bind at 1. unfold ws_close, emit. rewrite get_history_eq.
  unfold extend. simpl. repeat (rewrite <- app_assoc; simpl). reflexivity.
Qed.

Lemma after_ready_unqueued (workflow : json) (reply : option string) (e : exn)
    (w : world) :
  accepts svc (trace w) cid = true ->
  prompt_reply svc (trace w ++ [EvConnect cid true]) workflow cid = reply ->
  queued svc reply = Raise e ->
  after_ready workflow w =
  (Raise e, extend w [EvConnect cid true; EvSubmit workflow cid reply]).
Proof.
  intros Hacc Hreply Hq.
  unfold bind at 1. rewrite ws_connect_eq, Hacc.
  unfold bind at 1. rewrite queue_prompt_eq. simpl. rewrite Hreply, Hq.
  unfold extend. simpl. rewrite <- app_assoc. reflexivity.
Qed.

Lemma upto_connected_eq (tr : list event) (named : list (string * list byte))
    (k : nat) :
  tr ++ upto_connected svc named k = (tr ++ upto_ready named k) ++ [EvConnect cid true].
Proof. unfold upto_connected. now rewrite app_assoc. Qed.

Lemma upto_closed_eq (tr : list event) (workflow : json)
    (named : list (string * list byte)) (k : nat) (body : string)
    (msgs : list frame) :
  tr ++ upto_closed svc workflow named k body msgs =
  (tr ++ upto_ready named k) ++
  [EvConnect cid true; EvSubmit workflow cid (Some body)] ++
  received msgs ++ [EvClose].
Proof.
  unfold upto_closed, upto_submitted, upto_connected.
  repeat (rewrite <- app_assoc; simpl). reflexivity.
Qed.

(** The whole way to the reply to the history request. *)
Lemma handler_recorded (job workflow : json) (imgs : list json)
    (named : list (string * list byte)) (k : nat) (rest : list bool)
    (body : string) (prompt_id : json)
    (earlier : list frame) (msg : frame) (later : list frame)
    (reply : option string) (w : world) :
  prepared job workflow imgs ->
  Forall2 input_image imgs named ->
  openable svc (trace w) named ->
  (k < 120)%nat ->
  probes w = repeat false k ++ true :: rest ->
  accepts svc (trace w ++ upto_ready named k) cid = true ->
  prompt_reply svc (trace w ++ upto_connected svc named k) workflow cid = Some body ->
  queued svc (Some body) = Ok prompt_id ->
  inbox w = earlier ++ msg :: later ->
  Forall (ignored svc prompt_id) earlier ->
  completion_signal svc prompt_id msg ->
  history_reply svc
    (trace w ++ upto_closed svc workflow named k body (earlier ++ [msg]))
    prompt_id = reply ->
  handler svc job w =
  match recorded svc prompt_id reply with
  | Ok history =>
      collect_outputs svc history
        {| files := persist named (files w); probes := rest; inbox := later;
           trace := trace w ++
                    upto_closed svc workflow named k body (earlier ++ [msg]) ++
                    [EvHistory prompt_id reply] |}
  | Raise e =>
      (Raise e,
       {| files := persist named (files w); probes := rest; inbox := later;
          trace := trace w ++
                   upto_closed svc workflow named k body (earlier ++ [msg]) ++
                   [EvHistory prompt_id reply] |})
  end.
Proof.
  intros Hprep Hnamed Hopen Hk Hprobes Hacc Hreply Hq Hin Hall Hsig Hhist.
  rewrite (handler_ready _ _ _ _ _ _ _ Hprep Hnamed Hopen Hk Hprobes).
  rewrite upto_connected_eq in Hreply. rewrite upto_closed_eq in Hhist.
  unfold bind at 1.
  rewrite (after_ready_closed workflow body prompt_id earlier msg later
             {| files := persist named (files w); probes := rest;
                inbox := inbox w; trace := trace w ++ upto_ready named k |}
             Hacc Hreply Hq Hin Hall Hsig).
  simpl in Hhist |- *. rewrite Hhist.
  unfold upto_closed, upto_submitted, upto_connected, received.
  repeat (rewrite <- app_assoc; simpl).
  destruct (recorded svc prompt_id reply); reflexivity.
Qed.

End CourseFacts.

(** X12.  When the server plays its part the handler returns every image:
    if the job can be read, its images decode and can be written, the
    server answers one of the 120 liveness requests, accepts the
    websocket, answers the submission with an identifier, sends the
    completion signal for it after messages the listener passes over,
    holds a history record for it and serves every image the record
    names, then the handler returns one entry per reference, in the order
    of the record (or the "No images generated" error when there is
    none), and the world is left with the saved inputs, the messages
    after the signal still unread, and exactly these effects. *)
Theorem handler_returns_every_image :
  forall (svc : service) (job workflow : json) (imgs : list json)
         (named : list (string * list byte)) (k : nat) (rest : list bool)
         (body : string) (res prompt_id : json)
         (earlier : list frame) (msg : frame) (later : list frame)
         (hbody : string) (doc history : json)
         (refs : list reference) (raws : list (list byte)) (w : world),
    prepared job workflow imgs ->
    Forall2 input_image imgs named ->
    openable svc (trace w) named ->
    (k < 120)%nat ->
    probes w = repeat false k ++ true :: rest ->
    accepts svc (trace w ++ upto_ready named k) (CLIENT_ID svc) = true ->
    prompt_reply svc (trace w ++ upto_connected svc named k) workflow
      (CLIENT_ID svc) = Some body ->
    json_loads svc body = Some res ->
    getitem res "prompt_id" = Ok prompt_id ->
    inbox w = earlier ++ msg :: later ->
    Forall (ignored svc prompt_id) earlier ->
    completion_signal svc prompt_id msg ->
    history_reply svc
      (trace w ++ upto_closed svc workflow named k body (earlier ++ [msg]))
      prompt_id = Some hbody ->
    json_loads svc hbody = Some doc ->
    subscript doc prompt_id = Ok history ->
    history_refs history = Some refs ->
    fetches svc
      (trace w ++ upto_closed svc workflow named k body (earlier ++ [msg]) ++
       [EvHistory prompt_id (Some hbody)]) refs raws ->
    handler svc job w =
    (Ok (result_of (zip_with entry refs raws)),
     {| files := persist named (files w); probes := rest; inbox := later;
        trace := (trace w ++
                  upto_closed svc workflow named k body (earlier ++ [msg]) ++
                  [EvHistory prompt_id (Some hbody)]) ++
                 zip_with view_ok refs raws |}).
Proof.
  intros svc job workflow imgs named k rest body res prompt_id earlier msg
    later hbody doc history refs raws w Hprep Hnamed Hopen Hk Hprobes Hacc
    Hreply Hres Hpid Hin Hall Hsig Hhist Hdoc Hsub Hrefs Hfetch.
  rewrite (handler_recorded svc _ _ _ _ _ _ _ _ _ _ _ _ _ Hprep Hnamed Hopen Hk
             Hprobes Hacc Hreply (queued_ok svc _ _ _ Hres Hpid) Hin Hall Hsig
             Hhist).
  rewrite (recorded_ok svc _ _ _ _ Hdoc Hsub).
  now rewrite (collect_outputs_ok svc history refs raws
                 {| files := persist named (files w); probes := rest;
                    inbox := later;
                    trace := trace w ++
                             upto_closed svc workflow named k body
                               (earlier ++ [msg]) ++
                             [EvHistory prompt_id (Some hbody)] |}
                 Hrefs Hfetch).
Qed.

(** X9.  A history that cannot be had ends the run after the websocket was
    closed: when the history request fails, its reply is not a JSON
    document, or the document is an object without the identifier of the
    prompt (as for an identifier the server does not know), the handler
    raises ([URLError], [JSONDecodeError], [KeyError] with the
    identifier) right after that request: no artifact is asked for and
    nothing is returned, while the inputs stay saved. *)
Theorem missing_history_ends_run :
  forall (svc : service) (job workflow : json) (imgs : list json)
         (named : list (string * list byte)) (k : nat) (rest : list bool)
         (body : string) (res prompt_id : json)
         (earlier : list frame) (msg : frame) (later : list frame)
         (reply : option string) (e : exn) (w : world),
    prepared job workflow imgs ->
    Forall2 input_image imgs named ->
    openable svc (trace w) named ->
    (k < 120)%nat ->
    probes w = repeat false k ++ true :: rest ->
    accepts svc (trace w ++ upto_ready named k) (CLIENT_ID svc) = true ->
    prompt_reply svc (trace w ++ upto_connected svc named k) workflow
      (CLIENT_ID svc) = Some body ->
    json_loads svc body = Some res ->
    getitem res "prompt_id" = Ok prompt_id ->
    inbox w = earlier ++ msg :: later ->
    Forall (ignored svc prompt_id) earlier ->
    completion_signal svc prompt_id msg ->
    history_reply svc
      (trace w ++ upto_closed svc workflow named k body (earlier ++ [msg]))
      prompt_id = reply ->
    (reply = None /\ e = URLError) \/
    (exists hbody,
        reply = Some hbody /\ json_loads svc hbody = None /\
        e = JSONDecodeError) \/
    (exists hbody d id,
        reply = Some hbody /\ json_loads svc hbody = Some (JObj d) /\
        prompt_id = JStr id /\ dict_get id d = None /\
        e = KeyError (JStr id)) ->
    handler svc job w =
    (Raise e,
     {| files := persist named (files w); probes := rest; inbox := later;
        trace := trace w ++
                 upto_closed svc workflow named k body (earlier ++ [msg]) ++
                 [EvHistory prompt_id reply] |}).
Proof.
  intros svc job workflow imgs named k rest body res prompt_id earlier msg
    later reply e w Hprep Hnamed Hopen Hk Hprobes Hacc Hreply Hres Hpid Hin
    Hall Hsig Hhist Hcase.
  rewrite (handler_recorded svc _ _ _ _ _ _ _ _ _ _ _ _ _ Hprep Hnamed Hopen Hk
             Hprobes Hacc Hreply (queued_ok svc _ _ _ Hres Hpid) Hin Hall Hsig
             Hhist).
  assert (Hrec : recorded svc prompt_id reply = Raise e).
  { destruct Hcase as [(-> & ->)
                      | [(hbody & -> & Hl & ->)
                        | (hbody & d & id & -> & Hl & -> & Hd & ->)]].
    - reflexivity.
    - unfold recorded, loads. now rewrite Hl.
    - unfold recorded, loads. rewrite Hl. simpl. now rewrite Hd. }
  now rewrite Hrec.
Qed.

(** X10.  A submission that brings no identifier ends the run with the
    websocket open: when the POST fails, its reply is not a JSON
    document, is an object without "prompt_id" (as a report of
    validation errors is), or is no object at all, the handler raises
    ([URLError], [JSONDecodeError], [KeyError] "prompt_id", [TypeError])
    right after the submission: no message is read, the websocket is not
    closed, no history is asked for. *)
Theorem unanswered_submission_ends_run :
  forall (svc : service) (job workflow : json) (imgs : list json)
         (named : list (string * list byte)) (k : nat) (rest : list bool)
         (reply : option string) (e : exn) (w : world),
    prepared job workflow imgs ->
    Forall2 input_image imgs named ->
    openable svc (trace w) named ->
    (k < 120)%nat ->
    probes w = repeat false k ++ true :: rest ->
    accepts svc (trace w ++ upto_ready named k) (CLIENT_ID svc) = true ->
    prompt_reply svc (trace w ++ upto_connected svc named k) workflow
      (CLIENT_ID svc) = reply ->
    (reply = None /\ e = URLError) \/
    (exists body,
        reply = Some body /\ json_loads svc body = None /\
        e = JSONDecodeError) \/
    (exists body d,
        reply = Some body /\ json_loads svc body = Some (JObj d) /\
        dict_get "prompt_id" d = None /\ e = KeyError (JStr "prompt_id")) \/
    (exists body res,
        reply = Some body /\ json_loads svc body = Some res /\
        (forall d, res <> JObj d) /\ e = TypeError) ->
    handler svc job w =
    (Raise e,
     {| files := persist named (files w); probes := rest; inbox := inbox w;
        trace := trace w ++ upto_connected svc named k ++
                 [EvSubmit workflow (CLIENT_ID svc) reply] |}).
Proof.
  intros svc job workflow imgs named k rest reply e w Hprep Hnamed Hopen Hk
    Hprobes Hacc Hreply Hcase.
  rewrite (handler_ready svc _ _ _ _ _ _ _ Hprep Hnamed Hopen Hk Hprobes).
  assert (Hq : queued svc reply = Raise e).
  { destruct Hcase as [(-> & ->)
                      | [(body & -> & Hl & ->)
                        | [(body & d & -> & Hl & Hd & ->)
                          | (body & res & -> & Hl & Hno & ->)]]].
    - reflexivity.
    - unfold queued, loads. now rewrite Hl.
    - unfold queued, loads. rewrite Hl. simpl. now rewrite Hd.
    - unfold queued, loads. rewrite Hl.
      destruct res; try reflexivity. now destruct (Hno fields). }
  rewrite upto_connected_eq in Hreply. unfold bind at 1.
  rewrite (after_ready_unqueued svc workflow reply e
             {| files := persist named (files w); probes := rest;
                inbox := inbox w; trace := trace w ++ upto_ready named k |}
             Hacc Hreply Hq).
  unfold extend, upto_connected. simpl.
  repeat (rewrite <- app_assoc; simpl). reflexivity.
Qed.

(** ** What the result holds *)

Section GatherFacts.

Variable svc : service.

(** [m] makes artifact requests only, and when it returns, its value is
    [acc] followed by one entry per request, all of which succeeded. *)
Local Abbreviation gathers m acc :=
  (forall w r w',
      m w = (r, w') ->
      exists evs,
        trace w' = trace w ++ evs /\
        Forall (fun e => is_view e = true) evs /\
        forall out, r = Ok out ->
                    out = acc ++ entries_of evs /\
                    length (entries_of evs) = length evs).

Lemma entries_of_app (evs1 evs2 : list event) :
  entries_of (evs1 ++ evs2) = entries_of evs1 ++ entries_of evs2.
Proof. unfold entries_of. apply flat_map_app. Qed.

Lemma entries_of_none (evs : list event) :
  Forall (fun e => is_view e = false) evs ->
  entries_of evs = [] /\ List.filter is_view evs = [].
Proof.
  induction 1 as [| e evs He _ [IH1 IH2]]; [auto |].
  destruct e; try discriminate; simpl; auto.
Qed.

Lemma filter_views (evs : list event) :
  Forall (fun e => is_view e = true) evs -> List.filter is_view evs = evs.
Proof.
  induction 1 as [| e evs He _ IH]; [reflexivity |].
  simpl. now rewrite He, IH.
Qed.

Lemma gathers_ret (acc : list json) : gathers (ret acc) acc.
Proof.
  intros w r w' [= <- <-]. exists []. rewrite app_nil_r.
  split; [reflexivity |]. split; [constructor |].
  intros out [= <-]. simpl. now rewrite app_nil_r.
Qed.

Lemma gathers_lift_bind {A} (x : result A) (k : A -> M (list json))
    (acc : list json) :
  (forall a, x = Ok a -> gathers (k a) acc) -> gathers (bind (lift x) k) acc.
Proof.
  intros Hk w r w' H. destruct x as [a | e].
  - rewrite (bind_lift_ok (Ok a) a k w eq_refl) in H. exact (Hk a eq_refl _ _ _ H).
  - injection H as <- <-. exists []. rewrite app_nil_r.
    split; [reflexivity |]. split; [constructor | discriminate].
Qed.

Lemma gathers_for_in {A} (body : A -> list json -> M (list json)) (l : list A) :
  (forall x acc, gathers (body x acc) acc) ->
  forall acc, gathers (for_in l body acc) acc.
Proof.
  intros Hb. induction l as [| x l IH]; intros acc; simpl.
  - apply gathers_ret.
  - intros w r w' H.
    apply bind_inv in H as [(acc1 & w1 & H1 & H2) | (e & H1 & ->)].
    + apply Hb in H1 as (evs1 & Ht1 & Hv1 & Ho1).
      apply IH in H2 as (evs2 & Ht2 & Hv2 & Ho2).
      destruct (Ho1 acc1 eq_refl) as [-> Hl1].
      exists (evs1 ++ evs2). rewrite Ht2, Ht1, <- app_assoc.
      split; [reflexivity |]. split; [apply Forall_app; auto |].
      intros out ->. destruct (Ho2 out eq_refl) as [-> Hl2].
      rewrite entries_of_app, <- app_assoc, !length_app, Hl1, Hl2. auto.
    + apply Hb in H1 as (evs1 & Ht1 & Hv1 & _).
      exists evs1. split; [exact Ht1 |]. split; [exact Hv1 | discriminate].
Qed.

Lemma gathers_collect_image (img : json) (acc : list json) :
  gathers (collect_image svc img acc) acc.
Proof.
  unfold collect_image.
  apply gathers_lift_bind. intros filename Hf.
  apply gathers_lift_bind. intros subfolder _.
  apply gathers_lift_bind. intros folder_type _.
  intros w r w' H. unfold bind at 1 in H. unfold get_image in H.
  destruct (view_reply svc (trace w) filename subfolder folder_type) as [raw |].
  - rewrite (bind_lift_ok _ _ _ _ Hf) in H. injection H as <- <-. simpl.
    exists [EvView filename subfolder folder_type (Some raw)].
    split; [reflexivity |]. split; [now repeat constructor |].
    intros out [= <-]. auto.
  - injection H as <- <-. simpl.
    exists [EvView filename subfolder folder_type None].
    split; [reflexivity |]. split; [now repeat constructor | discriminate].
Qed.

Lemma gathers_collect_node (node : json) (acc : list json) :
  gathers (collect_node svc node acc) acc.
Proof.
  unfold collect_node.
  apply gathers_lift_bind. intros has _.
  destruct (negb has); [apply gathers_ret |].
  apply gathers_lift_bind. intros imgs _.
  apply gathers_lift_bind. intros items _.
  apply gathers_for_in. intros img acc'. apply gathers_collect_image.
Qed.

Lemma collect_outputs_gathers (history : json) (w w' : world) (r : result json) :
  collect_outputs svc history w = (r, w') ->
  exists evs,
    trace w' = trace w ++ evs /\
    Forall (fun e => is_view e = true) evs /\
    forall res, r = Ok res ->
                res = result_of (entries_of evs) /\
                length (entries_of evs) = length evs.
Proof.
  unfold collect_outputs. intros H.
  destruct (getitem history "outputs") as [outputs | e].
  2:{ injection H as <- <-. exists []. rewrite app_nil_r.
      split; [reflexivity |]. split; [constructor | discriminate]. }
  rewrite (bind_lift_ok _ _ _ _ eq_refl) in H.
  destruct (values outputs) as [nodes | e].
  2:{ injection H as <- <-. exists []. rewrite app_nil_r.
      split; [reflexivity |]. split; [constructor | discriminate]. }
  rewrite (bind_lift_ok _ _ _ _ eq_refl) in H.
  apply bind_inv in H as [(out & w1 & H1 & H2) | (e & H1 & ->)].
  - apply (gathers_for_in (collect_node svc) nodes gathers_collect_node) in H1
      as (evs & Ht & Hv & Ho).
    destruct (Ho out eq_refl) as [-> Hl]. simpl in *.
    exists evs.
    assert (Hret : (r, w') = (Ok (result_of (entries_of evs)), w1)).
    { rewrite <- H2. unfold result_of. now destruct (entries_of evs). }
    injection Hret as -> ->. split; [exact Ht |]. split; [exact Hv |].
    intros res [= <-]. auto.
  - apply (gathers_for_in (collect_node svc) nodes gathers_collect_node) in H1
      as (evs & Ht & Hv & _).
    exists evs. split; [exact Ht |]. split; [exact Hv | discriminate].
Qed.

Lemma emits_run_prompt (P : event -> Prop) (job : json) :
  (forall e, is_view e = false -> P e) -> emits P (run_prompt svc job).
Proof.
  intros HP w r w' H.
  destruct (run_prompt_unprepared svc _ _ _ _ H)
    as [(workflow & imgs & Hprep) | (e & -> & -> & _)].
  2:{ exists []. rewrite app_nil_r. simpl. auto. }
  rewrite (run_prompt_prepared svc _ _ _ w Hprep) in H. revert w r w' H.
  apply emits_bind; [apply emits_save_all; intros; now apply HP | intros _].
  apply emits_bind; [apply emits_ensure_up; intros; now apply HP | intros _].
  apply emits_after_ready; intros; now apply HP.
Qed.

End GatherFacts.

(** X13.  Whatever the history record looks like, a result the handler
    returns lists exactly what was fetched: one entry for each artifact
    request of the run, in the order of the requests, the name being the
    filename that was asked for and the data the base64 text of the bytes
    the server sent, from which base64 decoding gives these bytes back;
    with no request at all the result is the "No images generated"
    error. *)
Theorem result_lists_what_was_fetched :
  forall (svc : service) (job : json) (w w' : world) (res : json)
         (evs : list event),
    handler svc job w = (Ok res, w') ->
    trace w' = trace w ++ evs ->
    res = result_of (entries_of evs) /\
    length (entries_of evs) = length (List.filter is_view evs) /\
    (forall f s t raw,
        In (EvView f s t (Some raw)) evs ->
        In (JObj [("name", f); ("data", JStr (Base64.b64encode raw))])
          (entries_of evs) /\
        Base64.b64decode (JStr (Base64.b64encode raw)) = Ok raw) /\
    (entries_of evs = [] -> res = JObj [("error", JStr "No images generated")]).
Proof.
  intros svc job w w' res evs H Ht. unfold handler in H.
  apply bind_ok_inv in H as (history & w1 & Hrun & Hcollect).
  destruct (emits_run_prompt svc (fun e => is_view e = false) job
              (fun _ He => He) _ _ _ Hrun) as (evs1 & Ht1 & Hno & _).
  apply collect_outputs_gathers in Hcollect as (evs2 & Ht2 & Hv & Hres).
  destruct (Hres res eq_refl) as [-> Hlen].
  rewrite Ht2, Ht1, <- app_assoc in Ht. apply app_inv_head in Ht. subst evs.
  destruct (entries_of_none _ Hno) as [He1 Hf1].
  rewrite entries_of_app, He1, List.filter_app, Hf1, filter_views by exact Hv.
  simpl. split; [reflexivity |]. split; [exact Hlen |]. split.
  - intros f s t raw Hin. split; [| apply b64decode_b64encode].
    apply in_app_or in Hin as [Hin | Hin].
    + rewrite List.Forall_forall in Hno. apply Hno in Hin. discriminate.
    + unfold entries_of. apply in_flat_map.
      exists (EvView f s t (Some raw)). split; [exact Hin | now left].
  - intros ->. reflexivity.
Qed.

(** ** How the listener fails *)

Lemma execution_done_raise_inv (svc : service) (prompt_id : json) (msg : frame)
    (e : exn) :
  execution_done svc prompt_id msg = Raise e ->
  exists s, msg = Text s /\ malformed svc s e.
Proof.
  destruct msg as [s | b]; simpl; [| discriminate].
  intros H. exists s. split; [reflexivity |]. unfold loads in H.
  destruct (json_loads svc s) as [data |] eqn:Hl;
    [| injection H as <-; left; auto].
  right. exists data. split; [first [reflexivity | assumption] |].
  destruct (getitem data "type") as [ty |] eqn:Hty;
    [| injection H as <-; auto].
  destruct (py_eq ty (JStr "executing")) eqn:Hpe; [| discriminate].
  apply py_eq_str in Hpe. subst ty. right. split; [first [reflexivity | assumption] |].
  destruct (getitem data "data") as [d |] eqn:Hd;
    [| injection H as <-; auto].
  right. exists d. split; [first [reflexivity | assumption] |].
  destruct (getitem d "node") as [node |] eqn:Hn;
    [| injection H as <-; auto].
  destruct (is_none node) eqn:Hnone; [| discriminate].
  apply is_none_true in Hnone. subst node.
  destruct (getitem d "prompt_id") as [p |] eqn:Hp; [discriminate |].
  injection H as <-. auto.
Qed.

(** X11.  The listener gives up for two reasons only.  Either the channel
    closes after messages that were all passed over; or a text message
    cannot be read through: it is no JSON document, or it lacks "type",
    or it is an "executing" event that lacks "data" or "node", or one
    with a null node that lacks "prompt_id", whichever job it is about.
    The exception is the one of that step, the bad message is the last
    one read, the messages after it stay unread, and files are not
    touched.  A binary frame never makes the listener fail. *)
Theorem listener_fails_only_on_bad_message_or_closed_channel :
  forall (svc : service) (prompt_id : json) (w w' : world) (e : exn),
    wait_for_execution svc prompt_id w = (Raise e, w') ->
    files w' = files w /\ probes w' = probes w /\
    ((e = WebSocketException /\
      Forall (ignored svc prompt_id) (inbox w) /\
      inbox w' = [] /\
      trace w' = trace w ++ received (inbox w) ++ [EvRecv None]) \/
     (exists earlier s,
        inbox w = earlier ++ Text s :: inbox w' /\
        Forall (ignored svc prompt_id) earlier /\
        malformed svc s e /\
        trace w' = trace w ++ received (earlier ++ [Text s]))).
Proof.
  intros svc prompt_id w w' e H. unfold wait_for_execution in H.
  apply wait_loop_raise_inv in H as (Hf & Hp & H).
  split; [exact Hf |]. split; [exact Hp |].
  destruct H as [H | (earlier & msg & Hin & Hall & He & Ht)]; [now left | right].
  apply execution_done_raise_inv in He as (s & -> & Hbad).
  exists earlier, s. auto.
Qed.

(** ** Payloads with line breaks *)

Section NoiseFacts.

Import Base64.
Local Open Scope N_scope.

Lemma a2b_loop_significant (s : string) :
  forall qp l p out,
    a2b_loop s qp l p out = a2b_loop (significant s) qp l p out.
Proof.
  induction s as [| c s IH]; intros qp l p out; [reflexivity |].
  cbn [significant]. unfold outside_alphabet.
  destruct (Ascii.eqb c PAD) eqn:Hpad.
  - cbn [negb andb a2b_loop]. rewrite Hpad.
    destruct (2 <=? qp); [| apply IH].
    destruct (4 <=? qp + (p + 1)); [reflexivity | apply IH].
  - destruct (a2b c) as [v |] eqn:Hv; cbn [negb andb].
    + rewrite !(a2b_loop_data c _ qp l p out v Hpad Hv).
      repeat match goal with
             | |- context [match ?x with _ => _ end] => destruct x
             end; apply IH.
    + cbn [a2b_loop]. rewrite Hpad, Hv. apply IH.
Qed.

Lemma is_ascii_significant (s : string) :
  is_ascii s = true -> is_ascii (significant s) = true.
Proof.
  induction s as [| c s IH]; [reflexivity |]. cbn [is_ascii significant].
  intros H. apply andb_prop in H as [Hc Hs].
  destruct (outside_alphabet c); [now apply IH |].
  cbn [is_ascii]. now rewrite Hc, IH.
Qed.

Lemma b64decode_significant (s : string) :
  is_ascii s = true ->
  b64decode (JStr s) = b64decode (JStr (significant s)).
Proof.
  intros H. unfold b64decode, a2b_base64.
  now rewrite H, (is_ascii_significant s H), <- a2b_loop_significant.
Qed.

End NoiseFacts.

(** X15.  The payload is read through noise: characters of an ASCII
    payload that are neither of the base64 alphabet nor the padding
    character (line breaks, blanks) are passed over, so the payload
    decodes to what it decodes to without them, and the image is saved
    to the same effect. *)
Theorem payload_read_through_noise :
  forall (svc : service) (img img' : json) (s : string) (w : world),
    Base64.is_ascii s = true ->
    getitem img "image" = Ok (JStr s) ->
    getitem img' "image" = Ok (JStr (significant s)) ->
    getitem img' "name" = getitem img "name" ->
    Base64.b64decode (JStr s) = Base64.b64decode (JStr (significant s)) /\
    save_input_image svc img w = save_input_image svc img' w.
Proof.
  intros svc img img' s w Hascii Himg Himg' Hname.
  pose proof (b64decode_significant s Hascii) as Hb. split; [exact Hb |].
  unfold save_input_image, bind, lift. now rewrite Hname, Himg, Himg', Hb.
Qed.

(** ** Running a job again *)

Lemma persist_lookup_cases (p : string) (named : list (string * list byte)) :
  (exists data, forall fs : gmap string (list byte),
      persist named fs !! p = Some data) \/
  (forall fs : gmap string (list byte), persist named fs !! p = fs !! p).
Proof.
  induction named as [| nd named IH] using rev_ind; [now right |].
  destruct (String.eqb_spec (input_path (fst nd)) p) as [<- | Hne].
  - left. exists (snd nd). intros fs. rewrite persist_app. simpl.
    apply lookup_insert_eq.
  - destruct IH as [(data & IH) | IH]; [left; exists data | right];
      intros fs; rewrite persist_app; simpl;
      rewrite lookup_insert_ne by exact Hne; apply IH.
Qed.

Lemma persist_twice (named : list (string * list byte))
    (fs : gmap string (list byte)) :
  persist named (persist named fs) = persist named fs.
Proof.
  apply map_eq. intros p.
  destruct (persist_lookup_cases p named) as [(data & H) | H].
  - now rewrite !H.
  - now rewrite !H.
Qed.

(** A run that got as far as a liveness request has saved every image. *)
Lemma handler_saved (svc : service) (job : json) (w w' : world)
    (r : result json) (evs : list event) (up : bool) :
  handler svc job w = (r, w') ->
  trace w' = trace w ++ evs ->
  In (EvProbe up) evs ->
  exists workflow imgs named,
    prepared job workflow imgs /\
    Forall2 input_image imgs named /\
    files w' = persist named (files w).
Proof.
  intros H Ht Hin.
  destruct (handler_cases svc _ _ _ _ H)
    as [(workflow & imgs & Hprep) | (-> & _)].
  2:{ rewrite <- (app_nil_r (trace w)) in Ht at 1.
      apply app_inv_head in Ht. now subst evs. }
  exists workflow, imgs.
  destruct (handler_shape svc _ _ _ _ _ _ Hprep H) as (ra & wa & Ha & H1).
  destruct ra as [u | e].
  2:{ destruct H1 as [_ ->].
      destruct (emits_save_all svc (fun e => is_probe_or_sleep e = false) imgs
                  (fun _ _ => eq_refl) (fun _ => eq_refl) _ _ _ Ha)
        as (saves & Hta & Hsaves & _).
      rewrite Hta in Ht. apply app_inv_head in Ht. subst evs.
      rewrite List.Forall_forall in Hsaves. apply Hsaves in Hin. discriminate. }
  apply save_all_inv in Ha as (named & Hnamed & _ & ->).
  exists named. split; [exact Hprep |]. split; [exact Hnamed |].
  destruct H1 as (rb & wb & Hb & H2).
  apply ensure_up_inv in Hb as (Hfb & _). simpl in Hfb. rewrite <- Hfb.
  destruct rb as [u' | e]; [| now destruct H2 as [_ ->]].
  destruct H2 as (rc & wc & Hc & H3).
  apply after_ready_inv in Hc as (Hfc & _). rewrite <- Hfc.
  destruct rc as [history | e]; [| now destruct H3 as [_ ->]].
  destruct (moves_collect_outputs svc history _ _ _ H3) as (? & ? & _ & _ & _ & Hfd).
  apply Hfd. discriminate.
Qed.

(** X14.  Running a job again changes no file: when a run of a job got
    past the saving of its images (it made a liveness request), a second
    run of the same job that starts from the files the first one left,
    and gets as far, leaves these files as they are, whatever the server
    does in either run. *)
Theorem rerun_changes_no_file :
  forall (svc svc' : service) (job : json) (w0 w0' w w' : world)
         (r0 r : result json) (evs0 evs : list event) (up0 up : bool),
    handler svc job w0 = (r0, w0') ->
    trace w0' = trace w0 ++ evs0 ->
    In (EvProbe up0) evs0 ->
    handler svc' job w = (r, w') ->
    trace w' = trace w ++ evs ->
    In (EvProbe up) evs ->
    files w = files w0' ->
    files w' = files w.
Proof.
  intros svc svc' job w0 w0' w w' r0 r evs0 evs up0 up H0 Ht0 Hin0 H Ht Hin Hf.
  destruct (handler_saved _ _ _ _ _ _ _ H0 Ht0 Hin0)
    as (workflow0 & imgs0 & named0 & Hprep0 & Hnamed0 & Hf0).
  destruct (handler_saved _ _ _ _ _ _ _ H Ht Hin)
    as (workflow & imgs & named & Hprep & Hnamed & Hf1).
  destruct (prepared_functional _ _ _ _ _ Hprep0 Hprep) as [_ ->].
  rewrite (input_images_functional _ _ _ Hnamed Hnamed0) in Hf1.
  rewrite Hf1, Hf, Hf0. apply persist_twice.
Qed.

(** ** The properties of the specification: readiness *)

Section ReadinessFacts.

Variable svc : service.

Local Abbreviation after_ready workflow :=
  (ws_connect svc ;;
   prompt_id <- queue_prompt svc workflow ;;
   wait_for_execution svc prompt_id ;; ws_close ;;
   get_history svc prompt_id)%comfy.

Local Abbreviation save_all imgs :=
  (for_in imgs (fun img (_ : unit) => save_input_image svc img) tt).

Local Abbreviation calm := (Forall (fun e => is_probe_or_sleep e = false)).

Local Abbreviation NOT_RESPONDING := (RuntimeError "ComfyUI not responding").

Lemma handler_cases_quiet (job : json) (w w' : world) (r : result json) :
  handler svc job w = (r, w') ->
  (exists workflow imgs, prepared job workflow imgs) \/
  (w' = w /\ exists e, r = Raise e /\ is_runtime_error e = false).
Proof.
  intros H. unfold handler in H.
  apply bind_inv in H as [(history & w1 & H & _) | (e & H & ->)];
    destruct (run_prompt_unprepared svc _ _ _ _ H)
      as [Hprep | (e' & He & -> & Hq)]; auto; [discriminate |].
  injection He as <-. eauto.
Qed.

(** From the answered liveness request on, nothing probes or sleeps, and
    no [RuntimeError] is raised. *)
Lemma after_probing (workflow : json) (w w' : world) (r : result json) :
  (history <- after_ready workflow ;; collect_outputs svc history) w = (r, w') ->
  (forall msg, r <> Raise (RuntimeError msg)) /\
  exists post, trace w' = trace w ++ post /\ calm post.
Proof.
  intros H. split.
  - intros msg ->.
    assert (Hq : quiet (history <- after_ready workflow ;;
                        collect_outputs svc history)).
    { apply quiet_bind; [apply quiet_after_ready | apply quiet_collect_outputs]. }
    now apply Hq in H.
  - assert (He : emits (fun e => is_probe_or_sleep e = false)
                   (history <- after_ready workflow ;;
                    collect_outputs svc history)).
    { apply emits_bind.
      - apply emits_after_ready; intros; reflexivity.
      - intros history. apply emits_collect_outputs. intros; reflexivity. }
    apply He in H as (post & Ht & Hpost & _). eauto.
Qed.

(** All 120 requests fail: the handler saves the images and gives up. *)
Lemma handler_down (job workflow : json) (imgs : list json)
    (named : list (string * list byte)) (w : world) :
  prepared job workflow imgs ->
  Forall2 input_image imgs named ->
  openable svc (trace w) named ->
  (forall i, (i < 120)%nat -> nth i (probes w) false = false) ->
  handler svc job w =
  (Raise NOT_RESPONDING,
   {| files := persist named (files w); probes := skipn 120 (probes w);
      inbox := inbox w;
      trace := trace w ++ written named ++ failed_attempts 120 |}).
Proof.
  intros Hprep Hnamed Hopen Hdown.
  unfold handler. unfold bind at 1.
  rewrite (run_prompt_prepared svc _ _ _ w Hprep).
  unfold bind at 1. rewrite (save_all_ok svc _ _ Hnamed w Hopen).
  unfold bind at 1.
  rewrite (ensure_up_fails 120
             {| files := persist named (files w); probes := probes w;
                inbox := inbox w; trace := trace w ++ written named |} Hdown).
  cbn [files probes inbox trace]. now rewrite <- app_assoc.
Qed.

(** The liveness requests of a run, whatever its outcome. *)
Lemma handler_probing (job : json) (w w' : world) (r : result json)
    (evs : list event) :
  handler svc job w = (r, w') ->
  trace w' = trace w ++ evs ->
  exists saves k rest,
    evs = saves ++ failed_attempts k ++ rest /\
    calm saves /\
    (((k < 120)%nat /\
      (forall msg, r <> Raise (RuntimeError msg)) /\
      exists post, rest = EvProbe true :: post /\ calm post)
     \/
     (k = 120%nat /\ rest = [] /\ r = Raise NOT_RESPONDING /\
      forall i, (i < 120)%nat -> nth i (probes w) false = false)
     \/
     (k = 0%nat /\ rest = [] /\
      exists e, r = Raise e /\ is_runtime_error e = false)).
Proof.
  intros H Ht.
  destruct (handler_cases_quiet _ _ _ _ H)
    as [(workflow & imgs & Hprep) | (-> & e & -> & He)].
  2:{ rewrite <- (app_nil_r (trace w)) in Ht at 1.
      apply app_inv_head in Ht. subst evs.
      exists [], 0%nat, []. split; [reflexivity |]. split; [constructor |].
      right. right. eauto. }
  destruct (handler_shape svc _ _ _ _ _ _ Hprep H) as (ra & wa & Ha & H1).
  destruct (emits_save_all svc (fun e => is_probe_or_sleep e = false) imgs
              (fun _ _ => eq_refl) (fun _ => eq_refl) _ _ _ Ha)
    as (saves & Hta & Hsaves & _).
  destruct ra as [u | e].
  2:{ destruct H1 as [-> ->]. rewrite Hta in Ht. apply app_inv_head in Ht.
      subst evs. exists saves, 0%nat, []. rewrite app_nil_r.
      split; [reflexivity |]. split; [exact Hsaves |]. right. right.
      do 2 (split; [reflexivity |]). exists e. split; [reflexivity |].
      apply (quiet_for_in (fun img (_ : unit) => save_input_image svc img) imgs
               (fun img _ => quiet_save_input_image svc img) tt _ _ _ Ha). }
  assert (Hpa : probes wa = probes w).
  { apply save_all_inv in Ha as (named & _ & _ & ->). reflexivity. }
  destruct H1 as (rb & wb & Hb & H2).
  destruct rb as [u' | e].
  - apply ensure_up_inv in Hb as (_ & _ & [(_ & k & Hk & _ & Htb) | ([=] & _)]).
    destruct H2 as (rc & wc & Hc & H3).
    assert (Hrest : (history <- after_ready workflow ;;
                     collect_outputs svc history) wb = (r, w')).
    { unfold bind at 1. rewrite Hc. destruct rc as [history | e].
      - exact H3.
      - now destruct H3 as [-> ->]. }
    apply after_probing in Hrest as (Hnot & post & Htp & Hpost).
    rewrite Htp, Htb, Hta in Ht. repeat rewrite <- app_assoc in Ht.
    apply app_inv_head in Ht. subst evs.
    exists saves, k, (EvProbe true :: post).
    split; [reflexivity |]. split; [exact Hsaves |]. left. eauto.
  - destruct H2 as [-> ->].
    pose proof (ensure_up_down 120 _ _ _ Hb) as Hdown. rewrite Hpa in Hdown.
    apply ensure_up_inv in Hb as (_ & _ & [([=] & _) | ([= ->] & Htb)]).
    rewrite Htb, Hta, <- app_assoc in Ht. apply app_inv_head in Ht. subst evs.
    exists saves, 120%nat, []. rewrite app_nil_r.
    split; [reflexivity |]. split; [exact Hsaves |]. right. left. auto.
Qed.

End ReadinessFacts.

(** C4.  The readiness probe of the handler ([for _ in range (120)])
    stops at the first liveness request that succeeds and gives up only
    when all 120 have failed, never earlier.  In every run the liveness
    requests come after the saving as [k] failed requests, each followed
    by a sleep of one second, and then either the request that
    succeeded, with [k < 120], after which the run neither probes nor
    sleeps again and does not end in a [RuntimeError]; or nothing, with
    [k] = 120 and the [RuntimeError] "ComfyUI not responding" (or with
    [k] = 0 when the run failed before any request, and not with a
    [RuntimeError]).  When the server answers the request after [k < 120]
    failures, that is the course the run takes; when the first 120
    requests all fail, the handler raises that error after exactly 120
    requests and sleeps; and it raises it in no other case. *)
Theorem readiness_probe_budget :
  forall (svc : service) (job : json) (w w' : world) (r : result json)
         (evs : list event),
    handler svc job w = (r, w') ->
    trace w' = trace w ++ evs ->
    (exists saves k rest,
        evs = saves ++ failed_attempts k ++ rest /\
        Forall (fun e => is_probe_or_sleep e = false) saves /\
        (((k < 120)%nat /\
          (forall msg, r <> Raise (RuntimeError msg)) /\
          exists post,
            rest = EvProbe true :: post /\
            Forall (fun e => is_probe_or_sleep e = false) post)
         \/
         (k = 120%nat /\ rest = [] /\
          r = Raise (RuntimeError "ComfyUI not responding"))
         \/
         (k = 0%nat /\ rest = [] /\
          exists e, r = Raise e /\ is_runtime_error e = false)))
    /\
    (forall workflow imgs named k rest,
        prepared job workflow imgs ->
        Forall2 input_image imgs named ->
        openable svc (trace w) named ->
        (k < 120)%nat ->
        probes w = repeat false k ++ true :: rest ->
        (forall msg, r <> Raise (RuntimeError msg)) /\
        exists post,
          evs = written named ++ failed_attempts k ++ EvProbe true :: post /\
          Forall (fun e => is_probe_or_sleep e = false) post)
    /\
    (forall workflow imgs named,
        prepared job workflow imgs ->
        Forall2 input_image imgs named ->
        openable svc (trace w) named ->
        (forall i, (i < 120)%nat -> nth i (probes w) false = false) ->
        r = Raise (RuntimeError "ComfyUI not responding") /\
        evs = written named ++ failed_attempts 120)
    /\
    (forall msg,
        r = Raise (RuntimeError msg) ->
        msg = "ComfyUI not responding"%string /\
        (forall i, (i < 120)%nat -> nth i (probes w) false = false) /\
        exists saves,
          evs = saves ++ failed_attempts 120 /\
          Forall (fun e => is_probe_or_sleep e = false) saves)
    /\
    (forall pre post,
        evs = pre ++ EvProbe true :: post ->
        Forall (fun e => is_probe_or_sleep e = false) post).
Proof.
  intros svc job w w' r evs H Ht.
  destruct (handler_probing svc _ _ _ _ _ H Ht)
    as (saves & k & rest & Hevs & Hsaves & Hcase).
  split; [| split; [| split; [| split]]].
  - exists saves, k, rest. split; [exact Hevs |]. split; [exact Hsaves |].
    destruct Hcase as [Hc | [(Hk & Hr & He & _) | Hc]]; auto.
  - intros workflow imgs named k' rest' Hprep Hnamed Hopen Hk Hprobes.
    rewrite (handler_ready svc _ _ _ _ _ _ _ Hprep Hnamed Hopen Hk Hprobes) in H.
    apply after_probing in H as (Hnot & post & Htp & Hpost).
    split; [exact Hnot |]. exists post. split; [| exact Hpost].
    cbn [trace] in Htp. rewrite Htp in Ht. unfold upto_ready in Ht.
    repeat rewrite <- app_assoc in Ht. apply app_inv_head in Ht.
    now rewrite <- Ht.
  - intros workflow imgs named Hprep Hnamed Hopen Hdown.
    rewrite (handler_down svc _ _ _ _ _ Hprep Hnamed Hopen Hdown) in H.
    injection H as <- <-. split; [reflexivity |].
    cbn [trace] in Ht. now apply app_inv_head in Ht.
  - intros msg ->.
    destruct Hcase as [(_ & Hnot & _)
                      | [(-> & -> & [= <-] & Hdown) | (_ & _ & e & [= <-] & He)]].
    + now destruct (Hnot msg).
    + split; [reflexivity |]. split; [exact Hdown |].
      exists saves. rewrite app_nil_r in Hevs. auto.
    + discriminate.
  - intros pre post ->.
    destruct (moves_handler svc job w r w' H) as (evs' & st & Ht' & Hrun & _ & _).
    rewrite Ht in Ht'. apply app_inv_head in Ht'. subst evs'.
    apply run_split in Hrun as (s1 & s2 & _ & Hstep & Hpost).
    assert (s2 = Ready) as ->
        by (destruct s1; simpl in Hstep; try discriminate; congruence).
    now apply (run_past_readiness _ _ _ _ Hpost).
Qed.

(** ** The readiness probe on the invocation of [Demo] *)

(** One request fails, the second is answered, and that was the last. *)
Lemma readiness_probe_budget_witness :
  exists post,
    trace (snd Cases.run) =
      written [("in.png"%string, Demo.foo)] ++ failed_attempts 1 ++
      EvProbe true :: post /\
    Forall (fun e => is_probe_or_sleep e = false) post.
Proof.
  apply (proj2 (proj1 (proj2 (readiness_probe_budget Demo.svc Demo.job
                                Demo.world0 (snd Cases.run) (fst Cases.run)
                                (trace (snd Cases.run))
                                ltac:(vm_compute; reflexivity)
                                ltac:(vm_compute; reflexivity)))
                  Demo.workflow [Demo.image] [("in.png"%string, Demo.foo)]
                  1%nat []
                  ltac:(unfold prepared; repeat eexists)
                  ltac:(repeat constructor; exists (JStr "Zm9v"); split;
                        [reflexivity | vm_compute; reflexivity])
                  ltac:(simpl; auto)
                  ltac:(lia)
                  ltac:(reflexivity))).
Defined.

(** ** The further properties at work on the invocations of [Cases] *)

(** Without a workflow nothing is done. *)
Lemma unreadable_job_refused_untouched_witness :
  handler Demo.svc Cases.job_without_workflow Demo.world0 =
    (Raise (KeyError (JStr "workflow")), Demo.world0).
Proof.
  apply (proj1 (proj2 (proj2 (unreadable_job_refused_untouched Demo.svc
                                Cases.job_without_workflow Demo.world0)))
           [("images"%string, JArr [Demo.image])]).
  - reflexivity.
  - reflexivity.
Defined.

(** The image before the broken one is on disk when the handler raises. *)
Lemma failed_image_keeps_earlier_files_witness :
  handler Demo.svc Cases.job_with_broken_image Demo.world0 =
    (Raise BinasciiError,
     {| files := persist [("in.png"%string, Demo.foo)] ∅;
        probes := [false; true]; inbox := Demo.frames;
        trace := [EvWrite "/input/in.png" Demo.foo] |}).
Proof.
  apply (proj1 (failed_image_keeps_earlier_files Demo.svc
                  Cases.job_with_broken_image Demo.workflow Demo.world0
                  {| files := persist [("in.png"%string, Demo.foo)] ∅;
                     probes := [false; true]; inbox := Demo.frames;
                     trace := [EvWrite "/input/in.png" Demo.foo] |}
                  [Demo.image] Cases.broken_image [Demo.image]
                  [("in.png"%string, Demo.foo)] BinasciiError
                  ltac:(unfold prepared; repeat eexists)
                  ltac:(repeat constructor; exists (JStr "Zm9v"); split;
                        [reflexivity | vm_compute; reflexivity])
                  ltac:(simpl; auto)
                  ltac:(vm_compute; reflexivity))).
Defined.


Lemma liveness_wait_is_bounded_witness :
  (requests (trace (snd Cases.run)) <= 120)%nat /\
  slept (trace (snd Cases.run)) = Z.of_nat (failures (trace (snd Cases.run))).
Proof.
  destruct (liveness_wait_is_bounded Demo.svc Demo.job Demo.world0
              (snd Cases.run) (fst Cases.run) (trace (snd Cases.run))
              ltac:(vm_compute; reflexivity) ltac:(vm_compute; reflexivity))
    as (H1 & H2 & _).
  split; assumption.
Defined.

(** The websocket of the demo run is closed once. *)
Lemma at_most_one_of_each_witness :
  Forall (fun e' => single e' <> Some 2%nat)
    (firstn 11 (trace (snd Cases.run)) ++ skipn 12 (trace (snd Cases.run))).
Proof.
  apply (at_most_one_of_each Demo.svc Demo.job Demo.world0 (snd Cases.run)
           (fst Cases.run) (firstn 11 (trace (snd Cases.run))) EvClose
           (skipn 12 (trace (snd Cases.run))) 2%nat).
  - vm_compute. reflexivity.
  - vm_compute. reflexivity.
  - reflexivity.
Defined.

Lemma workflow_forwarded_unmodified_witness :
  exists job_input,
    getitem Demo.job "input" = Ok job_input /\
    getitem job_input "workflow" = Ok Demo.workflow.
Proof.
  apply (proj2 (workflow_forwarded_unmodified Demo.svc Demo.job Demo.world0
                  (snd Cases.run) (fst Cases.run)
                  (firstn 5 (trace (snd Cases.run))) Demo.workflow
                  "c0ffee" (Some (Demo.prompt_body "p-1"))
                  (skipn 6 (trace (snd Cases.run)))
                  ltac:(vm_compute; reflexivity)
                  ltac:(vm_compute; reflexivity))).
Defined.

(** A file that is not the job's holds after the run what it held before:
    the one image of the job leads elsewhere. *)
Lemma only_image_paths_are_written_witness :
  files (snd (handler Demo.svc Demo.job Cases.world_with_notes))
    !! "/input/notes.txt"%string =
  files Cases.world_with_notes !! "/input/notes.txt"%string /\
  last_written (location "/input/notes.txt")
    (trace (snd (handler Demo.svc Demo.job Cases.world_with_notes))) = None.
Proof.
  apply (proj1 (proj2 (only_image_paths_are_written Demo.svc Demo.job
                         Cases.world_with_notes
                         (snd (handler Demo.svc Demo.job Cases.world_with_notes))
                         (fst (handler Demo.svc Demo.job Cases.world_with_notes))
                         (trace (snd (handler Demo.svc Demo.job
                                        Cases.world_with_notes)))
                         "/input/notes.txt"
                         ltac:(vm_compute; reflexivity)
                         ltac:(vm_compute; reflexivity)))).
  intros job_input images imgs img name Hji Him Hit Hin Hname.
  vm_compute in Hji. injection Hji as <-.
  vm_compute in Him. injection Him as <-.
  vm_compute in Hit. injection Hit as <-.
  destruct Hin as [<- | []].
  vm_compute in Hname. injection Hname as <-.
  vm_compute. discriminate.
Defined.

(** The channel closes before the signal: the websocket, once opened, is
    never closed. *)
Lemma websocket_closed_only_on_completion_witness :
  exists e pre last,
    fst (handler Demo.svc Demo.job Cases.world_cut) = Raise e /\
    trace (snd (handler Demo.svc Demo.job Cases.world_cut)) = pre ++ [last] /\
    awaiting last = true.
Proof.
  apply (proj2 (proj2 (websocket_closed_only_on_completion Demo.svc Demo.job
                         Cases.world_cut
                         (snd (handler Demo.svc Demo.job Cases.world_cut))
                         (fst (handler Demo.svc Demo.job Cases.world_cut))
                         (trace (snd (handler Demo.svc Demo.job Cases.world_cut)))
                         ltac:(vm_compute; reflexivity)
                         ltac:(vm_compute; reflexivity)))
           "c0ffee"%string).
  - vm_compute. do 2 right. left. reflexivity.
  - vm_compute. intros H.
    repeat (destruct H as [H | H]; [discriminate H |]). exact H.
Defined.

Lemma handler_returns_every_image_witness :
  handler Demo.svc Demo.job Demo.world0 =
    (Ok (result_of (zip_with entry [Demo.out_png] [Demo.foo])),
     {| files := persist [("in.png"%string, Demo.foo)] ∅; probes := [];
        inbox := [Text Demo.status];
        trace := ([] ++
                  upto_closed Demo.svc Demo.workflow
                    [("in.png"%string, Demo.foo)] 1 (Demo.prompt_body "p-1")
                    (firstn 4 Demo.frames ++ [Text (Demo.executing "null" "p-1")]) ++
                  [EvHistory (JStr "p-1") (Some (Demo.history_body "p-1"))]) ++
                 zip_with view_ok [Demo.out_png] [Demo.foo] |}).
Proof.
  apply (handler_returns_every_image Demo.svc Demo.job Demo.workflow
           [Demo.image] [("in.png"%string, Demo.foo)] 1 []
           (Demo.prompt_body "p-1") (JObj [("prompt_id", JStr "p-1")])
           (JStr "p-1") (firstn 4 Demo.frames)
           (Text (Demo.executing "null" "p-1")) [Text Demo.status]
           (Demo.history_body "p-1") (JObj [("p-1", Demo.history)])
           Demo.history [Demo.out_png] [Demo.foo] Demo.world0).
  - unfold prepared. repeat eexists.
  - repeat constructor. exists (JStr "Zm9v").
    split; [reflexivity | vm_compute; reflexivity].
  - simpl. auto.
  - lia.
  - reflexivity.
  - reflexivity.
  - reflexivity.
  - vm_compute. reflexivity.
  - reflexivity.
  - reflexivity.
  - repeat constructor;
      apply (done_inv Demo.svc (JStr "p-1") _ false); vm_compute; reflexivity.
  - apply (done_inv Demo.svc (JStr "p-1") _ true). vm_compute. reflexivity.
  - reflexivity.
  - vm_compute. reflexivity.
  - reflexivity.
  - reflexivity.
  - vm_compute. split; [reflexivity | exact I].
Defined.

(** The history holds another prompt: a [KeyError] after the close. *)
Lemma missing_history_ends_run_witness :
  handler Cases.svc_forgetful Demo.job Demo.world0 =
    (Raise (KeyError (JStr "p-1")),
     {| files := persist [("in.png"%string, Demo.foo)] ∅; probes := [];
        inbox := [Text Demo.status];
        trace := [] ++
                 upto_closed Cases.svc_forgetful Demo.workflow
                   [("in.png"%string, Demo.foo)] 1 (Demo.prompt_body "p-1")
                   (firstn 4 Demo.frames ++ [Text (Demo.executing "null" "p-1")]) ++
                 [EvHistory (JStr "p-1") (Some (Demo.history_body "p-2"))] |}).
Proof.
  apply (missing_history_ends_run Cases.svc_forgetful Demo.job Demo.workflow
           [Demo.image] [("in.png"%string, Demo.foo)] 1 []
           (Demo.prompt_body "p-1") (JObj [("prompt_id", JStr "p-1")])
           (JStr "p-1") (firstn 4 Demo.frames)
           (Text (Demo.executing "null" "p-1")) [Text Demo.status]
           (Some (Demo.history_body "p-2")) (KeyError (JStr "p-1"))
           Demo.world0).
  - unfold prepared. repeat eexists.
  - repeat constructor. exists (JStr "Zm9v").
    split; [reflexivity | vm_compute; reflexivity].
  - simpl. auto.
  - lia.
  - reflexivity.
  - reflexivity.
  - reflexivity.
  - vm_compute. reflexivity.
  - reflexivity.
  - reflexivity.
  - repeat constructor;
      apply (done_inv Cases.svc_forgetful (JStr "p-1") _ false);
      vm_compute; reflexivity.
  - apply (done_inv Cases.svc_forgetful (JStr "p-1") _ true).
    vm_compute. reflexivity.
  - reflexivity.
  - right. right.
    exists (Demo.history_body "p-2"), [("p-2"%string, Demo.history)], "p-1"%string.
    split; [reflexivity |]. split; [vm_compute; reflexivity |].
    split; [reflexivity |]. split; reflexivity.
Defined.

(** The submission is answered with a report of errors: a [KeyError], and
    not one message is read. *)
Lemma unanswered_submission_ends_run_witness :
  handler Cases.svc_rejecting Demo.job Demo.world0 =
    (Raise (KeyError (JStr "prompt_id")),
     {| files := persist [("in.png"%string, Demo.foo)] ∅; probes := [];
        inbox := Demo.frames;
        trace := [] ++
                 upto_connected Cases.svc_rejecting
                   [("in.png"%string, Demo.foo)] 1 ++
                 [EvSubmit Demo.workflow "c0ffee" (Some Cases.error_body)] |}).
Proof.
  apply (unanswered_submission_ends_run Cases.svc_rejecting Demo.job
           Demo.workflow [Demo.image] [("in.png"%string, Demo.foo)] 1 []
           (Some Cases.error_body) (KeyError (JStr "prompt_id")) Demo.world0).
  - unfold prepared. repeat eexists.
  - repeat constructor. exists (JStr "Zm9v").
    split; [reflexivity | vm_compute; reflexivity].
  - simpl. auto.
  - lia.
  - reflexivity.
  - reflexivity.
  - reflexivity.
  - right. right. left.
    exists Cases.error_body, [("error"%string, JStr "invalid prompt")].
    split; [reflexivity |]. split; [vm_compute; reflexivity |].
    split; reflexivity.
Defined.

Lemma result_lists_what_was_fetched_witness :
  JObj [("images", JArr [JObj [("name", JStr "out.png"); ("data", JStr "Zm9v")]])] =
  result_of (entries_of (trace (snd Cases.run))).
Proof.
  apply (proj1 (result_lists_what_was_fetched Demo.svc Demo.job Demo.world0
                  (snd Cases.run)
                  (JObj [("images",
                          JArr [JObj [("name", JStr "out.png");
                                      ("data", JStr "Zm9v")]])])
                  (trace (snd Cases.run))
                  ltac:(vm_compute; reflexivity)
                  ltac:(vm_compute; reflexivity))).
Defined.

(** A message that is no JSON document stops the listener; the signal
    behind it is never read. *)
Lemma listener_fails_only_on_bad_message_or_closed_channel_witness :
  files (snd (wait_for_execution Demo.svc (JStr "p-1") Cases.world_garbled)) =
  files Cases.world_garbled.
Proof.
  apply (proj1 (listener_fails_only_on_bad_message_or_closed_channel Demo.svc
                  (JStr "p-1") Cases.world_garbled
                  (snd (wait_for_execution Demo.svc (JStr "p-1")
                          Cases.world_garbled))
                  JSONDecodeError
                  ltac:(vm_compute; reflexivity))).
Defined.

(** A blank in the payload changes nothing. *)
Lemma payload_read_through_noise_witness :
  save_input_image Demo.svc Cases.spaced_image Demo.world0 =
  save_input_image Demo.svc Demo.image Demo.world0.
Proof.
  apply (proj2 (payload_read_through_noise Demo.svc Cases.spaced_image
                  Demo.image "Zm 9v" Demo.world0
                  ltac:(reflexivity) ltac:(reflexivity) ltac:(reflexivity)
                  ltac:(reflexivity))).
Defined.

Lemma rerun_changes_no_file_witness :
  files (snd (handler Demo.svc Demo.job Cases.world_again)) =
  files Cases.world_again.
Proof.
  apply (rerun_changes_no_file Demo.svc Demo.svc Demo.job Demo.world0
           (snd Cases.run) Cases.world_again
           (snd (handler Demo.svc Demo.job Cases.world_again))
           (fst Cases.run) (fst (handler Demo.svc Demo.job Cases.world_again))
           (trace (snd Cases.run))
           (trace (snd (handler Demo.svc Demo.job Cases.world_again)))
           false true).
  - vm_compute. reflexivity.
  - vm_compute. reflexivity.
  - vm_compute. right. left. reflexivity.
  - vm_compute. reflexivity.
  - vm_compute. reflexivity.
  - vm_compute. right. left. reflexivity.
  - reflexivity.
Defined.
